(** * TLSSigAPI: UserSig tokens of the TRTC / IM services

    A shallow embedding of [internal/sign/TLSSigAPI.go] (package [sign]):
    the user-buffer encoder [genUserBuf], the canonical signer
    [userSig.sign], the envelope ([genSig] / [newUserSig]) and the
    verifier [userSig.verify], together with models of the standard-library
    functions the package calls ([crypto/hmac], [crypto/sha256],
    [encoding/base64], [strconv], [compress/zlib], [encoding/json]).

    Conventions.
    - Go [int], [int64] are [Z] in [[-2^63, 2^63)], with the wrap-around of
      an addition written [wrap64]; [uint64] and [uint32] are [Z] reduced by
      [to_uint64] and [to_uint32].
    - A Go [string] is a [string]; the content of a [[]byte] is a
      [list byte]; a [[]byte] value that may be [nil] is a [slice], where
      [None] is the nil slice and [Some []] the empty non-nil one.
    - A Go [error] result is an [option error], [None] being [nil].
    - [time.Now().Unix()] is an explicit argument [currTime]; a [time.Time]
      argument [now] is represented by [now.Unix()]. *)

From Stdlib Require Import ZArith List String Ascii Bool Lia.
From Stdlib Require Import Strings.Byte.
From Stdlib Require Import DecimalString DecimalZ.
Import ListNotations.

Local Open Scope Z_scope.

(** ** Go values *)

Module Go.

Definition slice : Type := option (list byte).

(** The bytes of a slice; the nil slice has none. *)
Definition contents (s : slice) : list byte :=
  match s with
  | Some b => b
  | None => []
  end.

(** [s != nil] *)
Definition non_nil (s : slice) : bool :=
  match s with
  | Some _ => true
  | None => false
  end.

Definition Z_of_byte (b : byte) : Z := Z.of_N (Byte.to_N b).

(** The conversion [(byte)(z)] of an integer: its low eight bits. *)
Definition to_byte (z : Z) : byte :=
  match Byte.of_N (Z.to_N (z mod 256)) with
  | Some b => b
  | None => x00
  end.

Definition to_uint32 (z : Z) : Z := z mod 2 ^ 32.
Definition to_uint64 (z : Z) : Z := z mod 2 ^ 64.

Definition min_int64 : Z := - 2 ^ 63.
Definition max_int64 : Z := 2 ^ 63 - 1.

(** Two's complement reduction of an [int64] result. *)
Definition wrap64 (z : Z) : Z := (z + 2 ^ 63) mod 2 ^ 64 - 2 ^ 63.

Definition int64_range (z : Z) : Prop := min_int64 <= z <= max_int64.
Definition uint64_range (z : Z) : Prop := 0 <= z < 2 ^ 64.

(** [len(s)] of a string and of a byte sequence, as an [int]. *)
Definition len (s : string) : Z := Z.of_nat (String.length s).
Definition blen (b : list byte) : Z := Z.of_nat (List.length b).

(** [[]byte(s)] and [string(b)] *)
Definition bytes_of (s : string) : list byte := list_byte_of_string s.
Definition string_of (b : list byte) : string := string_of_list_byte b.

Fixpoint bytes_eqb (a b : list byte) : bool :=
  match a, b with
  | [], [] => true
  | x :: a', y :: b' => Byte.eqb x y && bytes_eqb a' b'
  | _, _ => false
  end.

(** [bytes.Equal]: equality of the contents, a nil slice counting as empty. *)
Definition bytes_Equal (a b : slice) : bool :=
  bytes_eqb (contents a) (contents b).

(** The [n] low bytes of an integer, most significant first. *)
Fixpoint be_bytes (n : nat) (v : Z) : list byte :=
  match n with
  | O => []
  | S n' => to_byte (Z.shiftr v (8 * Z.of_nat n')) :: be_bytes n' v
  end.

(** The unsigned integer a byte sequence denotes, most significant first. *)
Definition be_value (b : list byte) : Z :=
  fold_left (fun acc x => acc * 256 + Z_of_byte x) b 0.

(** [b[i:j]] for indices in range. *)
Definition sub (b : list byte) (i j : Z) : list byte :=
  firstn (Z.to_nat (j - i)) (skipn (Z.to_nat i) b).

(** [make([]byte, n)] *)
Definition make (n : Z) : list byte := repeat x00 (Z.to_nat n).

(** [b[i]]: [None] stands for the run-time panic of an index out of range. *)
Definition index (b : list byte) (i : Z) : option byte :=
  if i <? 0 then None else nth_error b (Z.to_nat i).

Fixpoint store_nat (b : list byte) (i : nat) (v : byte) : option (list byte) :=
  match b, i with
  | [], _ => None
  | _ :: b', O => Some (v :: b')
  | x :: b', S i' =>
      match store_nat b' i' v with
      | Some r => Some (x :: r)
      | None => None
      end
  end.

(** [b[i] = v] *)
Definition store (b : list byte) (i : Z) (v : byte) : option (list byte) :=
  if i <? 0 then None else store_nat b (Z.to_nat i) v.

End Go.

Import Go.

(** ** strconv *)

Module strconv.

(** The decimal digits of a positive number. *)
Definition dec (p : positive) : list byte :=
  bytes_of (NilEmpty.string_of_uint (Pos.to_uint p)).

(** [strconv.FormatInt(i, 10)]: decimal digits, a leading [-] when negative. *)
Definition FormatInt (i : Z) : string :=
  NilZero.string_of_int (Z.to_int i).

(** [strconv.FormatUint(u, 10)] *)
Definition FormatUint (u : Z) : string :=
  NilZero.string_of_uint (N.to_uint (Z.to_N u)).

Definition isDigit (b : byte) : bool :=
  (0x30 <=? Z_of_byte b) && (Z_of_byte b <=? 0x39).

(** The value of a non-empty sequence of decimal digits. *)
Definition digitsValue (ds : list byte) : option Z :=
  match ds with
  | [] => None
  | _ :: _ =>
      if forallb isDigit ds then
        option_map (fun d => Z.of_N (N.of_uint d))
                   (NilEmpty.uint_of_string (string_of ds))
      else None
  end.

(** [strconv.ParseUint(s, 10, 64)]; [None] is an error (syntax or range). *)
Definition ParseUint (s : list byte) : option Z :=
  match digitsValue s with
  | Some n => if n <? 2 ^ 64 then Some n else None
  | None => None
  end.

(** [strconv.ParseInt(s, 10, 64)] *)
Definition ParseInt (s : list byte) : option Z :=
  match s with
  | c :: ds =>
      if Byte.eqb c "-"%byte then
        match digitsValue ds with
        | Some n => if n <=? 2 ^ 63 then Some (- n) else None
        | None => None
        end
      else if Byte.eqb c "+"%byte then
        match digitsValue ds with
        | Some n => if n <? 2 ^ 63 then Some n else None
        | None => None
        end
      else
        match digitsValue s with
        | Some n => if n <? 2 ^ 63 then Some n else None
        | None => None
        end
  | [] => None
  end.

End strconv.

(** ** encoding/base64 *)

Module base64.

(** An encoding: the characters of the values 62 and 63 and the padding
    character ([NoPadding] is [None]). *)
Record Encoding : Type := mkEncoding {
  c62 : byte;
  c63 : byte;
  padChar : option byte
}.

Definition StdEncoding : Encoding := mkEncoding "+"%byte "/"%byte (Some "="%byte).

(** The character of a 6-bit value. *)
Definition encodeChar (enc : Encoding) (v : Z) : byte :=
  if v <? 26 then to_byte (65 + v)
  else if v <? 52 then to_byte (97 + (v - 26))
  else if v <? 62 then to_byte (48 + (v - 52))
  else if v =? 62 then c62 enc
  else c63 enc.

Definition padding (enc : Encoding) (n : nat) : list byte :=
  match padChar enc with
  | Some p => repeat p n
  | None => []
  end.

Fixpoint encode (enc : Encoding) (src : list byte) : list byte :=
  match src with
  | [] => []
  | [a] =>
      let n := Z_of_byte a * 65536 in
      encodeChar enc (n / 262144) :: encodeChar enc (n / 4096 mod 64)
        :: padding enc 2
  | [a; b] =>
      let n := Z_of_byte a * 65536 + Z_of_byte b * 256 in
      encodeChar enc (n / 262144) :: encodeChar enc (n / 4096 mod 64)
        :: encodeChar enc (n / 64 mod 64) :: padding enc 1
  | a :: b :: c :: rest =>
      let n := Z_of_byte a * 65536 + Z_of_byte b * 256 + Z_of_byte c in
      encodeChar enc (n / 262144) :: encodeChar enc (n / 4096 mod 64)
        :: encodeChar enc (n / 64 mod 64) :: encodeChar enc (n mod 64)
        :: encode enc rest
  end.

(** [enc.EncodeToString(src)] *)
Definition EncodeToString (enc : Encoding) (src : list byte) : string :=
  string_of (encode enc src).

(** The 6-bit value of a character of the alphabet. *)
Definition decodeChar (enc : Encoding) (c : byte) : option Z :=
  let z := Z_of_byte c in
  if Byte.eqb c (c62 enc) then Some 62
  else if Byte.eqb c (c63 enc) then Some 63
  else if (65 <=? z) && (z <=? 90) then Some (z - 65)
  else if (97 <=? z) && (z <=? 122) then Some (z - 97 + 26)
  else if (48 <=? z) && (z <=? 57) then Some (z - 48 + 52)
  else None.

Definition isPad (enc : Encoding) (c : byte) : bool :=
  match padChar enc with
  | Some p => Byte.eqb c p
  | None => false
  end.

Definition noPadding (enc : Encoding) : bool :=
  match padChar enc with
  | Some _ => false
  | None => true
  end.

Definition isNil {A : Type} (l : list A) : bool :=
  match l with
  | [] => true
  | _ :: _ => false
  end.

(** The groups of four characters; [None] is a [CorruptInputError]. *)
Fixpoint decode (enc : Encoding) (s : list byte) : option (list byte) :=
  match s with
  | [] => Some []
  | c1 :: c2 :: c3 :: c4 :: rest =>
      match decodeChar enc c1, decodeChar enc c2,
            decodeChar enc c3, decodeChar enc c4 with
      | Some v1, Some v2, Some v3, Some v4 =>
          let n := v1 * 262144 + v2 * 4096 + v3 * 64 + v4 in
          match decode enc rest with
          | Some r => Some (to_byte (n / 65536) :: to_byte (n / 256) :: to_byte n :: r)
          | None => None
          end
      | Some v1, Some v2, Some v3, None =>
          let n := v1 * 262144 + v2 * 4096 + v3 * 64 in
          if isPad enc c4 && isNil rest then
            Some [to_byte (n / 65536); to_byte (n / 256)]
          else None
      | Some v1, Some v2, None, None =>
          let n := v1 * 262144 + v2 * 4096 in
          if isPad enc c3 && isPad enc c4 && isNil rest then
            Some [to_byte (n / 65536)]
          else None
      | _, _, _, _ => None
      end
  | [c1; c2; c3] =>
      match decodeChar enc c1, decodeChar enc c2, decodeChar enc c3 with
      | Some v1, Some v2, Some v3 =>
          let n := v1 * 262144 + v2 * 4096 + v3 * 64 in
          if noPadding enc then Some [to_byte (n / 65536); to_byte (n / 256)]
          else None
      | _, _, _ => None
      end
  | [c1; c2] =>
      match decodeChar enc c1, decodeChar enc c2 with
      | Some v1, Some v2 =>
          let n := v1 * 262144 + v2 * 4096 in
          if noPadding enc then Some [to_byte (n / 65536)] else None
      | _, _ => None
      end
  | [_] => None
  end.

Definition isNewline (c : byte) : bool := Byte.eqb c x0d || Byte.eqb c x0a.

(** A padded encoding whose 64 characters decode to their values, none of
    them nor the padding being a line break. *)
Definition wellFormed (enc : Encoding) : bool :=
  forallb (fun v =>
             match decodeChar enc (encodeChar enc v) with
             | Some v' => v' =? v
             | None => false
             end && negb (isNewline (encodeChar enc v)))
          (map Z.of_nat (seq 0 64))
  && match padChar enc with
     | Some p =>
         negb (isNewline p)
         && match decodeChar enc p with Some _ => false | None => true end
     | None => false
     end.

(** [enc.DecodeString(s)]: carriage returns and line feeds are skipped. *)
Definition DecodeString (enc : Encoding) (s : list byte) : option (list byte) :=
  decode enc (filter (fun c => negb (isNewline c)) s).

End base64.

(** ** crypto/sha256 *)

Module sha256.

Definition add32 (x y : Z) : Z := (x + y) mod 4294967296.

Definition rotr (n x : Z) : Z :=
  Z.lor (Z.shiftr x n) (Z.shiftl x (32 - n) mod 4294967296).

Definition Ch (x y z : Z) : Z :=
  Z.lxor (Z.land x y) (Z.land (Z.lxor x 0xffffffff) z).

Definition Maj (x y z : Z) : Z :=
  Z.lxor (Z.lxor (Z.land x y) (Z.land x z)) (Z.land y z).

Definition bigSigma0 (x : Z) : Z :=
  Z.lxor (Z.lxor (rotr 2 x) (rotr 13 x)) (rotr 22 x).

Definition bigSigma1 (x : Z) : Z :=
  Z.lxor (Z.lxor (rotr 6 x) (rotr 11 x)) (rotr 25 x).

Definition smallSigma0 (x : Z) : Z :=
  Z.lxor (Z.lxor (rotr 7 x) (rotr 18 x)) (Z.shiftr x 3).

Definition smallSigma1 (x : Z) : Z :=
  Z.lxor (Z.lxor (rotr 17 x) (rotr 19 x)) (Z.shiftr x 10).

(** [n] has no divisor among 2, ..., [n - 1]. *)
Definition isPrime (n : Z) : bool :=
  forallb (fun d => negb (n mod Z.of_nat d =? 0)) (seq 2 (Z.to_nat n - 2)).

(** The first [n] primes. *)
Definition primes (n : nat) : list Z :=
  firstn n (filter isPrime (map Z.of_nat (seq 2 320))).

(** The integer part of the cube root of [n], for [n < 2^105]: the bits of
    the root are fixed from the highest down. *)
Definition cubeRoot (n : Z) : Z :=
  fold_left (fun r b => let r' := r + 2 ^ Z.of_nat b in
                        if r' * r' * r' <=? n then r' else r)
            (rev (seq 0 35)) 0.

(** The round constants: the first 32 bits of the fractional parts of the
    cube roots of the first 64 primes. *)
Definition K : list Z :=
  Eval vm_compute in
    map (fun p => cubeRoot (p * 2 ^ 96) mod 2 ^ 32) (primes 64).

(** The initial hash value: the first 32 bits of the fractional parts of the
    square roots of the first 8 primes. *)
Definition init : list Z :=
  Eval vm_compute in
    map (fun p => Z.sqrt (p * 2 ^ 64) mod 2 ^ 32) (primes 8).

(** The message followed by the bit 1, zeros up to 56 modulo 64 and the
    length in bits on eight bytes. *)
Definition pad (msg : list byte) : list byte :=
  let l := blen msg in
  msg ++ x80 :: repeat x00 (Z.to_nat ((55 - l) mod 64)) ++ be_bytes 8 (8 * l).

(** The big-endian 32-bit words of a byte sequence. *)
Fixpoint words (b : list byte) : list Z :=
  match b with
  | b0 :: b1 :: b2 :: b3 :: rest =>
      (Z_of_byte b0 * 16777216 + Z_of_byte b1 * 65536
       + Z_of_byte b2 * 256 + Z_of_byte b3) :: words rest
  | _ => []
  end.

(** The message schedule, most recent word first: [n] more words. *)
Fixpoint schedule (n : nat) (rw : list Z) : list Z :=
  match n with
  | O => rw
  | S n' =>
      let w := add32 (add32 (smallSigma1 (nth 1 rw 0)) (nth 6 rw 0))
                     (add32 (smallSigma0 (nth 14 rw 0)) (nth 15 rw 0)) in
      schedule n' (w :: rw)
  end.

Record regs : Type := mkRegs {
  ra : Z; rb : Z; rc : Z; rd : Z; re : Z; rf : Z; rg : Z; rh : Z
}.

Definition round (s : regs) (kw : Z * Z) : regs :=
  let t1 := add32 (add32 (add32 (rh s) (bigSigma1 (re s)))
                         (add32 (Ch (re s) (rf s) (rg s)) (fst kw))) (snd kw) in
  let t2 := add32 (bigSigma0 (ra s)) (Maj (ra s) (rb s) (rc s)) in
  mkRegs (add32 t1 t2) (ra s) (rb s) (rc s) (add32 (rd s) t1) (re s) (rf s) (rg s).

Definition regs_of (h : list Z) : regs :=
  mkRegs (nth 0 h 0) (nth 1 h 0) (nth 2 h 0) (nth 3 h 0)
         (nth 4 h 0) (nth 5 h 0) (nth 6 h 0) (nth 7 h 0).

Definition list_of (s : regs) : list Z :=
  [ra s; rb s; rc s; rd s; re s; rf s; rg s; rh s].

(** One 64-byte block. *)
Definition block (h : list Z) (blk : list byte) : list Z :=
  let w := rev (schedule 48 (rev (words blk))) in
  let s := fold_left round (combine K w) (regs_of h) in
  map (fun p => add32 (fst p) (snd p)) (combine h (list_of s)).

Fixpoint blocks (n : nat) (h : list Z) (b : list byte) : list Z :=
  match n with
  | O => h
  | S n' => blocks n' (block h (firstn 64 b)) (skipn 64 b)
  end.

(** [sha256.Sum256] *)
Definition Sum256 (msg : list byte) : list byte :=
  let p := pad msg in
  flat_map (be_bytes 4) (blocks (List.length p / 64) init p).

End sha256.

(** ** crypto/hmac *)

Module hmac.

Definition BlockSize : Z := 64.

Definition xor_byte (c : Z) (b : byte) : byte := to_byte (Z.lxor (Z_of_byte b) c).

(** HMAC-SHA256 of a message under a key (RFC 2104). *)
Definition HMAC_SHA256 (key msg : list byte) : list byte :=
  let k := if BlockSize <? blen key then sha256.Sum256 key else key in
  let k := k ++ repeat x00 (Z.to_nat BlockSize - List.length k) in
  sha256.Sum256 (map (xor_byte 0x5c) k
                 ++ sha256.Sum256 (map (xor_byte 0x36) k ++ msg)).

(** The value of [hmac.New(sha256.New, key)]: the key and what was written. *)
Record Hash : Type := mkHash {
  hkey : list byte;
  written : list byte
}.

Definition New (key : list byte) : Hash := mkHash key [].

(** [h.Write(p)] *)
Definition Write (h : Hash) (p : list byte) : Hash :=
  mkHash (hkey h) (written h ++ p).

(** [h.Sum(b)]: the MAC of what was written, appended to [b]. *)
Definition Sum (h : Hash) (b : slice) : list byte :=
  contents b ++ HMAC_SHA256 (hkey h) (written h).

End hmac.

(** ** unicode/utf8 *)

Module utf8.

Definition RuneError : Z := 0xFFFD.

(** [utf8.DecodeRune(p)]: the first rune of [p] and its width in bytes;
    [(RuneError, 1)] when the encoding is invalid, [(RuneError, 0)] when [p]
    is empty. *)
Definition DecodeRune (p : list byte) : Z * Z :=
  match p with
  | [] => (RuneError, 0)
  | b0 :: t =>
      let s0 := Z_of_byte b0 in
      if s0 <? 0x80 then (s0, 1)
      else if (s0 <? 0xC2) || (0xF4 <? s0) then (RuneError, 1)
      else
        let sz := if s0 <? 0xE0 then 2 else if s0 <? 0xF0 then 3 else 4 in
        let lo := if s0 =? 0xE0 then 0xA0 else if s0 =? 0xF0 then 0x90 else 0x80 in
        let hi := if s0 =? 0xED then 0x9F else if s0 =? 0xF4 then 0x8F else 0xBF in
        match t with
        | [] => (RuneError, 1)
        | b1 :: t1 =>
            let s1 := Z_of_byte b1 in
            if (s1 <? lo) || (hi <? s1) then (RuneError, 1)
            else if sz =? 2 then
              (Z.lor (Z.shiftl (Z.land s0 0x1F) 6) (Z.land s1 0x3F), 2)
            else
              match t1 with
              | [] => (RuneError, 1)
              | b2 :: t2 =>
                  let s2 := Z_of_byte b2 in
                  if (s2 <? 0x80) || (0xBF <? s2) then (RuneError, 1)
                  else if sz =? 3 then
                    (Z.lor (Z.lor (Z.shiftl (Z.land s0 0x0F) 12)
                                  (Z.shiftl (Z.land s1 0x3F) 6))
                           (Z.land s2 0x3F), 3)
                  else
                    match t2 with
                    | [] => (RuneError, 1)
                    | b3 :: _ =>
                        let s3 := Z_of_byte b3 in
                        if (s3 <? 0x80) || (0xBF <? s3) then (RuneError, 1)
                        else
                          (Z.lor (Z.lor (Z.lor (Z.shiftl (Z.land s0 0x07) 18)
                                               (Z.shiftl (Z.land s1 0x3F) 12))
                                        (Z.shiftl (Z.land s2 0x3F) 6))
                                 (Z.land s3 0x3F), 4)
                    end
              end
        end
  end.

(** [utf8.EncodeRune]: the UTF-8 bytes of a rune, those of [RuneError] for a
    surrogate or a value out of range. *)
Definition EncodeRune (r : Z) : list byte :=
  if (r <? 0) || (0x10FFFF <? r) || ((0xD800 <=? r) && (r <=? 0xDFFF)) then
    [xef; xbf; xbd]
  else if r <? 0x80 then [to_byte r]
  else if r <? 0x800 then
    [to_byte (Z.lor 0xC0 (Z.shiftr r 6)); to_byte (Z.lor 0x80 (Z.land r 0x3F))]
  else if r <? 0x10000 then
    [to_byte (Z.lor 0xE0 (Z.shiftr r 12));
     to_byte (Z.lor 0x80 (Z.land (Z.shiftr r 6) 0x3F));
     to_byte (Z.lor 0x80 (Z.land r 0x3F))]
  else
    [to_byte (Z.lor 0xF0 (Z.shiftr r 18));
     to_byte (Z.lor 0x80 (Z.land (Z.shiftr r 12) 0x3F));
     to_byte (Z.lor 0x80 (Z.land (Z.shiftr r 6) 0x3F));
     to_byte (Z.lor 0x80 (Z.land r 0x3F))].

(** The well-formed byte sequences of UTF-8 with the code point each one
    stands for (the Unicode standard's table of well-formed sequences). *)
Inductive encodes : list byte -> Z -> Prop :=
| rune1 (b0 : byte) :
    Z_of_byte b0 < 0x80 -> encodes [b0] (Z_of_byte b0)
| rune2 (b0 b1 : byte) :
    0xC2 <= Z_of_byte b0 <= 0xDF -> 0x80 <= Z_of_byte b1 <= 0xBF ->
    encodes [b0; b1] ((Z_of_byte b0 - 0xC0) * 64 + (Z_of_byte b1 - 0x80))
| rune3 (b0 b1 b2 : byte) :
    0xE0 <= Z_of_byte b0 <= 0xEF ->
    0x80 <= Z_of_byte b1 <= 0xBF ->
    (Z_of_byte b0 = 0xE0 -> 0xA0 <= Z_of_byte b1) ->
    (Z_of_byte b0 = 0xED -> Z_of_byte b1 <= 0x9F) ->
    0x80 <= Z_of_byte b2 <= 0xBF ->
    encodes [b0; b1; b2]
            ((Z_of_byte b0 - 0xE0) * 4096 + (Z_of_byte b1 - 0x80) * 64
             + (Z_of_byte b2 - 0x80))
| rune4 (b0 b1 b2 b3 : byte) :
    0xF0 <= Z_of_byte b0 <= 0xF4 ->
    0x80 <= Z_of_byte b1 <= 0xBF ->
    (Z_of_byte b0 = 0xF0 -> 0x90 <= Z_of_byte b1) ->
    (Z_of_byte b0 = 0xF4 -> Z_of_byte b1 <= 0x8F) ->
    0x80 <= Z_of_byte b2 <= 0xBF ->
    0x80 <= Z_of_byte b3 <= 0xBF ->
    encodes [b0; b1; b2; b3]
            ((Z_of_byte b0 - 0xF0) * 262144 + (Z_of_byte b1 - 0x80) * 4096
             + (Z_of_byte b2 - 0x80) * 64 + (Z_of_byte b3 - 0x80)).

(** The runes of [p] are all validly encoded; [fuel] bounds their number. *)
Fixpoint validFrom (fuel : nat) (p : list byte) : bool :=
  match p with
  | [] => true
  | _ :: _ =>
      match fuel with
      | O => false
      | S fuel' =>
          if (fst (DecodeRune p) =? RuneError) && (snd (DecodeRune p) =? 1)
          then false
          else validFrom fuel' (skipn (Z.to_nat (snd (DecodeRune p))) p)
      end
  end.

(** [utf8.Valid(p)] *)
Definition Valid (p : list byte) : bool := validFrom (List.length p) p.

(** [utf8.ValidString(s)] *)
Definition ValidString (s : string) : bool := Valid (bytes_of s).

End utf8.

(** ** encoding/json

    The text layer of [encoding/json]: how strings are quoted, and the
    parser of JSON values.  What the package does with the fields of
    [userSig] follows the struct tags and is in package [sign] below. *)

Module json.

Definition quote : byte := x22.
Definition backslash : byte := x5c.

Definition hex (v : Z) : byte := nth (Z.to_nat v) (bytes_of "0123456789abcdef") x00.

(** [htmlSafeSet]: the ASCII characters written as they are. *)
Definition htmlSafe (c : Z) : bool :=
  (0x20 <=? c) && (c <? 0x80)
  && negb (c =? 0x22) && negb (c =? 0x5c)
  && negb (c =? 0x3c) && negb (c =? 0x3e) && negb (c =? 0x26).

(** The escape of an ASCII character outside [htmlSafeSet]. *)
Definition escapeASCII (b : byte) : list byte :=
  let c := Z_of_byte b in
  if (c =? 0x5c) || (c =? 0x22) then [backslash; b]
  else if c =? 0x08 then backslash :: bytes_of "b"
  else if c =? 0x0c then backslash :: bytes_of "f"
  else if c =? 0x0a then backslash :: bytes_of "n"
  else if c =? 0x0d then backslash :: bytes_of "r"
  else if c =? 0x09 then backslash :: bytes_of "t"
  else backslash :: bytes_of "u00" ++ [hex (Z.shiftr c 4); hex (Z.land c 0xF)].

(** The body of [appendString] with [escapeHTML] set (the encoder's default).
    [skip] counts the continuation bytes of the rune being crossed, which are
    copied when [keep] and dropped otherwise. *)
Fixpoint appendBody (skip : nat) (keep : bool) (src : list byte) : list byte :=
  match src with
  | [] => []
  | b :: rest =>
      match skip with
      | S skip' => (if keep then [b] else []) ++ appendBody skip' keep rest
      | O =>
          let c := Z_of_byte b in
          if c <? 0x80 then
            (if htmlSafe c then [b] else escapeASCII b) ++ appendBody 0 true rest
          else
            let r := fst (utf8.DecodeRune src) in
            let size := snd (utf8.DecodeRune src) in
            if (r =? utf8.RuneError) && (size =? 1) then
              backslash :: bytes_of "ufffd" ++ appendBody 0 true rest
            else if (r =? 0x2028) || (r =? 0x2029) then
              backslash :: bytes_of "u202" ++ hex (Z.land r 0xF)
                :: appendBody (Z.to_nat (size - 1)) false rest
            else b :: appendBody (Z.to_nat (size - 1)) true rest
      end
  end.

(** The strings the encoder writes as they are: printable ASCII without
    the double quote, the backslash, [<], [>] and [&]. *)
Definition plain (s : list byte) : bool :=
  forallb (fun b => htmlSafe (Z_of_byte b)) s.

(** A string as a JSON string literal. *)
Definition appendString (s : list byte) : list byte :=
  quote :: appendBody 0 true s ++ [quote].

(** A JSON value; a number keeps its literal. *)
#[local] Unset Elimination Schemes.
Inductive value : Type :=
| JNull
| JBool (b : bool)
| JNumber (lit : list byte)
| JString (s : list byte)
| JArray (elems : list value)
| JObject (members : list (list byte * value)).
#[local] Set Elimination Schemes.

Definition isSpace (b : byte) : bool :=
  Byte.eqb b x20 || Byte.eqb b x09 || Byte.eqb b x0d || Byte.eqb b x0a.

Fixpoint skipSpace (s : list byte) : list byte :=
  match s with
  | b :: rest => if isSpace b then skipSpace rest else s
  | [] => []
  end.

Definition isDigit : byte -> bool := strconv.isDigit.

Definition hexValue (b : byte) : option Z :=
  let c := Z_of_byte b in
  if (0x30 <=? c) && (c <=? 0x39) then Some (c - 0x30)
  else if (0x61 <=? c) && (c <=? 0x66) then Some (c - 0x61 + 10)
  else if (0x41 <=? c) && (c <=? 0x46) then Some (c - 0x41 + 10)
  else None.

(** The scanner inside a string literal, after the opening quote: the raw
    text up to the closing quote and what follows it.  [st] is 0 in plain
    text, 1 after a backslash and 2 to 5 while the hexadecimal digits of a
    [\u] escape are expected. *)
Fixpoint scanString (st : nat) (s : list byte) : option (list byte * list byte) :=
  match s with
  | [] => None
  | b :: rest =>
      let cons_raw r :=
        match r with
        | Some (raw, after) => Some (b :: raw, after)
        | None => None
        end in
      match st with
      | O =>
          if Byte.eqb b quote then Some ([], rest)
          else if Byte.eqb b backslash then cons_raw (scanString 1 rest)
          else if Z_of_byte b <? 0x20 then None
          else cons_raw (scanString 0 rest)
      | S O =>
          if existsb (Byte.eqb b) (quote :: backslash :: bytes_of "/bfnrt") then
            cons_raw (scanString 0 rest)
          else if Byte.eqb b "u"%byte then cons_raw (scanString 5 rest)
          else None
      | S (S k) =>
          match hexValue b with
          | Some _ => cons_raw (scanString (match k with O => O | S _ => S k end) rest)
          | None => None
          end
      end
  end.

(** The four hexadecimal digits of a [\u] escape ([getu4] after the [\u]). *)
Definition getu4 (s : list byte) : option Z :=
  match s with
  | h1 :: h2 :: h3 :: h4 :: _ =>
      match hexValue h1, hexValue h2, hexValue h3, hexValue h4 with
      | Some a, Some b, Some c, Some d => Some (((a * 16 + b) * 16 + c) * 16 + d)
      | _, _, _, _ => None
      end
  | _ => None
  end.

Definition isSurrogate (r : Z) : bool := (0xD800 <=? r) && (r <? 0xE000).

(** [utf16.DecodeRune] *)
Definition decodeSurrogates (r1 r2 : Z) : Z :=
  if (0xD800 <=? r1) && (r1 <? 0xDC00) && (0xDC00 <=? r2) && (r2 <? 0xE000) then
    Z.shiftl (r1 - 0xD800) 10 + (r2 - 0xDC00) + 0x10000
  else utf8.RuneError.

(** [unquote] on the raw text of a scanned literal: escapes are replaced,
    invalid UTF-8 becomes U+FFFD.  [None] on an escape the scanner would
    have refused. *)
Fixpoint unquoteBody (fuel : nat) (s : list byte) : option (list byte) :=
  match fuel with
  | O => match s with [] => Some [] | _ => None end
  | S fuel' =>
      match s with
      | [] => Some []
      | b :: rest =>
          let c := Z_of_byte b in
          if Byte.eqb b backslash then
            match rest with
            | [] => None
            | e :: rest' =>
                let plain (x : byte) :=
                  option_map (cons x) (unquoteBody fuel' rest') in
                if Byte.eqb e quote || Byte.eqb e backslash
                   || Byte.eqb e "/"%byte then plain e
                else if Byte.eqb e "b"%byte then plain x08
                else if Byte.eqb e "f"%byte then plain x0c
                else if Byte.eqb e "n"%byte then plain x0a
                else if Byte.eqb e "r"%byte then plain x0d
                else if Byte.eqb e "t"%byte then plain x09
                else if Byte.eqb e "u"%byte then
                  match getu4 rest' with
                  | None => None
                  | Some rr =>
                      let after := skipn 4 rest' in
                      let low :=
                        match after with
                        | b1 :: b2 :: more =>
                            if Byte.eqb b1 backslash && Byte.eqb b2 "u"%byte
                            then getu4 more else None
                        | _ => None
                        end in
                      match isSurrogate rr, low with
                      | true, Some rr1 =>
                          if decodeSurrogates rr rr1 =? utf8.RuneError then
                            option_map (app (utf8.EncodeRune utf8.RuneError))
                                       (unquoteBody fuel' after)
                          else
                            option_map (app (utf8.EncodeRune (decodeSurrogates rr rr1)))
                                       (unquoteBody fuel' (skipn 6 after))
                      | true, None =>
                          option_map (app (utf8.EncodeRune utf8.RuneError))
                                     (unquoteBody fuel' after)
                      | false, _ =>
                          option_map (app (utf8.EncodeRune rr))
                                     (unquoteBody fuel' after)
                      end
                  end
                else None
            end
          else if Byte.eqb b quote || (c <? 0x20) then None
          else if c <? 0x80 then option_map (cons b) (unquoteBody fuel' rest)
          else
            let r := fst (utf8.DecodeRune s) in
            let size := snd (utf8.DecodeRune s) in
            option_map (app (utf8.EncodeRune r))
                       (unquoteBody fuel' (skipn (Z.to_nat size) s))
      end
  end.

Definition unquote (raw : list byte) : option (list byte) :=
  unquoteBody (List.length raw) raw.

(** A string is read back when the scanner and [unquote] return it from
    the literal the encoder writes for it. *)
Definition readsBack (s : list byte) : bool :=
  match scanString 0 (appendBody 0 true s ++ [quote]) with
  | Some (raw, []) =>
      bytes_eqb raw (appendBody 0 true s)
      && match unquote raw with
         | Some s' => bytes_eqb s' s
         | None => false
         end
  | _ => false
  end.

Fixpoint spanDigits (s : list byte) : list byte * list byte :=
  match s with
  | b :: rest =>
      if isDigit b then (b :: fst (spanDigits rest), snd (spanDigits rest))
      else ([], s)
  | [] => ([], [])
  end.

(** The exponent part of a number, if any. *)
Definition scanExp (lit s : list byte) : option (list byte * list byte) :=
  match s with
  | e :: t =>
      if Byte.eqb e "e"%byte || Byte.eqb e "E"%byte then
        let sign := match t with
                    | c :: _ => if Byte.eqb c "+"%byte || Byte.eqb c "-"%byte
                                then [c] else []
                    | [] => []
                    end in
        let t' := skipn (List.length sign) t in
        match fst (spanDigits t') with
        | [] => None
        | ds => Some (lit ++ e :: sign ++ ds, snd (spanDigits t'))
        end
      else Some (lit, s)
  | [] => Some (lit, s)
  end.

(** The fraction part of a number, if any, then the exponent. *)
Definition scanFrac (lit s : list byte) : option (list byte * list byte) :=
  match s with
  | d :: t =>
      if Byte.eqb d "."%byte then
        match fst (spanDigits t) with
        | [] => None
        | ds => scanExp (lit ++ d :: ds) (snd (spanDigits t))
        end
      else scanExp lit s
  | [] => Some (lit, s)
  end.

(** A number literal and what follows it. *)
Definition scanNumber (s : list byte) : option (list byte * list byte) :=
  let neg := match s with
             | c :: _ => if Byte.eqb c "-"%byte then [c] else []
             | [] => []
             end in
  match skipn (List.length neg) s with
  | d :: t =>
      if Byte.eqb d "0"%byte then scanFrac (neg ++ [d]) t
      else if isDigit d then
        scanFrac (neg ++ d :: fst (spanDigits t)) (snd (spanDigits t))
      else None
  | [] => None
  end.

(** [s] starts with the bytes of [w]: what follows them. *)
Fixpoint expect (w s : list byte) : option (list byte) :=
  match w, s with
  | [], _ => Some s
  | x :: w', y :: s' => if Byte.eqb x y then expect w' s' else None
  | _ :: _, [] => None
  end.

(** One JSON value at the head of [s] (after white space) and what follows.
    [fuel] bounds the number of values and members visited. *)
Fixpoint parseValue (fuel : nat) (s : list byte) : option (value * list byte) :=
  match fuel with
  | O => None
  | S fuel' =>
      match skipSpace s with
      | [] => None
      | c :: t =>
          if Byte.eqb c "{"%byte then
            match skipSpace t with
            | c' :: t' =>
                if Byte.eqb c' "}"%byte then Some (JObject [], t')
                else parseMembers fuel' t []
            | [] => None
            end
          else if Byte.eqb c "["%byte then
            match skipSpace t with
            | c' :: t' =>
                if Byte.eqb c' "]"%byte then Some (JArray [], t')
                else parseElements fuel' t []
            | [] => None
            end
          else if Byte.eqb c quote then
            match scanString 0 t with
            | Some (raw, after) =>
                match unquote raw with
                | Some str => Some (JString str, after)
                | None => None
                end
            | None => None
            end
          else if Byte.eqb c "t"%byte then
            option_map (pair (JBool true)) (expect (bytes_of "rue") t)
          else if Byte.eqb c "f"%byte then
            option_map (pair (JBool false)) (expect (bytes_of "alse") t)
          else if Byte.eqb c "n"%byte then
            option_map (pair JNull) (expect (bytes_of "ull") t)
          else
            match scanNumber (c :: t) with
            | Some (lit, after) => Some (JNumber lit, after)
            | None => None
            end
      end
  end

with parseMembers (fuel : nat) (s : list byte) (acc : list (list byte * value))
    : option (value * list byte) :=
  match fuel with
  | O => None
  | S fuel' =>
      match skipSpace s with
      | [] => None
      | c :: t =>
          if Byte.eqb c quote then
            match scanString 0 t with
            | Some (raw, after) =>
                match unquote raw, skipSpace after with
                | Some key, c1 :: t1 =>
                    if Byte.eqb c1 ":"%byte then
                      match parseValue fuel' t1 with
                      | Some (v, after') =>
                          match skipSpace after' with
                          | c2 :: t2 =>
                              if Byte.eqb c2 ","%byte then
                                parseMembers fuel' t2 ((key, v) :: acc)
                              else if Byte.eqb c2 "}"%byte then
                                Some (JObject (rev ((key, v) :: acc)), t2)
                              else None
                          | [] => None
                          end
                      | None => None
                      end
                    else None
                | _, _ => None
                end
            | None => None
            end
          else None
      end
  end

with parseElements (fuel : nat) (s : list byte) (acc : list value)
    : option (value * list byte) :=
  match fuel with
  | O => None
  | S fuel' =>
      match parseValue fuel' s with
      | Some (v, after) =>
          match skipSpace after with
          | c :: t =>
              if Byte.eqb c ","%byte then parseElements fuel' t (v :: acc)
              else if Byte.eqb c "]"%byte then Some (JArray (rev (v :: acc)), t)
              else None
          | [] => None
          end
      | None => None
      end
  end.

(** What follows a value inside an object: a comma or the closing brace. *)
Definition delimiter (c : byte) : Prop := c = ","%byte \/ c = "}"%byte.

(** A whole document: one value, then nothing but white space. *)
Definition parse (data : list byte) : option value :=
  match parseValue (S (List.length data)) data with
  | Some (v, after) =>
      match skipSpace after with
      | [] => Some v
      | _ :: _ => None
      end
  | None => None
  end.

End json.

(** ** hash/adler32 and compress/zlib

    The writer is the one of level [zlib.NoCompression], the value of
    [DefaultCompressionLevel]: it emits stored blocks.  The reader decodes
    the streams made of stored blocks; a block coded with Huffman codes is
    outside this model and is reported as an error. *)

Module zlib.

Definition NoCompression : Z := 0.

(** [adler32.Checksum] *)
Definition adler32 (data : list byte) : Z :=
  let s := fold_left
             (fun (ab : Z * Z) (x : byte) =>
                let a := (fst ab + Z_of_byte x) mod 65521 in
                (a, (snd ab + a) mod 65521))
             data (1, 0) in
  snd s * 65536 + fst s.

Definition maxStoreBlockSize : nat := Z.to_nat 65535.

Definition le16 (v : Z) : list byte := [to_byte v; to_byte (Z.shiftr v 8)].

Definition be32 (v : Z) : list byte :=
  [to_byte (Z.shiftr v 24); to_byte (Z.shiftr v 16); to_byte (Z.shiftr v 8);
   to_byte v].

(** The header of a stored block of [n] bytes. *)
Definition storedHeader (n : Z) (final : bool) : list byte :=
  (if final then x01 else x00) :: le16 n ++ le16 (Z.lxor n 0xFFFF).

(** The data cut into stored blocks of at most [maxStoreBlockSize] bytes. *)
Fixpoint storedBlocks (fuel : nat) (data : list byte) : list byte :=
  match fuel, data with
  | S fuel', _ :: _ =>
      let chunk := firstn maxStoreBlockSize data in
      storedHeader (blen chunk) false ++ chunk
        ++ storedBlocks fuel' (skipn maxStoreBlockSize data)
  | _, _ => []
  end.

(** A [*zlib.Writer] on a [bytes.Buffer]: what was written to it so far. *)
Record Writer : Type := mkWriter { pending : list byte }.

(** [w.Write(p)] *)
Definition Write (w : Writer) (p : list byte) : Writer :=
  mkWriter (pending w ++ p).

(** [w.Close()]: the bytes that reach the buffer. *)
Definition Close (w : Writer) : list byte :=
  [x78; x01]
    ++ storedBlocks (List.length (pending w)) (pending w)
    ++ storedHeader 0 true
    ++ be32 (adler32 (pending w)).

(** A reader: the compressed bytes after the header. *)
Record Reader : Type := mkReader { body : list byte }.

(** [zlib.NewReader]: the two bytes of the header are checked. *)
Definition NewReader (b : list byte) : option Reader :=
  match b with
  | cmf :: flg :: rest =>
      let c := Z_of_byte cmf in
      let f := Z_of_byte flg in
      if (Z.land c 0x0F =? 8) && (Z.shiftr c 4 <=? 7)
         && ((c * 256 + f) mod 31 =? 0) then
        if Z.land f 0x20 =? 0 then Some (mkReader rest)
        else
          (* a preset dictionary is announced; the reader has none, whose
             checksum is 1 *)
          match rest with
          | d0 :: d1 :: d2 :: d3 :: rest' =>
              if bytes_eqb [d0; d1; d2; d3] [x00; x00; x00; x01]
              then Some (mkReader rest') else None
          | _ => None
          end
      else None
  | _ => None
  end.

(** The blocks of a deflate stream: the output and what follows the final
    block. *)
Fixpoint inflate (fuel : nat) (s : list byte) (out : list byte)
    : option (list byte * list byte) :=
  match fuel with
  | O => None
  | S fuel' =>
      match s with
      | hdr :: l0 :: l1 :: n0 :: n1 :: data =>
          let h := Z_of_byte hdr in
          let n := Z_of_byte l0 + 256 * Z_of_byte l1 in
          let nn := Z_of_byte n0 + 256 * Z_of_byte n1 in
          if negb (Z.land (Z.shiftr h 1) 3 =? 0) then None
          else if negb (nn =? Z.lxor n 0xFFFF) then None
          else if blen data <? n then None
          else
            let out' := out ++ firstn (Z.to_nat n) data in
            if Z.land h 1 =? 1 then Some (out', skipn (Z.to_nat n) data)
            else inflate fuel' (skipn (Z.to_nat n) data) out'
      | _ => None
      end
  end.

(** [ioutil.ReadAll(r)]: the decompressed data, once the Adler-32 checksum
    that follows the last block has been compared. *)
Definition ReadAll (r : Reader) : option (list byte) :=
  match inflate (List.length (body r)) (body r) [] with
  | Some (out, c0 :: c1 :: c2 :: c3 :: _) =>
      if bytes_eqb [c0; c1; c2; c3] (be32 (adler32 out)) then Some out else None
  | _ => None
  end.

End zlib.

(** ** package sign *)

Module sign.

Inductive error : Type :=
| ErrSdkAppIDNotMatch
| ErrIdentifierNotMatch
| ErrExpired
| ErrUserBufTypeNotMatch
| ErrUserBufNotMatch
| ErrSigNotMatch
| ErrCorruptInput      (* encoding/base64 *)
| ErrZlib              (* compress/zlib, compress/flate, io *)
| ErrJSON.             (* encoding/json *)

Record userSig : Type := mkUserSig {
  Version : string;
  Identifier : string;
  SdkAppID : Z;
  Expire : Z;
  Time : Z;
  UserBuf : slice;
  Sig : slice
}.

(** [userSig{}] *)
Definition zero : userSig := mkUserSig "" "" 0 0 0 None None.

Definition sigIdentifier : list byte := bytes_of "TLS.identifier:".
Definition sigSdkAppID : list byte := bytes_of "TLS.sdkappid:".
Definition sigTime : list byte := bytes_of "TLS.time:".
Definition sigExpire : list byte := bytes_of "TLS.expire:".
Definition sigUserBuf : list byte := bytes_of "TLS.userbuf:".
Definition sigEnter : list byte := [x0a].

Definition sign (u : userSig) (key : string) : list byte :=
  let h := hmac.New (bytes_of key) in
  let h := hmac.Write h sigIdentifier in
  let h := hmac.Write h (bytes_of (Identifier u)) in
  let h := hmac.Write h sigEnter in
  let h := hmac.Write h sigSdkAppID in
  let h := hmac.Write h (bytes_of (strconv.FormatUint (SdkAppID u))) in
  let h := hmac.Write h sigEnter in
  let h := hmac.Write h sigTime in
  let h := hmac.Write h (bytes_of (strconv.FormatInt (Time u))) in
  let h := hmac.Write h sigEnter in
  let h := hmac.Write h sigExpire in
  let h := hmac.Write h (bytes_of (strconv.FormatInt (Expire u))) in
  let h := hmac.Write h sigEnter in
  let h :=
    if non_nil (UserBuf u) then
      let h := hmac.Write h sigUserBuf in
      let h := hmac.Write h
                 (bytes_of (base64.EncodeToString base64.StdEncoding
                                                  (contents (UserBuf u)))) in
      hmac.Write h sigEnter
    else h in
  hmac.Sum h None.

(** The bytes [sign] writes to the hash, one call of [h.Write] after the
    other. *)
Definition message (u : userSig) : list byte :=
  sigIdentifier ++ bytes_of (Identifier u) ++ sigEnter
  ++ sigSdkAppID ++ bytes_of (strconv.FormatUint (SdkAppID u)) ++ sigEnter
  ++ sigTime ++ bytes_of (strconv.FormatInt (Time u)) ++ sigEnter
  ++ sigExpire ++ bytes_of (strconv.FormatInt (Expire u)) ++ sigEnter
  ++ (if non_nil (UserBuf u)
      then sigUserBuf
             ++ bytes_of (base64.EncodeToString base64.StdEncoding
                                                (contents (UserBuf u)))
             ++ sigEnter
      else []).

Definition verify (u : userSig) (sdkappid : Z) (key : string) (userid : string)
    (now : Z) (userbuf : slice) : option error :=
  if negb (sdkappid =? SdkAppID u) then Some ErrSdkAppIDNotMatch
  else if negb (String.eqb userid (Identifier u)) then Some ErrIdentifierNotMatch
  else if now >? wrap64 (Time u + Expire u) then Some ErrExpired
  else
    let sigCheck :=
      if negb (bytes_Equal (Some (sign u key)) (Sig u)) then Some ErrSigNotMatch
      else None in
    if non_nil userbuf then
      if negb (non_nil (UserBuf u)) then Some ErrUserBufTypeNotMatch
      else if negb (bytes_Equal userbuf (UserBuf u)) then Some ErrUserBufNotMatch
      else sigCheck
    else if non_nil (UserBuf u) then Some ErrUserBufTypeNotMatch
    else sigCheck.


(** The loop [for ; offset < limit; offset++ { userBuf[offset] = src[offset-delta] }].
    [fuel] bounds the number of iterations. *)
Fixpoint copy_loop (fuel : nat) (limit : Z) (src : list byte) (delta : Z)
    (userBuf : list byte) (offset : Z) : option (list byte * Z) :=
  if offset <? limit then
    match fuel with
    | O => None
    | S fuel' =>
        match index src (offset - delta) with
        | None => None
        | Some c =>
            match store userBuf offset c with
            | None => None
            | Some userBuf' =>
                copy_loop fuel' limit src delta userBuf' (offset + 1)
            end
        end
    end
  else Some (userBuf, offset).

Notation "'do' x <- e ; k" :=
  (match e with Some x => k | None => None end)
  (at level 10, x name, e at level 100, k at level 200, only parsing).

(** [genUserBuf]; [currTime] is the value read from [time.Now().Unix()].
    [None] stands for a panic (an index out of range). *)
Definition genUserBuf (currTime : Z) (account : string) (dwSdkappid : Z)
    (dwAuthID : Z) (dwExpTime : Z) (dwPrivilegeMap : Z) (dwAccountType : Z)
    (roomStr : string) : option (list byte) :=
  let appid := to_uint32 dwSdkappid in
  let offset := 0 in
  let length := 1 + 2 + len account + 20 + len roomStr in
  let length := if len roomStr >? 0 then length + 2 else length in
  let userBuf := make length in
  (* ver *)
  do userBuf <- (if len roomStr >? 0 then store userBuf offset x01
                 else store userBuf offset x00);
  let offset := offset + 1 in
  do userBuf <- store userBuf offset
                  (to_byte (Z.shiftr (Z.land (len account) 0xFF00) 8));
  let offset := offset + 1 in
  do userBuf <- store userBuf offset (to_byte (Z.land (len account) 0x00FF));
  let offset := offset + 1 in
  do r <- copy_loop (String.length account) (len account + 3)
            (bytes_of account) 3 userBuf offset;
  let userBuf := fst r in
  let offset := snd r in
  (* dwSdkAppid *)
  do userBuf <- store userBuf offset
                  (to_byte (Z.shiftr (Z.land appid 0xFF000000) 24));
  let offset := offset + 1 in
  do userBuf <- store userBuf offset
                  (to_byte (Z.shiftr (Z.land appid 0x00FF0000) 16));
  let offset := offset + 1 in
  do userBuf <- store userBuf offset
                  (to_byte (Z.shiftr (Z.land appid 0x0000FF00) 8));
  let offset := offset + 1 in
  do userBuf <- store userBuf offset (to_byte (Z.land appid 0x000000FF));
  let offset := offset + 1 in
  (* dwAuthId *)
  do userBuf <- store userBuf offset
                  (to_byte (Z.shiftr (Z.land dwAuthID 0xFF000000) 24));
  let offset := offset + 1 in
  do userBuf <- store userBuf offset
                  (to_byte (Z.shiftr (Z.land dwAuthID 0x00FF0000) 16));
  let offset := offset + 1 in
  do userBuf <- store userBuf offset
                  (to_byte (Z.shiftr (Z.land dwAuthID 0x0000FF00) 8));
  let offset := offset + 1 in
  do userBuf <- store userBuf offset (to_byte (Z.land dwAuthID 0x000000FF));
  let offset := offset + 1 in
  (* dwExpTime now+300; *)
  let expire := wrap64 (currTime + dwExpTime) in
  do userBuf <- store userBuf offset
                  (to_byte (Z.shiftr (Z.land expire 0xFF000000) 24));
  let offset := offset + 1 in
  do userBuf <- store userBuf offset
                  (to_byte (Z.shiftr (Z.land expire 0x00FF0000) 16));
  let offset := offset + 1 in
  do userBuf <- store userBuf offset
                  (to_byte (Z.shiftr (Z.land expire 0x0000FF00) 8));
  let offset := offset + 1 in
  do userBuf <- store userBuf offset (to_byte (Z.land expire 0x000000FF));
  let offset := offset + 1 in
  (* dwPrivilegeMap *)
  do userBuf <- store userBuf offset
                  (to_byte (Z.shiftr (Z.land dwPrivilegeMap 0xFF000000) 24));
  let offset := offset + 1 in
  do userBuf <- store userBuf offset
                  (to_byte (Z.shiftr (Z.land dwPrivilegeMap 0x00FF0000) 16));
  let offset := offset + 1 in
  do userBuf <- store userBuf offset
                  (to_byte (Z.shiftr (Z.land dwPrivilegeMap 0x0000FF00) 8));
  let offset := offset + 1 in
  do userBuf <- store userBuf offset
                  (to_byte (Z.land dwPrivilegeMap 0x000000FF));
  let offset := offset + 1 in
  (* dwAccountType *)
  do userBuf <- store userBuf offset
                  (to_byte (Z.shiftr (Z.land dwAccountType 0xFF000000) 24));
  let offset := offset + 1 in
  do userBuf <- store userBuf offset
                  (to_byte (Z.shiftr (Z.land dwAccountType 0x00FF0000) 16));
  let offset := offset + 1 in
  do userBuf <- store userBuf offset
                  (to_byte (Z.shiftr (Z.land dwAccountType 0x0000FF00) 8));
  let offset := offset + 1 in
  do userBuf <- store userBuf offset
                  (to_byte (Z.land dwAccountType 0x000000FF));
  let offset := offset + 1 in
  if len roomStr >? 0 then
    do userBuf <- store userBuf offset
                    (to_byte (Z.shiftr (Z.land (len roomStr) 0xFF00) 8));
    let offset := offset + 1 in
    do userBuf <- store userBuf offset (to_byte (Z.land (len roomStr) 0x00FF));
    let offset := offset + 1 in
    do r <- copy_loop (String.length roomStr) length (bytes_of roomStr)
              (length - len roomStr) userBuf offset;
    Some (fst r)
  else Some userBuf.

(** *** The envelope *)

(** Modelled from the spec: [base64url], the encoding of the envelope, is
    declared outside [TLSSigAPI.go].  The spec describes it as URL-safe
    base64, the characters [+] and [/] of the standard alphabet replaced and
    the padding fixed: the URL-safe alphabet of RFC 4648 with its padding. *)
Definition base64url : base64.Encoding :=
  base64.mkEncoding "-"%byte "_"%byte (Some "="%byte).

(** Modelled from the spec: [base64urlDecode], declared outside
    [TLSSigAPI.go], is the inverse of [base64url.EncodeToString]. *)
Definition base64urlDecode (s : string) : list byte * option error :=
  match base64.DecodeString base64url (bytes_of s) with
  | Some b => (b, None)
  | None => ([], Some ErrCorruptInput)
  end.

Definition DefaultCompressionLevel : Z := zlib.NoCompression.

(** [newZlibWriter(&b)]: a writer of level [DefaultCompressionLevel] on an
    empty buffer, new or taken from [zlibWriterPool] and reset. *)
Definition newZlibWriter : zlib.Writer := zlib.mkWriter [].

(** [zlib.NewReader(bytes.NewReader(b))] *)
Definition zlib_NewReader (b : list byte) : zlib.Reader * option error :=
  match zlib.NewReader b with
  | Some r => (r, None)
  | None => (zlib.mkReader [], Some ErrZlib)
  end.

(** [ioutil.ReadAll(r)] *)
Definition ioutil_ReadAll (r : zlib.Reader) : list byte * option error :=
  match zlib.ReadAll r with
  | Some data => (data, None)
  | None => ([], Some ErrZlib)
  end.

(** [r.Close()] after the stream was read to its end. *)
Definition reader_Close (r : zlib.Reader) : option error := None.

(** [w.Close()]; the buffer of a [bytes.Buffer] takes every write. *)
Definition writer_Close (w : zlib.Writer) : list byte * option error :=
  (zlib.Close w, None).

(** The fields of [userSig] in the order of the declaration. *)
Inductive field : Type :=
| FVersion | FIdentifier | FSdkAppID | FExpire | FTime | FUserBuf | FSig.

(** The name in the [json:] tag of a field; every tag has [omitempty]. *)
Definition tag (f : field) : string :=
  match f with
  | FVersion => "TLS.ver"
  | FIdentifier => "TLS.identifier"
  | FSdkAppID => "TLS.sdkappid"
  | FExpire => "TLS.expire"
  | FTime => "TLS.time"
  | FUserBuf => "TLS.userbuf"
  | FSig => "TLS.sig"
  end.

Definition fields : list field :=
  [FVersion; FIdentifier; FSdkAppID; FExpire; FTime; FUserBuf; FSig].

(** [isEmptyValue] on a field: the empty string, zero, a slice of length 0. *)
Definition isEmptyValue (u : userSig) (f : field) : bool :=
  match f with
  | FVersion => len (Version u) =? 0
  | FIdentifier => len (Identifier u) =? 0
  | FSdkAppID => SdkAppID u =? 0
  | FExpire => Expire u =? 0
  | FTime => Time u =? 0
  | FUserBuf => blen (contents (UserBuf u)) =? 0
  | FSig => blen (contents (Sig u)) =? 0
  end.

(** A byte slice as a JSON string: its standard base64 text. *)
Definition encodeByteSlice (b : slice) : list byte :=
  json.quote :: base64.encode base64.StdEncoding (contents b) ++ [json.quote].

(** The JSON text of the value of a field. *)
Definition encodeField (u : userSig) (f : field) : list byte :=
  match f with
  | FVersion => json.appendString (bytes_of (Version u))
  | FIdentifier => json.appendString (bytes_of (Identifier u))
  | FSdkAppID => bytes_of (strconv.FormatUint (SdkAppID u))
  | FExpire => bytes_of (strconv.FormatInt (Expire u))
  | FTime => bytes_of (strconv.FormatInt (Time u))
  | FUserBuf => encodeByteSlice (UserBuf u)
  | FSig => encodeByteSlice (Sig u)
  end.

(** The members of the object, separated by commas. *)
Fixpoint encodeMembers (u : userSig) (first : bool) (fs : list field) : list byte :=
  match fs with
  | [] => []
  | f :: fs' =>
      if isEmptyValue u f then encodeMembers u first fs'
      else
        (if first then [] else bytes_of ",")
          ++ json.appendString (bytes_of (tag f)) ++ bytes_of ":"
          ++ encodeField u f ++ encodeMembers u false fs'
  end.

(** A slice as it comes back from the JSON text: one of length 0 is
    omitted by the encoder and the decoder leaves the field nil. *)
Definition omitEmpty (s : slice) : slice :=
  match s with
  | Some (_ :: _) => s
  | _ => None
  end.

(** The document read back from the text of [u]. *)
Definition readBack (u : userSig) : userSig :=
  mkUserSig (Version u) (Identifier u) (SdkAppID u) (Expire u) (Time u)
            (omitEmpty (UserBuf u)) (omitEmpty (Sig u)).

(** The fields of a document hold values of their Go types, and its strings
    are read back from their JSON literals. *)
Definition wellFormedDoc (u : userSig) : Prop :=
  json.readsBack (bytes_of (Version u)) = true
  /\ json.readsBack (bytes_of (Identifier u)) = true
  /\ uint64_range (SdkAppID u)
  /\ int64_range (Expire u)
  /\ int64_range (Time u).

(** The JSON value the text of a field denotes. *)
Definition valueOf (u : userSig) (f : field) : json.value :=
  match f with
  | FVersion => json.JString (bytes_of (Version u))
  | FIdentifier => json.JString (bytes_of (Identifier u))
  | FSdkAppID => json.JNumber (bytes_of (strconv.FormatUint (SdkAppID u)))
  | FExpire => json.JNumber (bytes_of (strconv.FormatInt (Expire u)))
  | FTime => json.JNumber (bytes_of (strconv.FormatInt (Time u)))
  | FUserBuf =>
      json.JString (base64.encode base64.StdEncoding (contents (UserBuf u)))
  | FSig => json.JString (base64.encode base64.StdEncoding (contents (Sig u)))
  end.

(** The members of the object written for [u]: the fields that are not
    empty. *)
Definition members (u : userSig) (fs : list field)
    : list (list byte * json.value) :=
  flat_map (fun f => if isEmptyValue u f then []
                     else [(bytes_of (tag f), valueOf u f)]) fs.

(** The text of one member. *)
Definition memberText (u : userSig) (f : field) : list byte :=
  json.appendString (bytes_of (tag f)) ++ bytes_of ":" ++ encodeField u f.

(** [u0] with the field [f] taken from what is read back of [u]. *)
Definition assign (u : userSig) (f : field) (u0 : userSig) : userSig :=
  match f with
  | FVersion =>
      mkUserSig (Version u) (Identifier u0) (SdkAppID u0) (Expire u0) (Time u0)
                (UserBuf u0) (Sig u0)
  | FIdentifier =>
      mkUserSig (Version u0) (Identifier u) (SdkAppID u0) (Expire u0) (Time u0)
                (UserBuf u0) (Sig u0)
  | FSdkAppID =>
      mkUserSig (Version u0) (Identifier u0) (SdkAppID u) (Expire u0) (Time u0)
                (UserBuf u0) (Sig u0)
  | FExpire =>
      mkUserSig (Version u0) (Identifier u0) (SdkAppID u0) (Expire u) (Time u0)
                (UserBuf u0) (Sig u0)
  | FTime =>
      mkUserSig (Version u0) (Identifier u0) (SdkAppID u0) (Expire u0) (Time u)
                (UserBuf u0) (Sig u0)
  | FUserBuf =>
      mkUserSig (Version u0) (Identifier u0) (SdkAppID u0) (Expire u0) (Time u0)
                (omitEmpty (UserBuf u)) (Sig u0)
  | FSig =>
      mkUserSig (Version u0) (Identifier u0) (SdkAppID u0) (Expire u0) (Time u0)
                (UserBuf u0) (omitEmpty (Sig u))
  end.

(** [json.Marshal(u)] *)
Definition json_Marshal (u : userSig) : list byte :=
  bytes_of "{" ++ encodeMembers u true fields ++ bytes_of "}".

(** [json.NewEncoder(w).Encode(u)]: the JSON text and a line feed are
    written to [w]; no value of [userSig] makes it fail. *)
Definition json_Encode (w : zlib.Writer) (u : userSig) : zlib.Writer * option error :=
  (zlib.Write w (json_Marshal u ++ [x0a]), None).

Definition lower (b : byte) : byte :=
  let c := Z_of_byte b in
  if (0x41 <=? c) && (c <=? 0x5a) then to_byte (c + 0x20) else b.

(** Names are compared up to simple case folding; next to the letters of
    ASCII, U+017F folds to [s] and U+212A to [k]. *)
Fixpoint foldName (s : list byte) : list byte :=
  match s with
  | [] => []
  | b :: rest =>
      match rest with
      | b1 :: rest1 =>
          if Byte.eqb b xc5 && Byte.eqb b1 xbf then "s"%byte :: foldName rest1
          else
            match rest1 with
            | b2 :: rest2 =>
                if Byte.eqb b xe2 && Byte.eqb b1 x84 && Byte.eqb b2 xaa
                then "k"%byte :: foldName rest2
                else lower b :: foldName rest
            | [] => lower b :: foldName rest
            end
      | [] => [lower b]
      end
  end.

(** The field a key of the object names: the exact tag, else a tag equal
    up to case. *)
Definition findField (key : list byte) : option field :=
  match find (fun f => bytes_eqb (bytes_of (tag f)) key) fields with
  | Some f => Some f
  | None =>
      find (fun f => bytes_eqb (foldName (bytes_of (tag f))) (foldName key)) fields
  end.

(** An element of a JSON array stored in a [[]byte]. *)
Definition byteOfValue (v : json.value) : option byte :=
  match v with
  | json.JNull => Some x00
  | json.JNumber lit =>
      match strconv.ParseUint lit with
      | Some n => if n <? 256 then Some (to_byte n) else None
      | None => None
      end
  | _ => None
  end.

Fixpoint bytesOfValues (vs : list json.value) : option (list byte) :=
  match vs with
  | [] => Some []
  | v :: vs' =>
      match byteOfValue v, bytesOfValues vs' with
      | Some b, Some r => Some (b :: r)
      | _, _ => None
      end
  end.

(** A JSON value stored in a [[]byte]: [null] gives nil, a string is
    decoded from standard base64, an array gives its elements. *)
Definition sliceOfValue (v : json.value) : option slice :=
  match v with
  | json.JNull => Some None
  | json.JString s => option_map Some (base64.DecodeString base64.StdEncoding s)
  | json.JArray vs => option_map Some (bytesOfValues vs)
  | _ => None
  end.

(** The value [v] stored in the field [f]; [None] is an error (a value of
    the wrong type, a number out of range, corrupt base64). *)
Definition setField (u : userSig) (f : field) (v : json.value) : option userSig :=
  match f, v with
  | FUserBuf, _ =>
      option_map (fun b => mkUserSig (Version u) (Identifier u) (SdkAppID u)
                                     (Expire u) (Time u) b (Sig u))
                 (sliceOfValue v)
  | FSig, _ =>
      option_map (fun b => mkUserSig (Version u) (Identifier u) (SdkAppID u)
                                     (Expire u) (Time u) (UserBuf u) b)
                 (sliceOfValue v)
  | _, json.JNull => Some u
  | FVersion, json.JString s =>
      Some (mkUserSig (string_of s) (Identifier u) (SdkAppID u) (Expire u)
                      (Time u) (UserBuf u) (Sig u))
  | FIdentifier, json.JString s =>
      Some (mkUserSig (Version u) (string_of s) (SdkAppID u) (Expire u)
                      (Time u) (UserBuf u) (Sig u))
  | FSdkAppID, json.JNumber lit =>
      option_map (fun n => mkUserSig (Version u) (Identifier u) n (Expire u)
                                     (Time u) (UserBuf u) (Sig u))
                 (strconv.ParseUint lit)
  | FExpire, json.JNumber lit =>
      option_map (fun n => mkUserSig (Version u) (Identifier u) (SdkAppID u) n
                                     (Time u) (UserBuf u) (Sig u))
                 (strconv.ParseInt lit)
  | FTime, json.JNumber lit =>
      option_map (fun n => mkUserSig (Version u) (Identifier u) (SdkAppID u)
                                     (Expire u) n (UserBuf u) (Sig u))
                 (strconv.ParseInt lit)
  | _, _ => None
  end.

(** The members of an object stored one after the other; a key that names
    no field is skipped. *)
Fixpoint setMembers (u : userSig) (ms : list (list byte * json.value))
    : option userSig :=
  match ms with
  | [] => Some u
  | (key, v) :: ms' =>
      match findField key with
      | None => setMembers u ms'
      | Some f =>
          match setField u f v with
          | Some u' => setMembers u' ms'
          | None => None
          end
      end
  end.

(** [json.Unmarshal(data, &sig)] on [var sig userSig]. *)
Definition json_Unmarshal (data : list byte) : userSig * option error :=
  match json.parse data with
  | None => (zero, Some ErrJSON)
  | Some (json.JObject ms) =>
      match setMembers zero ms with
      | Some u => (u, None)
      | None => (zero, Some ErrJSON)
      end
  | Some json.JNull => (zero, None)
  | Some _ => (zero, Some ErrJSON)
  end.

Definition genSig (currTime : Z) (sdkappid : Z) (key : string)
    (identifier : string) (expire : Z) (userbuf : slice) : string * option error :=
  let sigDoc := mkUserSig "2.0" identifier (to_uint64 sdkappid) expire currTime
                          userbuf None in
  let sigDoc := mkUserSig (Version sigDoc) (Identifier sigDoc) (SdkAppID sigDoc)
                          (Expire sigDoc) (Time sigDoc) (UserBuf sigDoc)
                          (Some (sign sigDoc key)) in
  let w := newZlibWriter in
  match json_Encode w sigDoc with
  | (_, Some err) => (""%string, Some err)
  | (w, None) =>
      match writer_Close w with
      | (_, Some err) => (""%string, Some err)
      | (b, None) => (base64.EncodeToString base64url b, None)
      end
  end.

Definition newUserSig (usersig : string) : userSig * option error :=
  match base64urlDecode usersig with
  | (_, Some err) => (zero, Some err)
  | (b, None) =>
      match zlib_NewReader b with
      | (_, Some err) => (zero, Some err)
      | (r, None) =>
          match ioutil_ReadAll r with
          | (_, Some err) => (zero, Some err)
          | (data, None) =>
              match reader_Close r with
              | Some err => (zero, Some err)
              | None =>
                  match json_Unmarshal data with
                  | (_, Some err) => (zero, None)
                  | (sig, None) => (sig, None)
                  end
              end
          end
      end
  end.

Definition VerifyUserSig (sdkappid : Z) (key : string) (userid : string)
    (usersig : string) (now : Z) : option error :=
  match newUserSig usersig with
  | (_, Some err) => Some err
  | (sig, None) => verify sig sdkappid key userid now None
  end.

Definition VerifyUserSigWithBuf (sdkappid : Z) (key : string) (userid : string)
    (usersig : string) (now : Z) (userbuf : slice) : option error :=
  match newUserSig usersig with
  | (_, Some err) => Some err
  | (sig, None) => verify sig sdkappid key userid now userbuf
  end.

Definition GenUserSig (currTime : Z) (sdkappid : Z) (key : string)
    (userid : string) (expire : Z) : string * option error :=
  genSig currTime sdkappid key userid expire None.

Definition GenUserSigWithBuf (currTime : Z) (sdkappid : Z) (key : string)
    (userid : string) (expire : Z) (buf : slice) : string * option error :=
  genSig currTime sdkappid key userid expire buf.



End sign.

Import sign.

(** * Properties *)


Example sha256_abc :
  sha256.Sum256 (bytes_of "abc") =
  map to_byte
    [0xba; 0x78; 0x16; 0xbf; 0x8f; 0x01; 0xcf; 0xea; 0x41; 0x41; 0x40; 0xde;
     0x5d; 0xae; 0x22; 0x23; 0xb0; 0x03; 0x61; 0xa3; 0x96; 0x17; 0x7a; 0x9c;
     0xb4; 0x10; 0xff; 0x61; 0xf2; 0x00; 0x15; 0xad].
Proof. vm_compute. reflexivity. Qed.

Example hmac_rfc4231_case2 :
  hmac.HMAC_SHA256 (bytes_of "Jefe") (bytes_of "what do ya want for nothing?") =
  map to_byte
    [0x5b; 0xdc; 0xc1; 0x46; 0xbf; 0x60; 0x75; 0x4e; 0x6a; 0x04; 0x24; 0x26;
     0x08; 0x95; 0x75; 0xc7; 0x5a; 0x00; 0x3f; 0x08; 0x9d; 0x27; 0x39; 0x83;
     0x9d; 0xec; 0x58; 0xb9; 0x64; 0xec; 0x38; 0x43].
Proof. vm_compute. reflexivity. Qed.

Example base64_foobar :
  base64.EncodeToString base64.StdEncoding (bytes_of "fooba") = "Zm9vYmE="%string.
Proof. vm_compute. reflexivity. Qed.

Example format_examples :
  strconv.FormatInt (-42) = "-42"%string /\ strconv.FormatInt 0 = "0"%string
  /\ strconv.FormatUint 1400000000 = "1400000000"%string.
Proof. vm_compute. auto. Qed.



(** ** Bytes and machine integers *)

Section Bytes.

Lemma Z_of_byte_range (b : byte) : 0 <= Z_of_byte b < 256.
Proof.
  unfold Z_of_byte. pose proof (Byte.to_N_bounded b). lia.
Qed.

Lemma Z_of_to_byte (z : Z) : Z_of_byte (to_byte z) = z mod 256.
Proof.
  unfold to_byte, Z_of_byte.
  assert (Hr : 0 <= z mod 256 < 256) by (apply Z.mod_pos_bound; lia).
  destruct (Byte.of_N (Z.to_N (z mod 256))) as [b|] eqn:E.
  - apply Byte.to_of_N in E. rewrite E. lia.
  - apply Byte.of_N_None_iff in E. lia.
Qed.

Lemma to_byte_of_byte (b : byte) : to_byte (Z_of_byte b) = b.
Proof.
  unfold to_byte, Z_of_byte.
  rewrite Z.mod_small by (pose proof (Byte.to_N_bounded b); lia).
  rewrite N2Z.id, Byte.of_to_N. reflexivity.
Qed.

Lemma Z_of_byte_inj (a b : byte) : Z_of_byte a = Z_of_byte b -> a = b.
Proof.
  intros H. rewrite <- (to_byte_of_byte a), <- (to_byte_of_byte b), H.
  reflexivity.
Qed.

Lemma to_byte_mod (z : Z) : to_byte (z mod 256) = to_byte z.
Proof.
  apply Z_of_byte_inj. rewrite !Z_of_to_byte. apply Z.mod_mod. lia.
Qed.

Lemma to_byte_eq (x y : Z) : x mod 256 = y mod 256 -> to_byte x = to_byte y.
Proof.
  intros H. rewrite <- (to_byte_mod x), <- (to_byte_mod y), H. reflexivity.
Qed.

Lemma byte_eqb_refl (b : byte) : Byte.eqb b b = true.
Proof. apply Byte.byte_dec_lb. reflexivity. Qed.

Lemma byte_eqb_eq (a b : byte) : Byte.eqb a b = true <-> a = b.
Proof.
  split; [apply Byte.byte_dec_bl | apply Byte.byte_dec_lb].
Qed.

Lemma byte_eqb_neq (a b : byte) : Z_of_byte a <> Z_of_byte b -> Byte.eqb a b = false.
Proof.
  intros H. destruct (Byte.eqb a b) eqn:E; [|reflexivity].
  apply byte_eqb_eq in E. subst. contradiction.
Qed.

Lemma bytes_eqb_eq (a b : list byte) : bytes_eqb a b = true <-> a = b.
Proof.
  revert b. induction a as [|x a IH]; intros [|y b]; simpl; split;
    try congruence; try reflexivity.
  - intros H. apply andb_true_iff in H. destruct H as [H1 H2].
    apply byte_eqb_eq in H1. apply IH in H2. congruence.
  - intros H. injection H as -> ->. rewrite byte_eqb_refl.
    apply IH. reflexivity.
Qed.

Lemma bytes_eqb_refl (a : list byte) : bytes_eqb a a = true.
Proof. apply bytes_eqb_eq. reflexivity. Qed.

Lemma bytes_of_string_of (b : list byte) : bytes_of (string_of b) = b.
Proof. apply list_byte_of_string_of_list_byte. Qed.

Lemma string_of_bytes_of (s : string) : string_of (bytes_of s) = s.
Proof. apply string_of_list_byte_of_string. Qed.

Lemma bytes_of_length (s : string) : List.length (bytes_of s) = String.length s.
Proof.
  unfold bytes_of, list_byte_of_string.
  rewrite length_map. induction s; simpl; congruence.
Qed.

Lemma blen_bytes_of (s : string) : blen (bytes_of s) = len s.
Proof. unfold blen, len. rewrite bytes_of_length. reflexivity. Qed.

Lemma wrap64_small (z : Z) : int64_range z -> wrap64 z = z.
Proof.
  unfold int64_range, min_int64, max_int64, wrap64. intros H.
  rewrite Z.mod_small; lia.
Qed.

Lemma wrap64_mod32 (z : Z) : wrap64 z mod 2 ^ 32 = z mod 2 ^ 32.
Proof.
  unfold wrap64.
  replace ((z + 2 ^ 63) mod 2 ^ 64 - 2 ^ 63)
    with (z - 2 ^ 32 * (2 ^ 32 * ((z + 2 ^ 63) / 2 ^ 64))).
  - rewrite Zminus_mod, Z.mul_comm, Z_mod_mult, Z.sub_0_r.
    apply Z.mod_mod. lia.
  - rewrite (Z.mod_eq (z + 2 ^ 63) (2 ^ 64)) by lia.
    change (2 ^ 64) with (2 ^ 32 * 2 ^ 32). lia.
Qed.

End Bytes.

(** ** The canonical signer *)

(** The message [sign] authenticates: what the calls of [h.Write] add up
    to. *)
Lemma sign_message (u : userSig) (key : string) :
  sign u key =
  hmac.HMAC_SHA256 (bytes_of key)
    (bytes_of "TLS.identifier:" ++ bytes_of (Identifier u) ++ [x0a]
     ++ bytes_of "TLS.sdkappid:" ++ bytes_of (strconv.FormatUint (SdkAppID u))
     ++ [x0a]
     ++ bytes_of "TLS.time:" ++ bytes_of (strconv.FormatInt (Time u)) ++ [x0a]
     ++ bytes_of "TLS.expire:" ++ bytes_of (strconv.FormatInt (Expire u)) ++ [x0a]
     ++ match UserBuf u with
        | Some b =>
            bytes_of "TLS.userbuf:"
              ++ bytes_of (base64.EncodeToString base64.StdEncoding b) ++ [x0a]
        | None => []
        end).
Proof.
  unfold sign.
  change (bytes_of "TLS.identifier:") with sigIdentifier.
  change (bytes_of "TLS.sdkappid:") with sigSdkAppID.
  change (bytes_of "TLS.time:") with sigTime.
  change (bytes_of "TLS.expire:") with sigExpire.
  change (bytes_of "TLS.userbuf:") with sigUserBuf.
  change [x0a] with sigEnter.
  generalize sigIdentifier sigSdkAppID sigTime sigExpire sigUserBuf sigEnter.
  intros t1 t2 t3 t4 t5 nl.
  destruct (UserBuf u) as [b|];
    cbn [non_nil contents hmac.Sum hmac.Write hmac.New hmac.hkey hmac.written app];
    f_equal; rewrite <- ?app_assoc, ?app_nil_r; reflexivity.
Qed.

(** C2. [sign] returns HMAC-SHA256, keyed by the bytes of the key, of the
    concatenation of the identifier, application id, time and expire lines
    in this order, followed by the userbuf line (standard base64) exactly
    when the user buffer is not nil.  The version and the signature of the
    document do not occur in the message. *)
Theorem sign_hmac_of_canonical_message :
  forall (key : string) (ver identifier : string) (appid expire time : Z)
         (userbuf sig : slice),
    sign (mkUserSig ver identifier appid expire time userbuf sig) key =
    hmac.HMAC_SHA256 (bytes_of key)
      (bytes_of "TLS.identifier:" ++ bytes_of identifier ++ [x0a]
       ++ bytes_of "TLS.sdkappid:" ++ bytes_of (strconv.FormatUint appid) ++ [x0a]
       ++ bytes_of "TLS.time:" ++ bytes_of (strconv.FormatInt time) ++ [x0a]
       ++ bytes_of "TLS.expire:" ++ bytes_of (strconv.FormatInt expire) ++ [x0a]
       ++ match userbuf with
          | Some b =>
              bytes_of "TLS.userbuf:"
                ++ bytes_of (base64.EncodeToString base64.StdEncoding b) ++ [x0a]
          | None => []
          end).
Proof. intros. apply sign_message. Qed.

(** ** The verifier *)

Arguments sign : simpl never.
Arguments hmac.HMAC_SHA256 : simpl never.

Section Verifier.

Variables (u : userSig) (sdkappid : Z) (key userid : string) (now : Z)
          (userbuf : slice).

Lemma verify_app_mismatch :
  sdkappid <> SdkAppID u -> verify u sdkappid key userid now userbuf = Some ErrSdkAppIDNotMatch.
Proof.
  intros H. unfold verify.
  destruct (Z.eqb_spec sdkappid (SdkAppID u)); [contradiction | reflexivity].
Qed.

Lemma verify_identifier_mismatch :
  sdkappid = SdkAppID u -> userid <> Identifier u ->
  verify u sdkappid key userid now userbuf = Some ErrIdentifierNotMatch.
Proof.
  intros H1 H2. unfold verify. rewrite H1, Z.eqb_refl. simpl.
  destruct (String.eqb_spec userid (Identifier u)); [contradiction | reflexivity].
Qed.

Lemma verify_expired :
  sdkappid = SdkAppID u -> userid = Identifier u ->
  wrap64 (Time u + Expire u) < now ->
  verify u sdkappid key userid now userbuf = Some ErrExpired.
Proof.
  intros H1 H2 H3. unfold verify.
  rewrite H1, Z.eqb_refl, H2, String.eqb_refl. simpl.
  destruct (Z.gtb_spec now (wrap64 (Time u + Expire u))); [reflexivity | lia].
Qed.

(** What [verify] does once the first three checks have passed. *)
Lemma verify_reaches_userbuf :
  sdkappid = SdkAppID u -> userid = Identifier u ->
  now <= wrap64 (Time u + Expire u) ->
  verify u sdkappid key userid now userbuf =
    let sigCheck :=
      if bytes_eqb (sign u key) (contents (Sig u)) then None
      else Some ErrSigNotMatch in
    match userbuf, UserBuf u with
    | Some _, None | None, Some _ => Some ErrUserBufTypeNotMatch
    | Some a, Some b => if bytes_eqb a b then sigCheck else Some ErrUserBufNotMatch
    | None, None => sigCheck
    end.
Proof.
  intros H1 H2 H3. unfold verify.
  rewrite H1, Z.eqb_refl, H2, String.eqb_refl. simpl.
  destruct (Z.gtb_spec now (wrap64 (Time u + Expire u))); [lia|].
  unfold bytes_Equal. simpl contents.
  destruct userbuf as [a|], (UserBuf u) as [b|]; simpl;
    try reflexivity;
    try destruct (bytes_eqb a b); simpl;
    destruct (bytes_eqb (sign u key) (contents (Sig u))); reflexivity.
Qed.

Lemma verify_nil_iff :
  verify u sdkappid key userid now userbuf = None <->
  sdkappid = SdkAppID u /\ userid = Identifier u
  /\ now <= wrap64 (Time u + Expire u)
  /\ non_nil userbuf = non_nil (UserBuf u)
  /\ contents userbuf = contents (UserBuf u)
  /\ sign u key = contents (Sig u).
Proof.
  split.
  - intros H.
    destruct (Z.eq_dec sdkappid (SdkAppID u)) as [H1|H1];
      [|rewrite (verify_app_mismatch H1) in H; discriminate].
    destruct (string_dec userid (Identifier u)) as [H2|H2];
      [|rewrite (verify_identifier_mismatch H1 H2) in H; discriminate].
    destruct (Z_le_gt_dec now (wrap64 (Time u + Expire u))) as [H3|H3];
      [|rewrite (verify_expired H1 H2) in H by lia; discriminate].
    rewrite (verify_reaches_userbuf H1 H2 H3) in H. cbv zeta in H.
    repeat split; try assumption;
      destruct userbuf as [a|], (UserBuf u) as [b|]; simpl in *;
      try discriminate; try reflexivity;
      try (destruct (bytes_eqb a b) eqn:E; [|discriminate];
           apply bytes_eqb_eq in E);
      try assumption;
      destruct (bytes_eqb (sign u key) (contents (Sig u))) eqn:E';
      try discriminate; apply bytes_eqb_eq in E'; assumption.
  - intros (H1 & H2 & H3 & H4 & H5 & H6).
    rewrite (verify_reaches_userbuf H1 H2 H3). cbv zeta.
    rewrite H6, bytes_eqb_refl.
    destruct userbuf as [a|], (UserBuf u) as [b|]; simpl in *;
      try discriminate; try reflexivity.
    subst. rewrite bytes_eqb_refl. reflexivity.
Qed.

End Verifier.

(** C3. [verify] runs its checks in the order application id, identifier,
    expiration, user buffer (presence, then bytes), signature; it returns
    the error of the first check that fails, whatever the later ones would
    say, and [nil] exactly when every check passes. *)
Theorem verify_first_failing_check :
  forall (u : userSig) (sdkappid : Z) (key userid : string) (now : Z)
         (userbuf : slice),
    let appOK := sdkappid = SdkAppID u in
    let idOK := userid = Identifier u in
    let timeOK := now <= wrap64 (Time u + Expire u) in
    let presenceOK := non_nil userbuf = non_nil (UserBuf u) in
    let bytesOK := contents userbuf = contents (UserBuf u) in
    let sigOK := sign u key = contents (Sig u) in
    let r := verify u sdkappid key userid now userbuf in
    (~ appOK -> r = Some ErrSdkAppIDNotMatch)
    /\ (appOK -> ~ idOK -> r = Some ErrIdentifierNotMatch)
    /\ (appOK -> idOK -> ~ timeOK -> r = Some ErrExpired)
    /\ (appOK -> idOK -> timeOK -> ~ presenceOK -> r = Some ErrUserBufTypeNotMatch)
    /\ (appOK -> idOK -> timeOK -> presenceOK -> ~ bytesOK ->
        r = Some ErrUserBufNotMatch)
    /\ (appOK -> idOK -> timeOK -> presenceOK -> bytesOK -> ~ sigOK ->
        r = Some ErrSigNotMatch)
    /\ (r = None <->
        appOK /\ idOK /\ timeOK /\ presenceOK /\ bytesOK /\ sigOK).
Proof.
  intros u sdkappid key userid now userbuf appOK idOK timeOK presenceOK
         bytesOK sigOK r.
  assert (Hreach : appOK -> idOK -> timeOK -> r = _)
    by (apply verify_reaches_userbuf).
  subst appOK idOK timeOK presenceOK bytesOK sigOK. cbv zeta in Hreach.
  split; [apply verify_app_mismatch|].
  split; [apply verify_identifier_mismatch|].
  split; [intros H1 H2 H3; apply verify_expired; auto; lia|].
  split.
  { intros H1 H2 H3 H4. rewrite (Hreach H1 H2 H3).
    destruct userbuf, (UserBuf u); simpl in H4; congruence. }
  split.
  { intros H1 H2 H3 H4 H5. rewrite (Hreach H1 H2 H3).
    destruct userbuf as [a|], (UserBuf u) as [b|]; simpl in *; try congruence.
    destruct (bytes_eqb a b) eqn:E; [|reflexivity].
    apply bytes_eqb_eq in E. contradiction. }
  split; [|apply verify_nil_iff].
  intros H1 H2 H3 H4 H5 H6. rewrite (Hreach H1 H2 H3).
  destruct (bytes_eqb (sign u key) (contents (Sig u))) eqn:E;
    [apply bytes_eqb_eq in E; contradiction|].
  destruct userbuf as [a|], (UserBuf u) as [b|]; simpl in *; try congruence.
  subst. rewrite bytes_eqb_refl. reflexivity.
Qed.

Lemma verify_first_failing_check_witness :
  verify (mkUserSig "2.0" "alice" 1400000000 86400 1700000000 None None)
         1400000001 "secret" "bob" 1700000000 None
  = Some ErrSdkAppIDNotMatch.
Proof.
  refine (proj1 (verify_first_failing_check
                   (mkUserSig "2.0" "alice" 1400000000 86400 1700000000 None None)
                   1400000001 "secret" "bob" 1700000000 None) _).
  cbn [SdkAppID]. lia.
Defined.

(** C4 as stated fails when [Time + Expire] leaves the range of [int64]:
    the sum wraps to a negative number and a token issued for
    [expire = math.MaxInt64] is expired at the very second it is issued,
    although [now <= t + e] and every other field matches. *)
Lemma expiration_sum_wraps :
  int64_range 1700000000 /\ int64_range 9223372036854775807
  /\ 1700000000 <= 1700000000 + 9223372036854775807
  /\ sign (mkUserSig "2.0" "alice" 1400000000 9223372036854775807 1700000000
                     None None) "secret"
     = contents (Sig (mkUserSig "2.0" "alice" 1400000000 9223372036854775807
                        1700000000 None
                        (Some (sign (mkUserSig "2.0" "alice" 1400000000
                                       9223372036854775807 1700000000 None None)
                                    "secret"))))
  /\ verify (mkUserSig "2.0" "alice" 1400000000 9223372036854775807 1700000000
               None
               (Some (sign (mkUserSig "2.0" "alice" 1400000000
                              9223372036854775807 1700000000 None None)
                           "secret")))
            1400000000 "secret" "alice" 1700000000 None
     = Some ErrExpired.
Proof.
  unfold int64_range, min_int64, max_int64.
  split; [lia|]. split; [lia|]. split; [lia|]. split.
  - cbn [Sig contents]. reflexivity.
  - vm_compute. reflexivity.
Qed.

(** C4, amended. When [t + e] is in the range of [int64], and the
    application id and the identifier match, the expiration check passes at
    every [now <= t + e] ([verify] returns [nil] when the user buffer and the
    signature match too) and [verify] returns [ErrExpired] at every
    [now > t + e]; in particular at [t + e] and at [t + e + 1]. *)
Theorem expiration_boundary :
  forall (u : userSig) (sdkappid : Z) (key userid : string) (now : Z)
         (userbuf : slice),
    int64_range (Time u + Expire u) ->
    sdkappid = SdkAppID u ->
    userid = Identifier u ->
    (now <= Time u + Expire u ->
       verify u sdkappid key userid now userbuf <> Some ErrExpired
       /\ (non_nil userbuf = non_nil (UserBuf u) ->
           contents userbuf = contents (UserBuf u) ->
           sign u key = contents (Sig u) ->
           verify u sdkappid key userid now userbuf = None))
    /\ (Time u + Expire u < now ->
          verify u sdkappid key userid now userbuf = Some ErrExpired)
    /\ verify u sdkappid key userid (Time u + Expire u) userbuf <> Some ErrExpired
    /\ verify u sdkappid key userid (Time u + Expire u + 1) userbuf
       = Some ErrExpired.
Proof.
  intros u sdkappid key userid now userbuf Hr H1 H2.
  assert (Hpass : forall n, n <= Time u + Expire u ->
            verify u sdkappid key userid n userbuf <> Some ErrExpired).
  { intros n Hn. rewrite verify_reaches_userbuf
      by (auto; rewrite wrap64_small by exact Hr; exact Hn).
    cbv zeta.
    destruct userbuf as [a|], (UserBuf u) as [b|];
      try destruct (bytes_eqb a b);
      destruct (bytes_eqb (sign u key) (contents (Sig u))); discriminate. }
  assert (Hfail : forall n, Time u + Expire u < n ->
            verify u sdkappid key userid n userbuf = Some ErrExpired).
  { intros n Hn. apply verify_expired; auto.
    rewrite wrap64_small by exact Hr. exact Hn. }
  split; [|split; [|split]].
  - intros Hn. split; [apply Hpass; exact Hn|].
    intros H4 H5 H6. apply verify_nil_iff.
    rewrite wrap64_small by exact Hr. auto 10.
  - apply Hfail.
  - apply Hpass. lia.
  - apply Hfail. lia.
Qed.

Lemma expiration_boundary_witness :
  verify (mkUserSig "2.0" "alice" 1400000000 86400 1700000000 None None)
         1400000000 "secret" "alice" (1700000000 + 86400 + 1) None
  = Some ErrExpired.
Proof.
  refine (proj2 (proj2 (proj2 (expiration_boundary
            (mkUserSig "2.0" "alice" 1400000000 86400 1700000000 None None)
            1400000000 "secret" "alice" 0 None _ _ _)))).
  - unfold int64_range, min_int64, max_int64. simpl. lia.
  - reflexivity.
  - reflexivity.
Defined.

(** C6 as stated fails when an earlier check fails: the error is then the
    one of that check.  Here the application id differs and the expected
    buffer is present while the document has none. *)
Lemma userbuf_check_not_reached :
  non_nil (Some [x01]) = true
  /\ non_nil (UserBuf (mkUserSig "2.0" "alice" 1400000000 86400 1700000000
                                 None None)) = false
  /\ verify (mkUserSig "2.0" "alice" 1400000000 86400 1700000000 None None)
            1400000001 "secret" "alice" 1700000000 (Some [x01])
     = Some ErrSdkAppIDNotMatch.
Proof. split; [reflexivity|]. split; [reflexivity|]. vm_compute. reflexivity. Qed.

(** C6, amended. Whenever exactly one of the expected buffer and the
    buffer of the document is nil, in either direction, or both are present
    with different bytes, [verify] fails; when the application id, the
    identifier and the expiration checks have passed, the error is
    [ErrUserBufTypeNotMatch] in the first case and [ErrUserBufNotMatch] in
    the second. *)
Theorem userbuf_presence_and_bytes :
  forall (u : userSig) (sdkappid : Z) (key userid : string) (now : Z)
         (userbuf : slice),
    sdkappid = SdkAppID u ->
    userid = Identifier u ->
    now <= wrap64 (Time u + Expire u) ->
    (userbuf <> None -> UserBuf u = None ->
       verify u sdkappid key userid now userbuf = Some ErrUserBufTypeNotMatch)
    /\ (userbuf = None -> UserBuf u <> None ->
       verify u sdkappid key userid now userbuf = Some ErrUserBufTypeNotMatch)
    /\ (forall a b, userbuf = Some a -> UserBuf u = Some b -> a <> b ->
       verify u sdkappid key userid now userbuf = Some ErrUserBufNotMatch).
Proof.
  intros u sdkappid key userid now userbuf H1 H2 H3.
  rewrite (verify_reaches_userbuf u sdkappid key userid now userbuf H1 H2 H3).
  cbv zeta. repeat split.
  - intros Ha Hb. rewrite Hb. destruct userbuf; congruence.
  - intros Ha Hb. rewrite Ha. destruct (UserBuf u); congruence.
  - intros a b Ha Hb Hab. rewrite Ha, Hb.
    destruct (bytes_eqb a b) eqn:E; [|reflexivity].
    apply bytes_eqb_eq in E. contradiction.
Qed.

Lemma userbuf_presence_and_bytes_witness :
  verify (mkUserSig "2.0" "alice" 1400000000 86400 1700000000 None None)
         1400000000 "secret" "alice" 1700000000 (Some [x01])
  = Some ErrUserBufTypeNotMatch.
Proof.
  refine (proj1 (userbuf_presence_and_bytes
                   (mkUserSig "2.0" "alice" 1400000000 86400 1700000000 None None)
                   1400000000 "secret" "alice" 1700000000 (Some [x01]) _ _ _)
                _ _).
  - reflexivity.
  - reflexivity.
  - vm_compute. intros H. discriminate H.
  - discriminate.
  - reflexivity.
Defined.

(** ** The user-buffer encoder *)

Section UserBuf.

Lemma store_nat_app (pre : list byte) (x : byte) (post : list byte) (v : byte) :
  store_nat (pre ++ x :: post) (List.length pre) v = Some (pre ++ v :: post).
Proof.
  induction pre as [|p pre IH]; simpl; [reflexivity|].
  rewrite IH. reflexivity.
Qed.

Lemma store_at (pre : list byte) (x : byte) (post : list byte) (off : Z) (v : byte) :
  off = Z.of_nat (List.length pre) ->
  store (pre ++ x :: post) off v = Some ((pre ++ [v]) ++ post).
Proof.
  intros ->. unfold store.
  destruct (Z.ltb_spec (Z.of_nat (List.length pre)) 0); [lia|].
  rewrite Nat2Z.id, store_nat_app, <- app_assoc. reflexivity.
Qed.

Lemma index_at (s1 : list byte) (c : byte) (s2 : list byte) (i : Z) :
  i = Z.of_nat (List.length s1) -> index (s1 ++ c :: s2) i = Some c.
Proof.
  intros ->. unfold index.
  destruct (Z.ltb_spec (Z.of_nat (List.length s1)) 0); [lia|].
  rewrite Nat2Z.id, nth_error_app2 by lia.
  rewrite Nat.sub_diag. reflexivity.
Qed.

(** The copying loop writes the rest of its source over the zeros that
    follow what is already written, and stops at [limit]. *)
Lemma copy_loop_spec (s2 : list byte) :
  forall (s1 pre post : list byte) (fuel : nat) (limit delta offset : Z),
    offset = Z.of_nat (List.length pre) ->
    offset - delta = Z.of_nat (List.length s1) ->
    limit = offset + Z.of_nat (List.length s2) ->
    (List.length s2 <= fuel)%nat ->
    copy_loop fuel limit (s1 ++ s2) delta
              (pre ++ repeat x00 (List.length s2) ++ post) offset
    = Some ((pre ++ s2) ++ post, limit).
Proof.
  induction s2 as [|c s2 IH]; intros s1 pre post fuel limit delta offset
    Hoff Hdelta Hlimit Hfuel.
  - simpl in *. rewrite !app_nil_r.
    destruct fuel; simpl;
      (destruct (Z.ltb_spec offset limit); [lia|]);
      rewrite Hlimit, Z.add_0_r; reflexivity.
  - simpl List.length in *. destruct fuel as [|fuel]; [lia|].
    cbn [copy_loop repeat app].
    destruct (Z.ltb_spec offset limit); [|lia].
    rewrite (index_at s1 c s2) by lia.
    rewrite (store_at pre x00) by assumption.
    replace (s1 ++ c :: s2) with ((s1 ++ [c]) ++ s2)
      by (rewrite <- app_assoc; reflexivity).
    rewrite (IH (s1 ++ [c]) (pre ++ [c]) post fuel limit delta (offset + 1)).
    + rewrite <- !app_assoc. reflexivity.
    + rewrite length_app. simpl. lia.
    + rewrite length_app. simpl. lia.
    + lia.
    + lia.
Qed.

Lemma to_byte_land_ff (v : Z) : to_byte (Z.land v 0xFF) = to_byte v.
Proof.
  apply to_byte_eq. change 0xFF with (Z.ones 8).
  rewrite Z.land_ones by lia. apply Z.mod_mod. lia.
Qed.

Lemma to_byte_masked (v mask s : Z) :
  Z.shiftr mask s = 0xFF ->
  to_byte (Z.shiftr (Z.land v mask) s) = to_byte (Z.shiftr v s).
Proof.
  intros H. rewrite Z.shiftr_land, H. apply to_byte_land_ff.
Qed.

Lemma be_bytes_2 (v : Z) :
  be_bytes 2 v = [to_byte (Z.shiftr v 8); to_byte v].
Proof. reflexivity. Qed.

Lemma be_bytes_4 (v : Z) :
  be_bytes 4 v =
  [to_byte (Z.shiftr v 24); to_byte (Z.shiftr v 16); to_byte (Z.shiftr v 8);
   to_byte v].
Proof. reflexivity. Qed.

Lemma shiftr_mod_byte (a b k : Z) :
  0 <= k -> k + 8 <= 32 ->
  a mod 2 ^ 32 = b mod 2 ^ 32 ->
  to_byte (Z.shiftr a k) = to_byte (Z.shiftr b k).
Proof.
  intros Hk Hk' H. apply to_byte_eq.
  apply Z.bits_inj'. intros n Hn.
  change 256 with (2 ^ 8).
  destruct (Z.ltb_spec n 8) as [Hlt|Hge].
  - rewrite !Z.mod_pow2_bits_low by lia.
    rewrite !Z.shiftr_spec by lia.
    rewrite <- (Z.mod_pow2_bits_low a 32) by lia.
    rewrite <- (Z.mod_pow2_bits_low b 32) by lia.
    rewrite H. reflexivity.
  - rewrite !Z.mod_pow2_bits_high by lia. reflexivity.
Qed.

Lemma be_bytes_4_congr (a b : Z) :
  a mod 2 ^ 32 = b mod 2 ^ 32 -> be_bytes 4 a = be_bytes 4 b.
Proof.
  intros H. rewrite !be_bytes_4.
  rewrite (shiftr_mod_byte a b 24), (shiftr_mod_byte a b 16),
    (shiftr_mod_byte a b 8) by (lia || exact H).
  f_equal. f_equal. f_equal. f_equal.
  generalize (shiftr_mod_byte a b 0). simpl. intros H0. apply H0; (lia || exact H).
Qed.

Lemma be_fold_acc (b : list byte) :
  forall acc : Z,
    fold_left (fun acc x => acc * 256 + Z_of_byte x) b acc
    = acc * 256 ^ Z.of_nat (List.length b) + be_value b.
Proof.
  unfold be_value. induction b as [|x b IH]; intros acc.
  - simpl. lia.
  - cbn [fold_left List.length]. rewrite IH, (IH (0 * 256 + Z_of_byte x)).
    rewrite Nat2Z.inj_succ, Z.pow_succ_r by lia. lia.
Qed.

Lemma be_value_app (a b : list byte) :
  be_value (a ++ b) = be_value a * 256 ^ Z.of_nat (List.length b) + be_value b.
Proof.
  unfold be_value at 1. rewrite fold_left_app, be_fold_acc. reflexivity.
Qed.

(** The bytes of [be_bytes n v] denote [v] reduced modulo [2^(8n)]. *)
Lemma be_value_be_bytes (n : nat) (v : Z) :
  be_value (be_bytes n v) = v mod 2 ^ (8 * Z.of_nat n).
Proof.
  induction n as [|n IH].
  - simpl. rewrite Z.mod_1_r. reflexivity.
  - cbn [be_bytes].
    change (to_byte (Z.shiftr v (8 * Z.of_nat n)) :: be_bytes n v)
      with ([to_byte (Z.shiftr v (8 * Z.of_nat n))] ++ be_bytes n v).
    rewrite be_value_app, IH.
    assert (Hlen : forall k w, List.length (be_bytes k w) = k)
      by (induction k; intros; simpl; auto).
    rewrite Hlen. unfold be_value at 1. cbn [fold_left].
    rewrite Z_of_to_byte. rewrite Z.shiftr_div_pow2 by lia.
    replace (256 ^ Z.of_nat n) with (2 ^ (8 * Z.of_nat n))
      by (rewrite Z.pow_mul_r by lia; reflexivity).
    replace (8 * Z.of_nat (S n)) with (8 * Z.of_nat n + 8) by lia.
    rewrite Z.pow_add_r by lia.
    change 256 with (2 ^ 8).
    rewrite (Z.rem_mul_r v (2 ^ (8 * Z.of_nat n)) (2 ^ 8)) by lia.
    lia.
Qed.

End UserBuf.

Section UserBufLayout.

Lemma copy_loop_whole (src pre post : list byte) (fuel : nat) (limit delta offset : Z) :
  offset = Z.of_nat (List.length pre) ->
  offset = delta ->
  limit = offset + Z.of_nat (List.length src) ->
  (List.length src <= fuel)%nat ->
  copy_loop fuel limit src delta (pre ++ repeat x00 (List.length src) ++ post) offset
  = Some ((pre ++ src) ++ post, limit).
Proof.
  intros. apply (copy_loop_spec src [] pre post); auto. simpl. lia.
Qed.

Lemma zeros_20 (t : list byte) :
  repeat x00 20 ++ t =
  x00 :: x00 :: x00 :: x00 :: x00 :: x00 :: x00 :: x00 :: x00 :: x00 ::
  x00 :: x00 :: x00 :: x00 :: x00 :: x00 :: x00 :: x00 :: x00 :: x00 :: t.
Proof. reflexivity. Qed.

Lemma make_layout (la lr : nat) (n : Z) (tail : list byte) :
  n = Z.of_nat (3 + (la + (20 + List.length tail))) ->
  tail = repeat x00 (List.length tail) ->
  make n = [] ++ x00 :: x00 :: x00 :: repeat x00 la ++ repeat x00 20 ++ tail.
Proof.
  intros -> Ht. unfold make. rewrite Nat2Z.id.
  rewrite Ht at 2. rewrite <- !repeat_app. reflexivity.
Qed.

Ltac off_tac :=
  rewrite ?length_app, ?bytes_of_length; cbn [List.length]; unfold len; lia.

Ltac store_step :=
  match goal with
  | |- context [store (?pre ++ ?x :: ?post) ?off ?v] =>
      rewrite (store_at pre x post off v) by off_tac
  end.

Ltac finish_layout :=
  rewrite !to_byte_masked by reflexivity; rewrite !to_byte_land_ff;
  match goal with
  | |- context [be_bytes 4 (?c + ?d)] =>
      rewrite <- (be_bytes_4_congr (wrap64 (c + d)) (c + d))
        by apply wrap64_mod32
  end;
  match goal with
  | |- context [to_uint32 ?a] =>
      rewrite <- (be_bytes_4_congr (to_uint32 a) a)
        by (unfold to_uint32; apply Z.mod_mod; lia)
  end;
  rewrite !be_bytes_4, !be_bytes_2, <- !app_assoc, ?app_nil_r; cbn [app];
  reflexivity.

Lemma genUserBuf_masked (currTime : Z) (account : string)
    (dwSdkappid dwAuthID dwExpTime dwPrivilegeMap dwAccountType : Z)
    (roomStr : string) :
  genUserBuf currTime account dwSdkappid dwAuthID dwExpTime dwPrivilegeMap
             dwAccountType roomStr
  = Some ([if len roomStr >? 0 then x01 else x00]
          ++ be_bytes 2 (len account) ++ bytes_of account
          ++ be_bytes 4 dwSdkappid ++ be_bytes 4 dwAuthID
          ++ be_bytes 4 (currTime + dwExpTime)
          ++ be_bytes 4 dwPrivilegeMap ++ be_bytes 4 dwAccountType
          ++ (if len roomStr >? 0
              then be_bytes 2 (len roomStr) ++ bytes_of roomStr else [])).
Proof.
  unfold genUserBuf.
  destruct (len roomStr >? 0) eqn:Hroom.
  - rewrite (make_layout (List.length (bytes_of account)) 0 _
               (x00 :: x00 :: repeat x00 (List.length (bytes_of roomStr)) ++ [])).
    2:{ cbn [List.length]. rewrite length_app, repeat_length, !bytes_of_length.
        unfold len. simpl List.length. lia. }
    2:{ cbn [List.length]. rewrite length_app, repeat_length. simpl List.length.
        rewrite Nat.add_0_r, app_nil_r. reflexivity. }
    rewrite zeros_20.
    do 3 store_step.
    rewrite copy_loop_whole; [|off_tac|off_tac|off_tac|rewrite bytes_of_length; lia].
    cbn [fst snd].
    do 22 store_step.
    rewrite copy_loop_whole; [|off_tac|off_tac|off_tac|rewrite bytes_of_length; lia].
    cbn [fst].
    finish_layout.
  - rewrite (make_layout (List.length (bytes_of account)) 0 _ []).
    2:{ cbn [List.length]. rewrite !bytes_of_length.
        unfold len in *. lia. }
    2:{ reflexivity. }
    rewrite zeros_20.
    do 3 store_step.
    rewrite copy_loop_whole; [|off_tac|off_tac|off_tac|rewrite bytes_of_length; lia].
    cbn [fst snd].
    do 20 store_step.
    finish_layout.
Qed.

End UserBufLayout.

Lemma be_bytes_length (n : nat) (v : Z) : List.length (be_bytes n v) = n.
Proof. induction n; simpl; auto. Qed.

Lemma sub_middle (a b c : list byte) (i j : Z) :
  i = blen a -> j = i + blen b -> sub (a ++ b ++ c) i j = b.
Proof.
  unfold sub, blen. intros -> ->.
  rewrite Nat2Z.id, skipn_app, skipn_all, Nat.sub_diag. simpl.
  replace (Z.to_nat _) with (List.length b + 0)%nat by lia.
  rewrite firstn_app_2. simpl. apply app_nil_r.
Qed.

(** C8. [genUserBuf] returns (it does not panic) the version byte, 0
    without a room string and 1 with one, then the length of the identity on
    two bytes, the identity, the application id, the room number, the expiry,
    the privilege map and the account type on four bytes each and, with a
    room string only, its length on two bytes and the string; in all
    [1 + 2 + len(identity) + 20] bytes, and [2 + len(roomStr)] more with a
    room string. *)
Theorem genUserBuf_layout :
  forall (currTime : Z) (account : string)
         (dwSdkappid dwAuthID dwExpTime dwPrivilegeMap dwAccountType : Z)
         (roomStr : string),
  exists userBuf : list byte,
    genUserBuf currTime account dwSdkappid dwAuthID dwExpTime dwPrivilegeMap
               dwAccountType roomStr = Some userBuf
    /\ userBuf =
       match roomStr with
       | EmptyString =>
           [x00] ++ be_bytes 2 (len account) ++ bytes_of account
             ++ be_bytes 4 dwSdkappid ++ be_bytes 4 dwAuthID
             ++ be_bytes 4 (currTime + dwExpTime)
             ++ be_bytes 4 dwPrivilegeMap ++ be_bytes 4 dwAccountType
       | String _ _ =>
           [x01] ++ be_bytes 2 (len account) ++ bytes_of account
             ++ be_bytes 4 dwSdkappid ++ be_bytes 4 dwAuthID
             ++ be_bytes 4 (currTime + dwExpTime)
             ++ be_bytes 4 dwPrivilegeMap ++ be_bytes 4 dwAccountType
             ++ be_bytes 2 (len roomStr) ++ bytes_of roomStr
       end
    /\ blen userBuf =
       match roomStr with
       | EmptyString => 1 + 2 + len account + 20
       | String _ _ => 1 + 2 + len account + 20 + 2 + len roomStr
       end
    /\ hd_error userBuf =
       Some match roomStr with EmptyString => x00 | String _ _ => x01 end.
Proof.
  intros. eexists. split; [apply genUserBuf_masked|].
  assert (Hroom : (len roomStr >? 0) =
                  match roomStr with EmptyString => false | String _ _ => true end).
  { destruct roomStr; [reflexivity|]. unfold len. simpl String.length.
    destruct (Z.gtb_spec (Z.of_nat (S (String.length roomStr))) 0); [reflexivity|lia]. }
  rewrite Hroom.
  destruct roomStr as [|c r].
  - split; [rewrite app_nil_r; reflexivity|]. split; [|reflexivity].
    unfold blen. rewrite !length_app, !be_bytes_length, bytes_of_length.
    unfold len. simpl List.length. lia.
  - split; [reflexivity|]. split; [|reflexivity].
    unfold blen. rewrite !length_app, !be_bytes_length, !bytes_of_length.
    unfold len. simpl List.length. lia.
Qed.

(** C9. Every integer field of the buffer is big-endian and cut to its
    width: the two bytes after the version denote [len(identity)] modulo
    [2^16]; the four-byte fields after the identity denote the application id
    modulo [2^32] (a negative or wider value wraps), the room number, the
    low 32 bits of [currTime + dwExpTime], the privilege map and the account
    type; with a room string, the two bytes that follow denote its length
    modulo [2^16]. *)
Theorem genUserBuf_big_endian_truncated :
  forall (currTime : Z) (account : string)
         (dwSdkappid dwAuthID dwExpTime dwPrivilegeMap dwAccountType : Z)
         (roomStr : string),
  exists userBuf : list byte,
    genUserBuf currTime account dwSdkappid dwAuthID dwExpTime dwPrivilegeMap
               dwAccountType roomStr = Some userBuf
    /\ be_value (sub userBuf 1 3) = len account mod 2 ^ 16
    /\ sub userBuf 3 (3 + len account) = bytes_of account
    /\ be_value (sub userBuf (3 + len account) (7 + len account))
       = dwSdkappid mod 2 ^ 32
    /\ be_value (sub userBuf (7 + len account) (11 + len account))
       = dwAuthID mod 2 ^ 32
    /\ be_value (sub userBuf (11 + len account) (15 + len account))
       = (currTime + dwExpTime) mod 2 ^ 32
    /\ be_value (sub userBuf (15 + len account) (19 + len account))
       = dwPrivilegeMap mod 2 ^ 32
    /\ be_value (sub userBuf (19 + len account) (23 + len account))
       = dwAccountType mod 2 ^ 32
    /\ match roomStr with
       | EmptyString => True
       | String _ _ =>
           be_value (sub userBuf (23 + len account) (25 + len account))
           = len roomStr mod 2 ^ 16
       end.
Proof.
  intros. eexists. split; [apply genUserBuf_masked|].
  set (ver := [if len roomStr >? 0 then x01 else x00]).
  set (tail := if len roomStr >? 0
               then be_bytes 2 (len roomStr) ++ bytes_of roomStr else []).
  assert (Hla : blen (bytes_of account) = len account) by apply blen_bytes_of.
  assert (H2 : forall v, blen (be_bytes 2 v) = 2)
    by (intros; unfold blen; rewrite be_bytes_length; reflexivity).
  assert (H4 : forall v, blen (be_bytes 4 v) = 4)
    by (intros; unfold blen; rewrite be_bytes_length; reflexivity).
  assert (Happ : forall a b, blen (a ++ b) = blen a + blen b)
    by (intros; unfold blen; rewrite length_app; lia).
  assert (Hver : blen ver = 1) by reflexivity.
  repeat split.
  - rewrite (sub_middle ver (be_bytes 2 (len account))) by (rewrite ?H2; lia).
    apply (be_value_be_bytes 2).
  - match goal with |- sub ?l _ _ = _ =>
      replace l with ((ver ++ be_bytes 2 (len account)) ++ bytes_of account
                        ++ be_bytes 4 dwSdkappid ++ be_bytes 4 dwAuthID
                        ++ be_bytes 4 (currTime + dwExpTime)
                        ++ be_bytes 4 dwPrivilegeMap ++ be_bytes 4 dwAccountType
                        ++ tail)
        by (rewrite <- !app_assoc; reflexivity) end.
    apply sub_middle; rewrite ?Happ, ?H2, ?Hver; lia.
  - match goal with |- be_value (sub ?l _ _) = _ =>
      replace l with ((ver ++ be_bytes 2 (len account) ++ bytes_of account)
                        ++ be_bytes 4 dwSdkappid ++ be_bytes 4 dwAuthID
                        ++ be_bytes 4 (currTime + dwExpTime)
                        ++ be_bytes 4 dwPrivilegeMap ++ be_bytes 4 dwAccountType
                        ++ tail)
        by (rewrite <- !app_assoc; reflexivity) end.
    rewrite sub_middle by (rewrite ?Happ, ?H2, ?H4, ?Hver, ?Hla; lia).
    apply (be_value_be_bytes 4).
  - match goal with |- be_value (sub ?l _ _) = _ =>
      replace l with ((ver ++ be_bytes 2 (len account) ++ bytes_of account
                         ++ be_bytes 4 dwSdkappid)
                        ++ be_bytes 4 dwAuthID
                        ++ be_bytes 4 (currTime + dwExpTime)
                        ++ be_bytes 4 dwPrivilegeMap ++ be_bytes 4 dwAccountType
                        ++ tail)
        by (rewrite <- !app_assoc; reflexivity) end.
    rewrite sub_middle by (rewrite ?Happ, ?H2, ?H4, ?Hver, ?Hla; lia).
    apply (be_value_be_bytes 4).
  - match goal with |- be_value (sub ?l _ _) = _ =>
      replace l with ((ver ++ be_bytes 2 (len account) ++ bytes_of account
                         ++ be_bytes 4 dwSdkappid ++ be_bytes 4 dwAuthID)
                        ++ be_bytes 4 (currTime + dwExpTime)
                        ++ be_bytes 4 dwPrivilegeMap ++ be_bytes 4 dwAccountType
                        ++ tail)
        by (rewrite <- !app_assoc; reflexivity) end.
    rewrite sub_middle by (rewrite ?Happ, ?H2, ?H4, ?Hver, ?Hla; lia).
    apply (be_value_be_bytes 4).
  - match goal with |- be_value (sub ?l _ _) = _ =>
      replace l with ((ver ++ be_bytes 2 (len account) ++ bytes_of account
                         ++ be_bytes 4 dwSdkappid ++ be_bytes 4 dwAuthID
                         ++ be_bytes 4 (currTime + dwExpTime))
                        ++ be_bytes 4 dwPrivilegeMap ++ be_bytes 4 dwAccountType
                        ++ tail)
        by (rewrite <- !app_assoc; reflexivity) end.
    rewrite sub_middle by (rewrite ?Happ, ?H2, ?H4, ?Hver, ?Hla; lia).
    apply (be_value_be_bytes 4).
  - match goal with |- be_value (sub ?l _ _) = _ =>
      replace l with ((ver ++ be_bytes 2 (len account) ++ bytes_of account
                         ++ be_bytes 4 dwSdkappid ++ be_bytes 4 dwAuthID
                         ++ be_bytes 4 (currTime + dwExpTime)
                         ++ be_bytes 4 dwPrivilegeMap)
                        ++ be_bytes 4 dwAccountType ++ tail)
        by (rewrite <- !app_assoc; reflexivity) end.
    rewrite sub_middle by (rewrite ?Happ, ?H2, ?H4, ?Hver, ?Hla; lia).
    apply (be_value_be_bytes 4).
  - destruct roomStr as [|c r]; [exact I|].
    assert (Hroom : (len (String c r) >? 0) = true).
    { unfold len. simpl String.length.
      destruct (Z.gtb_spec (Z.of_nat (S (String.length r))) 0); [reflexivity|lia]. }
    subst tail. rewrite Hroom.
    match goal with |- be_value (sub ?l _ _) = _ =>
      replace l with ((ver ++ be_bytes 2 (len account) ++ bytes_of account
                         ++ be_bytes 4 dwSdkappid ++ be_bytes 4 dwAuthID
                         ++ be_bytes 4 (currTime + dwExpTime)
                         ++ be_bytes 4 dwPrivilegeMap ++ be_bytes 4 dwAccountType)
                        ++ be_bytes 2 (len (String c r))
                        ++ bytes_of (String c r))
        by (rewrite <- !app_assoc; reflexivity) end.
    rewrite sub_middle by (rewrite ?Happ, ?H2, ?H4, ?Hver, ?Hla; lia).
    apply (be_value_be_bytes 2).
Qed.

Section Base64RoundTrip.

Variable enc : base64.Encoding.
Hypothesis Hwf : base64.wellFormed enc = true.

Lemma base64_char (v : Z) :
  0 <= v < 64 ->
  base64.decodeChar enc (base64.encodeChar enc v) = Some v
  /\ base64.isNewline (base64.encodeChar enc v) = false.
Proof.
  intros Hv. unfold base64.wellFormed in Hwf.
  apply andb_true_iff in Hwf. destruct Hwf as [Hall _].
  rewrite forallb_forall in Hall.
  specialize (Hall v).
  assert (Hin : In v (map Z.of_nat (seq 0 64))).
  { replace v with (Z.of_nat (Z.to_nat v)) by lia.
    apply in_map, in_seq. lia. }
  apply Hall in Hin. apply andb_true_iff in Hin. destruct Hin as [H1 H2].
  destruct (base64.decodeChar enc (base64.encodeChar enc v)) as [v'|];
    [|discriminate].
  apply Z.eqb_eq in H1. subst v'.
  split; [reflexivity|]. apply negb_true_iff. exact H2.
Qed.

Lemma base64_pad :
  exists p, base64.padChar enc = Some p
            /\ base64.decodeChar enc p = None
            /\ base64.isNewline p = false.
Proof.
  unfold base64.wellFormed in Hwf.
  apply andb_true_iff in Hwf. destruct Hwf as [_ Hp].
  destruct (base64.padChar enc) as [p|]; [|discriminate].
  exists p. apply andb_true_iff in Hp. destruct Hp as [H1 H2].
  split; [reflexivity|]. split.
  - destruct (base64.decodeChar enc p); [discriminate|reflexivity].
  - apply negb_true_iff. exact H1.
Qed.

Lemma base64_decode_encode (n : nat) :
  forall b : list byte,
    (List.length b <= n)%nat ->
    base64.decode enc (base64.encode enc b) = Some b.
Proof.
  destruct base64_pad as (p & Hp & Hdp & _).
  assert (Hisp : base64.isPad enc p = true)
    by (unfold base64.isPad; rewrite Hp; apply byte_eqb_refl).
  induction n as [|n IH]; intros b Hlen.
  - destruct b; [reflexivity|simpl in Hlen; lia].
  - destruct b as [|a [|b0 [|c rest]]]; [reflexivity| | |].
    + pose proof (Z_of_byte_range a) as Ha.
      cbn [base64.encode]. unfold base64.padding. rewrite Hp. cbn [repeat].
      cbn [base64.decode].
      destruct (base64_char (Z_of_byte a * 65536 / 262144)) as [E1 _];
        [split; [apply Z.div_pos|apply Z.div_lt_upper_bound]; lia | rewrite E1].
      destruct (base64_char (Z_of_byte a * 65536 / 4096 mod 64)) as [E2 _];
        [apply Z.mod_pos_bound; lia | rewrite E2].
      rewrite Hdp, Hisp. cbn [andb base64.isNil].
      f_equal. f_equal. rewrite <- (to_byte_of_byte a) at 3. f_equal.
      Z.to_euclidean_division_equations. lia.
    + pose proof (Z_of_byte_range a) as Ha.
      pose proof (Z_of_byte_range b0) as Hb.
      cbn [base64.encode]. unfold base64.padding. rewrite Hp. cbn [repeat].
      cbn [base64.decode].
      set (x := Z_of_byte a * 65536 + Z_of_byte b0 * 256).
      destruct (base64_char (x / 262144)) as [E1 _];
        [subst x; split; [apply Z.div_pos|apply Z.div_lt_upper_bound]; lia
        | rewrite E1].
      destruct (base64_char (x / 4096 mod 64)) as [E2 _];
        [apply Z.mod_pos_bound; lia | rewrite E2].
      destruct (base64_char (x / 64 mod 64)) as [E3 _];
        [apply Z.mod_pos_bound; lia | rewrite E3].
      rewrite Hdp, Hisp. cbn [andb base64.isNil].
      f_equal.
      rewrite <- (to_byte_of_byte a) at 1. rewrite <- (to_byte_of_byte b0) at 1.
      f_equal; [|f_equal]; apply to_byte_eq; subst x;
        Z.to_euclidean_division_equations; lia.
    + pose proof (Z_of_byte_range a) as Ha.
      pose proof (Z_of_byte_range b0) as Hb.
      pose proof (Z_of_byte_range c) as Hc.
      cbn [base64.encode base64.decode].
      set (x := Z_of_byte a * 65536 + Z_of_byte b0 * 256 + Z_of_byte c).
      destruct (base64_char (x / 262144)) as [E1 _];
        [subst x; split; [apply Z.div_pos|apply Z.div_lt_upper_bound]; lia
        | rewrite E1].
      destruct (base64_char (x / 4096 mod 64)) as [E2 _];
        [apply Z.mod_pos_bound; lia | rewrite E2].
      destruct (base64_char (x / 64 mod 64)) as [E3 _];
        [apply Z.mod_pos_bound; lia | rewrite E3].
      destruct (base64_char (x mod 64)) as [E4 _];
        [apply Z.mod_pos_bound; lia | rewrite E4].
      rewrite IH by (simpl in Hlen; lia).
      f_equal.
      rewrite <- (to_byte_of_byte a) at 1. rewrite <- (to_byte_of_byte b0) at 1.
      rewrite <- (to_byte_of_byte c) at 1.
      f_equal; [|f_equal; [|f_equal]]; apply to_byte_eq; subst x;
        Z.to_euclidean_division_equations; lia.
Qed.

(** A property of the 64 characters and of the padding holds of every
    character of an encoded text. *)
Lemma base64_encode_forallb (P : byte -> bool) (n : nat) :
  (forall v, 0 <= v < 64 -> P (base64.encodeChar enc v) = true) ->
  (forall p, base64.padChar enc = Some p -> P p = true) ->
  forall b : list byte,
    (List.length b <= n)%nat -> forallb P (base64.encode enc b) = true.
Proof.
  intros Hc Hpad. destruct base64_pad as (p & Hp & _ & _).
  specialize (Hpad p Hp).
  induction n as [|n IH]; intros b Hlen.
  - destruct b; [reflexivity|simpl in Hlen; lia].
  - destruct b as [|a [|b0 [|c rest]]]; [reflexivity| | |].
    + pose proof (Z_of_byte_range a) as Ha.
      cbn [base64.encode]. unfold base64.padding. rewrite Hp.
      cbn [repeat forallb].
      rewrite !Hc, Hpad;
        [reflexivity
        | apply Z.mod_pos_bound; lia
        | split; [apply Z.div_pos|apply Z.div_lt_upper_bound]; lia].
    + pose proof (Z_of_byte_range a) as Ha.
      pose proof (Z_of_byte_range b0) as Hb.
      cbn [base64.encode]. unfold base64.padding. rewrite Hp.
      cbn [repeat forallb].
      rewrite !Hc, Hpad;
        [reflexivity
        | apply Z.mod_pos_bound; lia
        | apply Z.mod_pos_bound; lia
        | split; [apply Z.div_pos|apply Z.div_lt_upper_bound]; lia].
    + pose proof (Z_of_byte_range a) as Ha.
      pose proof (Z_of_byte_range b0) as Hb.
      pose proof (Z_of_byte_range c) as Hcc.
      cbn [base64.encode forallb].
      rewrite !Hc, IH;
        [reflexivity
        | simpl in Hlen; lia
        | apply Z.mod_pos_bound; lia
        | apply Z.mod_pos_bound; lia
        | apply Z.mod_pos_bound; lia
        | split; [apply Z.div_pos|apply Z.div_lt_upper_bound]; lia].
Qed.

Lemma base64_no_newline (b : list byte) :
  filter (fun c => negb (base64.isNewline c)) (base64.encode enc b)
  = base64.encode enc b.
Proof.
  apply forallb_filter_id.
  apply (base64_encode_forallb _ (List.length b)); [| |lia].
  - intros v Hv. destruct (base64_char v Hv) as [_ E]. rewrite E. reflexivity.
  - intros p Hp. destruct base64_pad as (p' & Hp' & _ & Hn).
    rewrite Hp in Hp'. injection Hp' as <-. rewrite Hn. reflexivity.
Qed.

(** Decoding the text of a byte sequence gives the sequence back. *)
Lemma base64_DecodeString_encode (b : list byte) :
  base64.DecodeString enc (base64.encode enc b) = Some b.
Proof.
  unfold base64.DecodeString. rewrite base64_no_newline.
  apply (base64_decode_encode (List.length b)). lia.
Qed.

End Base64RoundTrip.

Lemma StdEncoding_wellFormed : base64.wellFormed base64.StdEncoding = true.
Proof. vm_compute. reflexivity. Qed.

Lemma base64url_wellFormed : base64.wellFormed base64url = true.
Proof. vm_compute. reflexivity. Qed.

(** The standard base64 text of a byte sequence is written as it is in a
    JSON string. *)
Lemma base64_text_plain (b : list byte) :
  json.plain (base64.encode base64.StdEncoding b) = true.
Proof.
  unfold json.plain.
  apply (base64_encode_forallb base64.StdEncoding StdEncoding_wellFormed
           _ (List.length b)); [| |lia].
  - intros v Hv.
    assert (Hall : forallb (fun v => json.htmlSafe
                     (Z_of_byte (base64.encodeChar base64.StdEncoding v)))
                     (map Z.of_nat (seq 0 64)) = true)
      by (vm_compute; reflexivity).
    rewrite forallb_forall in Hall. apply Hall.
    replace v with (Z.of_nat (Z.to_nat v)) by lia.
    apply in_map, in_seq. lia.
  - intros p Hp. injection Hp as <-. reflexivity.
Qed.

(** ** The zlib stream of stored blocks *)

Section Zlib.

Lemma le16_value (v : Z) :
  0 <= v < 65536 ->
  Z_of_byte (to_byte v) + 256 * Z_of_byte (to_byte (Z.shiftr v 8)) = v.
Proof.
  intros Hv. rewrite !Z_of_to_byte, Z.shiftr_div_pow2 by lia.
  change (2 ^ 8) with 256. Z.to_euclidean_division_equations. lia.
Qed.

Lemma lxor_ffff_range (n : Z) : 0 <= n < 65536 -> 0 <= Z.lxor n 0xFFFF < 65536.
Proof.
  intros Hn. split; [apply Z.lxor_nonneg; lia|].
  destruct (Z.eq_dec (Z.lxor n 0xFFFF) 0) as [E|E]; [lia|].
  assert (Hpos : 0 < Z.lxor n 65535)
    by (pose proof (proj2 (Z.lxor_nonneg n 65535)); lia).
  apply Z.log2_lt_pow2 with (b := 16); [assumption|].
  pose proof (Z.log2_lxor n 65535 ltac:(lia) ltac:(lia)) as H.
  assert (Z.log2 n < 16).
  { destruct (Z.eq_dec n 0) as [->|]; [simpl; lia|].
    apply Z.log2_lt_pow2; lia. }
  change (Z.log2 65535) with 15 in H. lia.
Qed.

Lemma inflate_final (fuel : nat) (out rest : list byte) :
  zlib.inflate (S fuel) (zlib.storedHeader 0 true ++ rest) out = Some (out, rest).
Proof.
  simpl. destruct (Z.ltb_spec (blen rest) 0) as [H|_];
    [unfold blen in H; lia|].
  rewrite app_nil_r. reflexivity.
Qed.

Lemma inflate_block (fuel : nat) (chunk tail out : list byte) :
  0 <= blen chunk < 65536 ->
  zlib.inflate (S fuel) (zlib.storedHeader (blen chunk) false ++ chunk ++ tail) out
  = zlib.inflate fuel tail (out ++ chunk).
Proof.
  intros Hcl. unfold zlib.storedHeader, zlib.le16.
  cbn [app zlib.inflate].
  rewrite !le16_value by (try apply lxor_ffff_range; lia).
  change (Z_of_byte x00) with 0.
  change (Z.land (Z.shiftr 0 1) 3 =? 0) with true.
  change (Z.land 0 1 =? 1) with false.
  rewrite Z.eqb_refl. cbn [negb].
  destruct (Z.ltb_spec (blen (chunk ++ tail)) (blen chunk)) as [Hlt|_].
  { unfold blen in Hlt. rewrite length_app in Hlt. lia. }
  unfold blen. rewrite Nat2Z.id.
  rewrite firstn_app, firstn_all, Nat.sub_diag, firstn_O, app_nil_r.
  rewrite skipn_app, skipn_all, Nat.sub_diag. reflexivity.
Qed.

Lemma inflate_stored (f : nat) :
  forall (data out rest : list byte) (fuel : nat),
    (List.length data <= f)%nat ->
    (List.length data < fuel)%nat ->
    zlib.inflate fuel
      (zlib.storedBlocks f data ++ zlib.storedHeader 0 true ++ rest) out
    = Some (out ++ data, rest).
Proof.
  induction f as [|f IH]; intros data out rest fuel Hf Hfuel.
  - destruct data; [|simpl in Hf; lia].
    destruct fuel; [simpl in Hfuel; lia|].
    cbn [zlib.storedBlocks app]. rewrite inflate_final, app_nil_r. reflexivity.
  - destruct data as [|d data'].
    + destruct fuel; [simpl in Hfuel; lia|].
      cbn [zlib.storedBlocks app]. rewrite inflate_final, app_nil_r.
      reflexivity.
    + destruct fuel as [|fuel]; [simpl in Hfuel; lia|].
      cbn [zlib.storedBlocks].
      set (dat := d :: data') in *.
      set (chunk := firstn zlib.maxStoreBlockSize dat).
      set (more := skipn zlib.maxStoreBlockSize dat).
      assert (Hsplit : chunk ++ more = dat) by apply firstn_skipn.
      assert (Hcl : 0 < blen chunk < 65536).
      { unfold blen, chunk. rewrite length_firstn.
        unfold zlib.maxStoreBlockSize, dat. simpl List.length. lia. }
      assert (Hml : (List.length more < List.length dat)%nat).
      { rewrite <- Hsplit, length_app. unfold blen in Hcl. lia. }
      rewrite <- !app_assoc.
      rewrite inflate_block by lia.
      rewrite IH by lia.
      rewrite <- app_assoc, Hsplit. reflexivity.
Qed.

Lemma storedBlocks_length (f : nat) :
  forall data : list byte,
    (List.length data <= f)%nat ->
    (List.length data <= List.length (zlib.storedBlocks f data))%nat.
Proof.
  induction f as [|f IH]; intros data Hf.
  - destruct data; simpl in *; lia.
  - destruct data as [|d data']; [simpl; lia|].
    cbn [zlib.storedBlocks].
    set (dat := d :: data') in *.
    assert (Hcl : (0 < List.length (firstn zlib.maxStoreBlockSize dat))%nat).
    { rewrite length_firstn. unfold zlib.maxStoreBlockSize, dat.
      simpl List.length. lia. }
    rewrite <- (firstn_skipn zlib.maxStoreBlockSize dat) at 1.
    rewrite !length_app.
    assert (Hm : (List.length (skipn zlib.maxStoreBlockSize dat) <= f)%nat).
    { rewrite <- (firstn_skipn zlib.maxStoreBlockSize dat) in Hf.
      rewrite length_app in Hf. lia. }
    specialize (IH _ Hm). lia.
Qed.

(** Reading what the writer closed gives back what was written. *)
Lemma zlib_read_written (w : zlib.Writer) :
  exists r, zlib.NewReader (zlib.Close w) = Some r
            /\ zlib.ReadAll r = Some (zlib.pending w).
Proof.
  eexists. split; [reflexivity|].
  unfold zlib.ReadAll. cbn [zlib.body].
  rewrite inflate_stored.
  - cbn [app zlib.be32]. rewrite bytes_eqb_refl. reflexivity.
  - lia.
  - rewrite length_app.
    pose proof (storedBlocks_length (List.length (zlib.pending w))
                  (zlib.pending w) (Nat.le_refl _)).
    rewrite length_app. cbn [List.length zlib.storedHeader]. lia.
Qed.

End Zlib.


(** ** The JSON text of a document *)

Section JsonText.

Lemma plain_cons (b : byte) (s : list byte) :
  json.plain (b :: s) = true ->
  json.htmlSafe (Z_of_byte b) = true /\ json.plain s = true.
Proof. unfold json.plain. simpl. intros H. apply andb_true_iff in H. exact H. Qed.

Lemma htmlSafe_facts (b : byte) :
  json.htmlSafe (Z_of_byte b) = true ->
  (Z_of_byte b <? 0x80) = true
  /\ (Z_of_byte b <? 0x20) = false
  /\ Byte.eqb b json.quote = false
  /\ Byte.eqb b json.backslash = false.
Proof.
  unfold json.htmlSafe. intros H.
  repeat (apply andb_true_iff in H; destruct H as [H ?]).
  repeat match goal with
         | H : negb _ = true |- _ => apply negb_true_iff in H
         | H : (_ =? _) = false |- _ => apply Z.eqb_neq in H
         | H : (_ <=? _) = true |- _ => apply Z.leb_le in H
         | H : (_ <? _) = true |- _ => apply Z.ltb_lt in H
         end.
  repeat split.
  - apply Z.ltb_lt. lia.
  - apply Z.ltb_ge. lia.
  - apply byte_eqb_neq. assumption.
  - apply byte_eqb_neq. assumption.
Qed.

Lemma appendBody_plain (s : list byte) :
  json.plain s = true -> json.appendBody 0 true s = s.
Proof.
  induction s as [|b s IH]; intros H; [reflexivity|].
  apply plain_cons in H. destruct H as [Hb Hs].
  cbn [json.appendBody].
  destruct (htmlSafe_facts b Hb) as (H1 & _).
  rewrite H1, Hb, IH by assumption. reflexivity.
Qed.

Lemma scanString_plain (s rest : list byte) :
  json.plain s = true ->
  json.scanString 0 (s ++ json.quote :: rest) = Some (s, rest).
Proof.
  induction s as [|b s IH]; intros H.
  - cbn [app json.scanString]. rewrite byte_eqb_refl. reflexivity.
  - apply plain_cons in H. destruct H as [Hb Hs].
    destruct (htmlSafe_facts b Hb) as (_ & H2 & H3 & H4).
    cbn [app json.scanString]. rewrite H3, H4, H2, IH by assumption.
    reflexivity.
Qed.

Lemma unquoteBody_plain (s : list byte) :
  forall fuel, (List.length s <= fuel)%nat ->
  json.plain s = true -> json.unquoteBody fuel s = Some s.
Proof.
  induction s as [|b s IH]; intros fuel Hf H.
  - destruct fuel; reflexivity.
  - destruct fuel as [|fuel]; [simpl in Hf; lia|].
    apply plain_cons in H. destruct H as [Hb Hs].
    destruct (htmlSafe_facts b Hb) as (H1 & H2 & H3 & H4).
    cbn [json.unquoteBody]. rewrite H4, H3, H2, H1. cbn [orb].
    rewrite IH by (simpl in Hf; try lia; assumption). reflexivity.
Qed.

Lemma unquote_plain (s : list byte) :
  json.plain s = true -> json.unquote s = Some s.
Proof. intros H. apply unquoteBody_plain; [lia|assumption]. Qed.

(** What the scanner returns does not depend on what follows the closing
    quote. *)
Lemma scanString_extend (a : list byte) :
  forall (st : nat) (raw rest : list byte),
    json.scanString st (a ++ [json.quote]) = Some (raw, []) ->
    json.scanString st (a ++ json.quote :: rest) = Some (raw, rest).
Proof.
  induction a as [|b a IH]; intros st raw rest H.
  - destruct st as [|[|k]]; cbn [app json.scanString] in *.
    + rewrite byte_eqb_refl in *. injection H as <-. reflexivity.
    + change (existsb (Byte.eqb json.quote)
                (json.quote :: json.backslash :: bytes_of "/bfnrt")) with true in *.
      cbv iota in H. discriminate H.
    + change (json.hexValue json.quote) with (@None Z) in H. discriminate H.
  - cbn [app json.scanString] in *.
    assert (Hcons : forall st',
              match json.scanString st' (a ++ [json.quote]) with
              | Some (raw0, after) => Some (b :: raw0, after)
              | None => None
              end = Some (raw, []) ->
              match json.scanString st' (a ++ json.quote :: rest) with
              | Some (raw0, after) => Some (b :: raw0, after)
              | None => None
              end = Some (raw, rest)).
    { intros st' H'.
      destruct (json.scanString st' (a ++ [json.quote])) as [[raw0 after]|] eqn:E;
        [|discriminate H'].
      injection H' as <- ->. rewrite (IH st' raw0 rest E). reflexivity. }
    destruct st as [|[|k]].
    + destruct (Byte.eqb b json.quote).
      { injection H as _ H. destruct a; discriminate H. }
      destruct (Byte.eqb b json.backslash); [apply Hcons; exact H|].
      destruct (Z_of_byte b <? 32); [discriminate H|]. apply Hcons; exact H.
    + destruct (existsb (Byte.eqb b) _); [apply Hcons; exact H|].
      destruct (Byte.eqb b "u"); [apply Hcons; exact H|discriminate H].
    + destruct (json.hexValue b); [apply Hcons; exact H|discriminate H].
Qed.

(** A string that is read back is parsed from its literal, whatever
    follows. *)
Lemma parseValue_string (s rest : list byte) (fuel : nat) :
  json.readsBack s = true ->
  json.parseValue (S fuel) (json.appendString s ++ rest)
  = Some (json.JString s, rest).
Proof.
  unfold json.readsBack. intros H.
  destruct (json.scanString 0 (json.appendBody 0 true s ++ [json.quote]))
    as [[raw [|? ?]]|] eqn:E; try discriminate H.
  apply andb_true_iff in H. destruct H as [H1 H2].
  apply bytes_eqb_eq in H1. subst raw.
  destruct (json.unquote (json.appendBody 0 true s)) as [s'|] eqn:Eu;
    [|discriminate H2].
  apply bytes_eqb_eq in H2. subst s'.
  unfold json.appendString.
  cbn [app json.parseValue json.skipSpace].
  change (json.isSpace json.quote) with false. cbv iota.
  change (Byte.eqb json.quote "{") with false.
  change (Byte.eqb json.quote "[") with false.
  rewrite byte_eqb_refl. cbv iota.
  rewrite <- app_assoc. cbn [app].
  rewrite (scanString_extend _ _ _ rest E), Eu. reflexivity.
Qed.

(** The strings written as they are are read back. *)
Lemma plain_readsBack (s : list byte) :
  json.plain s = true -> json.readsBack s = true.
Proof.
  intros H. unfold json.readsBack.
  rewrite appendBody_plain by assumption.
  rewrite scanString_plain by assumption.
  rewrite unquote_plain by assumption.
  rewrite !bytes_eqb_refl. reflexivity.
Qed.

Lemma bytes_of_String (a : ascii) (s : string) :
  bytes_of (String a s) = byte_of_ascii a :: bytes_of s.
Proof. reflexivity. Qed.

Lemma uint_text_digits (d : Decimal.uint) :
  forallb strconv.isDigit (bytes_of (NilEmpty.string_of_uint d)) = true.
Proof.
  induction d; cbn [NilEmpty.string_of_uint]; rewrite ?bytes_of_String;
    cbn [forallb]; rewrite ?IHd; reflexivity.
Qed.

Lemma to_uint_head (p : positive) :
  Pos.to_uint p = Decimal.nzhead (Pos.to_uint p).
Proof.
  assert (E : Pos.to_uint p = Decimal.unorm (Pos.to_uint p)).
  { rewrite <- (DecimalPos.Unsigned.to_of (Pos.to_uint p)).
    rewrite DecimalPos.Unsigned.of_to. reflexivity. }
  rewrite E at 1. apply DecimalFacts.unorm_nzhead.
  intros Hn. apply DecimalFacts.unorm_0 in Hn.
  apply (DecimalPos.Unsigned.to_uint_nonzero p). congruence.
Qed.

(** The digits of a positive number: a first digit other than 0, then
    digits. *)
Lemma dec_shape (p : positive) :
  exists c ds, strconv.dec p = c :: ds
               /\ strconv.isDigit c = true
               /\ Byte.eqb c "0" = false
               /\ forallb strconv.isDigit ds = true.
Proof.
  unfold strconv.dec. pose proof (to_uint_head p) as E.
  pose proof (uint_text_digits (Pos.to_uint p)) as Hd.
  destruct (Pos.to_uint p) as [|d|d|d|d|d|d|d|d|d|d] eqn:Ep;
    try (cbn [NilEmpty.string_of_uint] in *; rewrite bytes_of_String in *;
         eexists; eexists; split; [reflexivity|];
         cbn [forallb] in Hd; apply andb_true_iff in Hd; destruct Hd as [H1 H2];
         split; [exact H1|]; split; [reflexivity|exact H2]).
  - exfalso. apply (DecimalPos.Unsigned.to_uint_nonnil p). exact Ep.
  - exfalso. symmetry in E. apply DecimalFacts.nzhead_nonzero in E. exact E.
Qed.

Lemma dec_value (p : positive) : strconv.digitsValue (strconv.dec p) = Some (Z.pos p).
Proof.
  destruct (dec_shape p) as (c & ds & E & _).
  unfold strconv.digitsValue. rewrite E, <- E.
  unfold strconv.dec at 1. rewrite uint_text_digits.
  unfold strconv.dec. rewrite string_of_bytes_of, NilEmpty.usu. cbn [option_map].
  unfold N.of_uint. rewrite DecimalPos.Unsigned.of_to. reflexivity.
Qed.

Lemma FormatUint_pos (p : positive) :
  bytes_of (strconv.FormatUint (Z.pos p)) = strconv.dec p.
Proof.
  unfold strconv.FormatUint, strconv.dec, NilZero.string_of_uint. cbn [Z.to_N N.to_uint].
  pose proof (DecimalPos.Unsigned.to_uint_nonnil p).
  destruct (Pos.to_uint p); [contradiction|reflexivity..].
Qed.

Lemma FormatInt_pos (p : positive) :
  bytes_of (strconv.FormatInt (Z.pos p)) = strconv.dec p.
Proof.
  unfold strconv.FormatInt, strconv.dec, NilZero.string_of_int, NilZero.string_of_uint.
  cbn [Z.to_int].
  pose proof (DecimalPos.Unsigned.to_uint_nonnil p).
  destruct (Pos.to_uint p); [contradiction|reflexivity..].
Qed.

Lemma FormatInt_neg (p : positive) :
  bytes_of (strconv.FormatInt (Z.neg p)) = "-"%byte :: strconv.dec p.
Proof.
  unfold strconv.FormatInt, strconv.dec, NilZero.string_of_int, NilZero.string_of_uint.
  cbn [Z.to_int].
  pose proof (DecimalPos.Unsigned.to_uint_nonnil p).
  destruct (Pos.to_uint p); [contradiction|reflexivity..].
Qed.

(** Decimal text is parsed back to its number. *)
Lemma ParseUint_FormatUint (n : Z) :
  0 < n < 2 ^ 64 ->
  strconv.ParseUint (bytes_of (strconv.FormatUint n)) = Some n.
Proof.
  intros Hn. destruct n as [|p|p]; try lia.
  rewrite FormatUint_pos. unfold strconv.ParseUint. rewrite dec_value.
  destruct (Z.ltb_spec (Z.pos p) (2 ^ 64)); [reflexivity|lia].
Qed.

Lemma isDigit_not_sign (c : byte) :
  strconv.isDigit c = true ->
  Byte.eqb c "-" = false /\ Byte.eqb c "+" = false.
Proof.
  unfold strconv.isDigit. intros H. apply andb_true_iff in H.
  destruct H as [H1 H2]. apply Z.leb_le in H1. apply Z.leb_le in H2.
  split; apply byte_eqb_neq; change (Z_of_byte "-") with 45;
    change (Z_of_byte "+") with 43; lia.
Qed.

Lemma ParseInt_FormatInt (z : Z) :
  z <> 0 -> int64_range z ->
  strconv.ParseInt (bytes_of (strconv.FormatInt z)) = Some z.
Proof.
  unfold int64_range, min_int64, max_int64. intros Hz Hr.
  destruct z as [|p|p]; [contradiction| |].
  - rewrite FormatInt_pos.
    destruct (dec_shape p) as (c & ds & E & Hc & _).
    unfold strconv.ParseInt. rewrite E.
    destruct (isDigit_not_sign c Hc) as [H1 H2]. rewrite H1, H2, <- E.
    rewrite dec_value.
    destruct (Z.ltb_spec (Z.pos p) (2 ^ 63)); [reflexivity|lia].
  - rewrite FormatInt_neg. unfold strconv.ParseInt.
    rewrite byte_eqb_refl, dec_value.
    destruct (Z.leb_spec (Z.pos p) (2 ^ 63)); [reflexivity|lia].
Qed.

Lemma spanDigits_app (ds rest : list byte) (c : byte) :
  forallb strconv.isDigit ds = true ->
  strconv.isDigit c = false ->
  json.spanDigits (ds ++ c :: rest) = (ds, c :: rest).
Proof.
  intros Hds Hc. induction ds as [|d ds IH].
  - cbn [app json.spanDigits]. unfold json.isDigit. rewrite Hc. reflexivity.
  - cbn [forallb] in Hds. apply andb_true_iff in Hds. destruct Hds as [Hd Hds].
    cbn [app json.spanDigits]. unfold json.isDigit at 1. rewrite Hd.
    rewrite IH by assumption. reflexivity.
Qed.

Lemma scanNumber_dec (p : positive) (c : byte) (rest : list byte) :
  json.delimiter c ->
  json.scanNumber (strconv.dec p ++ c :: rest) = Some (strconv.dec p, c :: rest).
Proof.
  intros Hc. destruct (dec_shape p) as (d & ds & E & Hd & Hd0 & Hds).
  rewrite E. unfold json.scanNumber. cbn [app].
  destruct (isDigit_not_sign d Hd) as [Hm _]. rewrite Hm.
  cbn [List.length skipn app]. rewrite Hd0.
  unfold json.isDigit. rewrite Hd.
  assert (Hcd : strconv.isDigit c = false) by (destruct Hc; subst; reflexivity).
  rewrite spanDigits_app by assumption. cbn [fst snd].
  unfold json.scanFrac, json.scanExp.
  destruct Hc; subst c; reflexivity.
Qed.

Lemma scanNumber_neg (p : positive) (c : byte) (rest : list byte) :
  json.delimiter c ->
  json.scanNumber ("-"%byte :: strconv.dec p ++ c :: rest)
  = Some ("-"%byte :: strconv.dec p, c :: rest).
Proof.
  intros Hc. destruct (dec_shape p) as (d & ds & E & Hd & Hd0 & Hds).
  rewrite E. unfold json.scanNumber. cbn [app].
  rewrite byte_eqb_refl. cbn [List.length skipn app]. rewrite Hd0.
  unfold json.isDigit. rewrite Hd.
  assert (Hcd : strconv.isDigit c = false) by (destruct Hc; subst; reflexivity).
  rewrite spanDigits_app by assumption. cbn [fst snd].
  unfold json.scanFrac, json.scanExp.
  destruct Hc; subst c; reflexivity.
Qed.

(** The first character of a number is none of those that open another
    kind of value, and is not white space. *)
Lemma number_start (c : byte) :
  strconv.isDigit c = true \/ c = "-"%byte ->
  json.isSpace c = false
  /\ Byte.eqb c "{" = false /\ Byte.eqb c "[" = false
  /\ Byte.eqb c json.quote = false /\ Byte.eqb c "t" = false
  /\ Byte.eqb c "f" = false /\ Byte.eqb c "n" = false.
Proof.
  intros [H| ->]; [|repeat split].
  unfold strconv.isDigit in H. apply andb_true_iff in H.
  destruct H as [H1 H2]. apply Z.leb_le in H1. apply Z.leb_le in H2.
  unfold json.isSpace.
  repeat split; rewrite ?orb_false_iff; repeat split;
    apply byte_eqb_neq;
    match goal with |- _ <> Z_of_byte ?x =>
      let v := eval vm_compute in (Z_of_byte x) in
      change (Z_of_byte x) with v end; lia.
Qed.

(** A number other than zero is read back, as its literal, from its
    decimal text followed by a delimiter. *)
Lemma parseValue_number (lit : list byte) (c : byte) (rest : list byte) (fuel : nat) :
  (exists p, lit = strconv.dec p \/ lit = "-"%byte :: strconv.dec p) ->
  json.delimiter c ->
  json.parseValue (S fuel) (lit ++ c :: rest) = Some (json.JNumber lit, c :: rest).
Proof.
  intros [p Hlit] Hc.
  destruct (dec_shape p) as (d & ds & E & Hd & _).
  assert (Hscan : json.scanNumber (lit ++ c :: rest) = Some (lit, c :: rest)).
  { destruct Hlit as [-> | ->];
      [apply scanNumber_dec | apply scanNumber_neg]; assumption. }
  assert (Hstart : exists x t, lit ++ c :: rest = x :: t
                     /\ (strconv.isDigit x = true \/ x = "-"%byte)).
  { destruct Hlit as [-> | ->]; rewrite E; cbn [app]; eauto 6. }
  destruct Hstart as (x & t & Ext & Hx). rewrite Ext in *.
  destruct (number_start x Hx) as (H0 & H1 & H2 & H3 & H4 & H5 & H6).
  cbn [json.parseValue json.skipSpace]. rewrite H0. cbv iota.
  rewrite H1, H2, H3, H4, H5, H6, Hscan. reflexivity.
Qed.

End JsonText.

(** ** The JSON object of a document *)

Section JsonObject.

Variable u : userSig.
Hypothesis Hu : wellFormedDoc u.

Lemma tag_plain (f : field) : json.plain (bytes_of (tag f)) = true.
Proof. destruct f; reflexivity. Qed.

Lemma findField_tag (f : field) : findField (bytes_of (tag f)) = Some f.
Proof. destruct f; vm_compute; reflexivity. Qed.

Lemma nonempty_number (n : Z) :
  (n =? 0) = false -> exists p, n = Z.pos p \/ n = Z.neg p.
Proof.
  intros H. apply Z.eqb_neq in H. destruct n as [|p|p];
    [contradiction|exists p; auto..].
Qed.

Lemma nonempty_slice (s : slice) :
  (blen (contents s) =? 0) = false ->
  omitEmpty s = Some (contents s).
Proof.
  destruct s as [[|x l]|]; simpl; intros H; try discriminate; reflexivity.
Qed.

Lemma encodeByteSlice_appendString (s : slice) :
  encodeByteSlice s
  = json.appendString (base64.encode base64.StdEncoding (contents s)).
Proof.
  unfold encodeByteSlice, json.appendString.
  rewrite appendBody_plain by apply base64_text_plain. reflexivity.
Qed.

(** The text of a field that is not empty is read back as its value. *)
Lemma parseValue_field (f : field) (c : byte) (rest : list byte) (fuel : nat) :
  isEmptyValue u f = false ->
  c = ","%byte \/ c = "}"%byte ->
  json.parseValue (S fuel) (encodeField u f ++ c :: rest)
  = Some (valueOf u f, c :: rest).
Proof.
  destruct Hu as (Hv & Hi & Ha & He & Ht).
  intros Hne Hc. destruct f; cbn [encodeField valueOf isEmptyValue] in *.
  - apply parseValue_string. exact Hv.
  - apply parseValue_string. exact Hi.
  - apply parseValue_number; [|exact Hc].
    destruct (nonempty_number _ Hne) as [p [E|E]]; rewrite E in *.
    + exists p. left. apply FormatUint_pos.
    + unfold uint64_range in Ha. lia.
  - apply parseValue_number; [|exact Hc].
    destruct (nonempty_number _ Hne) as [p [E|E]]; rewrite E.
    + exists p. left. apply FormatInt_pos.
    + exists p. right. apply FormatInt_neg.
  - apply parseValue_number; [|exact Hc].
    destruct (nonempty_number _ Hne) as [p [E|E]]; rewrite E.
    + exists p. left. apply FormatInt_pos.
    + exists p. right. apply FormatInt_neg.
  - rewrite encodeByteSlice_appendString.
    apply parseValue_string, plain_readsBack, base64_text_plain.
  - rewrite encodeByteSlice_appendString.
    apply parseValue_string, plain_readsBack, base64_text_plain.
Qed.

Lemma parseMembers_quote (fuel : nat) (t : list byte)
    (acc : list (list byte * json.value)) :
  json.parseMembers (S fuel) (json.quote :: t) acc =
  match json.scanString 0 t with
  | Some (raw, after) =>
      match json.unquote raw, json.skipSpace after with
      | Some key, c1 :: t1 =>
          if Byte.eqb c1 ":" then
            match json.parseValue fuel t1 with
            | Some (v, after') =>
                match json.skipSpace after' with
                | c2 :: t2 =>
                    if Byte.eqb c2 "," then
                      json.parseMembers fuel t2 ((key, v) :: acc)
                    else if Byte.eqb c2 "}" then
                      Some (json.JObject (rev ((key, v) :: acc)), t2)
                    else None
                | [] => None
                end
            | None => None
            end
          else None
      | _, _ => None
      end
  | None => None
  end.
Proof. reflexivity. Qed.

(** One member, followed by a comma or by the closing brace. *)
Lemma parseMembers_member (f : field) (c : byte) (rest : list byte)
    (acc : list (list byte * json.value)) (fuel : nat) :
  isEmptyValue u f = false ->
  c = ","%byte \/ c = "}"%byte ->
  json.parseMembers (S (S fuel)) (memberText u f ++ c :: rest) acc
  = if Byte.eqb c ","
    then json.parseMembers (S fuel) rest ((bytes_of (tag f), valueOf u f) :: acc)
    else Some (json.JObject (rev ((bytes_of (tag f), valueOf u f) :: acc)), rest).
Proof.
  intros Hne Hc. unfold memberText, json.appendString.
  rewrite appendBody_plain by apply tag_plain.
  cbn [app]. rewrite <- !app_assoc.
  rewrite parseMembers_quote.
  cbn [app]. rewrite scanString_plain by apply tag_plain.
  rewrite unquote_plain by apply tag_plain.
  change (bytes_of ":") with [":"%byte].
  cbn [app json.skipSpace].
  change (json.isSpace ":") with false. cbv iota.
  rewrite byte_eqb_refl.
  rewrite parseValue_field by assumption.
  destruct Hc; subst c; reflexivity.
Qed.

(** The text written after a first member: the other members, each after a
    comma. *)
Lemma parseMembers_rest (fs : list field) :
  forall (f : field) (acc : list (list byte * json.value)) (rest : list byte)
         (fuel : nat),
    isEmptyValue u f = false ->
    (List.length fs + 2 <= fuel)%nat ->
    json.parseMembers fuel
      (memberText u f ++ encodeMembers u false fs ++ "}"%byte :: rest) acc
    = Some (json.JObject (rev acc ++ (bytes_of (tag f), valueOf u f)
                            :: members u fs), rest).
Proof.
  induction fs as [|g fs IH]; intros f acc rest fuel Hne Hfuel.
  - destruct fuel as [|[|fuel]]; try (simpl in Hfuel; lia).
    cbn [encodeMembers app members flat_map].
    rewrite parseMembers_member by auto.
    reflexivity.
  - cbn [encodeMembers members flat_map].
    destruct (isEmptyValue u g) eqn:Hg.
    + cbn [app]. apply IH; [assumption|simpl in Hfuel; lia].
    + destruct fuel as [|[|fuel]]; try (simpl in Hfuel; lia).
      change (bytes_of ",") with [","%byte].
      cbn [app]. rewrite <- !app_assoc.
      rewrite parseMembers_member by auto.
      cbn [Byte.eqb]. change (Byte.eqb "," ",") with true. cbv iota.
      fold (memberText u g).
      pose proof (IH g ((bytes_of (tag f), valueOf u f) :: acc) rest (S fuel) Hg)
        as IH'.
      unfold memberText in IH'. rewrite <- !app_assoc in IH'.
      rewrite IH' by (simpl in Hfuel; lia).
      cbn [rev]. rewrite <- app_assoc. reflexivity.
Qed.

(** The members before the first one that is written are all empty. *)
Lemma encodeMembers_first (fs : list field) :
  (encodeMembers u true fs = [] /\ members u fs = [])
  \/ exists f fs',
       encodeMembers u true fs = memberText u f ++ encodeMembers u false fs'
       /\ members u fs = (bytes_of (tag f), valueOf u f) :: members u fs'
       /\ isEmptyValue u f = false
       /\ (List.length fs' < List.length fs)%nat.
Proof.
  induction fs as [|g fs IH]; [left; split; reflexivity|].
  cbn [encodeMembers members flat_map].
  destruct (isEmptyValue u g) eqn:Hg.
  - destruct IH as [[E1 E2]|(f & fs' & E1 & E2 & E3 & E4)].
    + left. split; assumption.
    + right. exists f, fs'. cbn [app List.length]. repeat split; auto.
  - right. exists g, fs. cbn [app List.length].
    repeat split; auto. unfold memberText. rewrite <- !app_assoc. reflexivity.
Qed.

Lemma memberText_first (f : field) :
  exists t, memberText u f = json.quote :: t.
Proof.
  unfold memberText, json.appendString. cbn [app]. eauto.
Qed.

Lemma parseValue_brace (fuel : nat) (t : list byte) :
  json.parseValue (S fuel) ("{"%byte :: json.quote :: t)
  = json.parseMembers fuel (json.quote :: t) [].
Proof. reflexivity. Qed.

(** The text of a document parses to the object of its members. *)
Lemma parse_Marshal :
  json.parse (json_Marshal u ++ [x0a]) = Some (json.JObject (members u fields)).
Proof.
  unfold json.parse, json_Marshal.
  set (fuel := List.length _).
  assert (Hfuel : (9 <= fuel)%nat \/ encodeMembers u true fields = []).
  { destruct (encodeMembers_first fields) as [[E _]|(f & fs' & E & _ & _ & _)];
      [right; exact E|left].
    subst fuel. rewrite E. unfold memberText, json.appendString.
    rewrite !length_app. cbn [List.length].
    rewrite !length_app.
    assert (7 <= List.length (json.appendBody 0 true (bytes_of (tag f))))%nat
      by (rewrite appendBody_plain by apply tag_plain; destruct f; simpl; lia).
    cbn [List.length]. lia. }
  change (bytes_of "{") with ["{"%byte]. change (bytes_of "}") with ["}"%byte].
  rewrite <- !app_assoc. cbn [app].
  destruct (encodeMembers_first fields) as [[E1 E2]|(f & fs' & E1 & E2 & E3 & E4)].
  - rewrite E1, E2. reflexivity.
  - destruct Hfuel as [Hfuel|Hfuel];
      [|rewrite E1 in Hfuel; destruct (memberText_first f) as [t Et];
        rewrite Et in Hfuel; discriminate].
    rewrite E1, E2.
    destruct (memberText_first f) as [t Et].
    rewrite <- app_assoc. rewrite Et. cbn [app].
    rewrite parseValue_brace.
    change (json.quote :: t ++ encodeMembers u false fs' ++ ["}"%byte; x0a])
      with ((json.quote :: t) ++ encodeMembers u false fs' ++ "}"%byte :: [x0a]).
    rewrite <- Et.
    rewrite (parseMembers_rest fs' f [] [x0a] fuel E3)
      by (simpl in E4; lia).
    reflexivity.
Qed.

Lemma setField_valueOf (u0 : userSig) (f : field) :
  isEmptyValue u f = false ->
  setField u0 f (valueOf u f) = Some (assign u f u0).
Proof.
  destruct Hu as (Hv & Hi & Ha & He & Ht). unfold uint64_range in Ha.
  intros Hne. destruct f; cbn [valueOf setField assign isEmptyValue] in *.
  - rewrite string_of_bytes_of. reflexivity.
  - rewrite string_of_bytes_of. reflexivity.
  - rewrite ParseUint_FormatUint; [reflexivity|].
    apply Z.eqb_neq in Hne. lia.
  - rewrite ParseInt_FormatInt; [reflexivity| |assumption].
    apply Z.eqb_neq in Hne. exact Hne.
  - rewrite ParseInt_FormatInt; [reflexivity| |assumption].
    apply Z.eqb_neq in Hne. exact Hne.
  - unfold sliceOfValue.
    rewrite (base64_DecodeString_encode _ StdEncoding_wellFormed).
    cbn [option_map]. rewrite nonempty_slice by assumption. reflexivity.
  - unfold sliceOfValue.
    rewrite (base64_DecodeString_encode _ StdEncoding_wellFormed).
    cbn [option_map]. rewrite nonempty_slice by assumption. reflexivity.
Qed.

Lemma setMembers_members (fs : list field) :
  forall u0 : userSig,
    setMembers u0 (members u fs)
    = Some (fold_left (fun acc f => if isEmptyValue u f then acc
                                    else assign u f acc) fs u0).
Proof.
  induction fs as [|f fs IH]; intros u0; [reflexivity|].
  cbn [members flat_map fold_left].
  destruct (isEmptyValue u f) eqn:Hf.
  - cbn [app]. apply IH.
  - cbn [app setMembers]. rewrite findField_tag, setField_valueOf by assumption.
    apply IH.
Qed.

Lemma empty_string (s : string) : (len s =? 0) = true -> s = ""%string.
Proof.
  destruct s; [reflexivity|]. unfold len. simpl String.length.
  intros H. apply Z.eqb_eq in H. lia.
Qed.

Lemma empty_slice (s : slice) :
  (blen (contents s) =? 0) = true -> omitEmpty s = None.
Proof.
  destruct s as [[|x l]|]; simpl; intros H; try reflexivity; discriminate.
Qed.

(** Storing the members of [u] in the zero document gives what is read back
    of [u]: an empty field keeps the zero value, which is its value. *)
Lemma assign_all :
  fold_left (fun acc f => if isEmptyValue u f then acc else assign u f acc)
            fields zero
  = readBack u.
Proof.
  clear Hu. destruct u as [v i a e t b s].
  unfold fields, readBack, zero, len, blen.
  cbn [fold_left isEmptyValue Version Identifier SdkAppID Expire Time UserBuf Sig].
  destruct v, i, (Z.eqb_spec a 0), (Z.eqb_spec e 0), (Z.eqb_spec t 0),
    b as [[|? ?]|], s as [[|? ?]|]; subst; reflexivity.
Qed.

(** The decoder reads back the text the encoder wrote. *)
Lemma Unmarshal_Marshal :
  json_Unmarshal (json_Marshal u ++ [x0a]) = (readBack u, None).
Proof.
  unfold json_Unmarshal.
  rewrite parse_Marshal, setMembers_members, assign_all. reflexivity.
Qed.

End JsonObject.

(** ** The envelope *)

Section Envelope.

Lemma block_length (h : list Z) (blk : list byte) :
  List.length h = 8%nat -> List.length (sha256.block h blk) = 8%nat.
Proof.
  intros H. unfold sha256.block.
  rewrite length_map, length_combine, H. reflexivity.
Qed.

Lemma blocks_length (n : nat) :
  forall (h : list Z) (b : list byte),
    List.length h = 8%nat -> List.length (sha256.blocks n h b) = 8%nat.
Proof.
  induction n as [|n IH]; intros h b H; [exact H|].
  cbn [sha256.blocks]. apply IH, block_length, H.
Qed.

Lemma Sum256_length (msg : list byte) : List.length (sha256.Sum256 msg) = 32%nat.
Proof.
  unfold sha256.Sum256.
  pose proof (blocks_length (List.length (sha256.pad msg) / 64) sha256.init
                (sha256.pad msg) eq_refl) as H.
  destruct (sha256.blocks _ _ _) as [|a [|b [|c [|d [|e [|f [|g [|h [|? ?]]]]]]]]];
    try discriminate.
  reflexivity.
Qed.

(** A MAC has 32 bytes. *)
Lemma sign_length (u : userSig) (key : string) :
  List.length (sign u key) = 32%nat.
Proof.
  unfold sign, hmac.Sum. cbn [contents app].
  unfold hmac.HMAC_SHA256. apply Sum256_length.
Qed.

Lemma sign_kept (u : userSig) (key : string) :
  omitEmpty (Some (sign u key)) = Some (sign u key).
Proof.
  pose proof (sign_length u key) as H.
  destruct (sign u key); [discriminate|reflexivity].
Qed.

(** [sign] does not read the signature of the document. *)
Lemma sign_ignores_Sig (ver identifier : string) (appid expire time : Z)
    (userbuf s1 s2 : slice) (key : string) :
  sign (mkUserSig ver identifier appid expire time userbuf s1) key
  = sign (mkUserSig ver identifier appid expire time userbuf s2) key.
Proof. reflexivity. Qed.

(** Unpacking what [genSig] packed gives the signed document as it is read
    back from its JSON text. *)
Lemma newUserSig_genSig (currTime sdkappid : Z) (key identifier : string)
    (expire : Z) (userbuf : slice) :
  json.readsBack (bytes_of identifier) = true ->
  int64_range expire ->
  int64_range currTime ->
  snd (genSig currTime sdkappid key identifier expire userbuf) = None
  /\ newUserSig (fst (genSig currTime sdkappid key identifier expire userbuf))
     = (mkUserSig "2.0" identifier (to_uint64 sdkappid) expire currTime
          (omitEmpty userbuf)
          (Some (sign (mkUserSig "2.0" identifier (to_uint64 sdkappid) expire
                         currTime userbuf None) key)),
        None).
Proof.
  intros Hid He Ht.
  unfold genSig, json_Encode, writer_Close, newZlibWriter.
  cbn [fst snd Version Identifier SdkAppID Expire Time UserBuf].
  split; [reflexivity|].
  set (doc := mkUserSig "2.0" identifier (to_uint64 sdkappid) expire currTime
                userbuf (Some _)).
  assert (Hdoc : wellFormedDoc doc).
  { unfold wellFormedDoc, doc. cbn [Version Identifier SdkAppID Expire Time].
    split; [reflexivity|]. split; [assumption|].
    split; [unfold uint64_range, to_uint64; apply Z.mod_pos_bound; lia|].
    split; assumption. }
  unfold newUserSig, base64urlDecode, base64.EncodeToString.
  rewrite bytes_of_string_of.
  rewrite (base64_DecodeString_encode _ base64url_wellFormed).
  destruct (zlib_read_written (zlib.Write (zlib.mkWriter [])
              (json_Marshal doc ++ [x0a]))) as (r & Hr1 & Hr2).
  unfold zlib_NewReader, ioutil_ReadAll, reader_Close.
  rewrite Hr1, Hr2.
  unfold zlib.Write. cbn [zlib.pending app].
  rewrite (Unmarshal_Marshal doc Hdoc).
  unfold readBack, doc. cbn [Version Identifier SdkAppID Expire Time UserBuf Sig].
  rewrite sign_kept. reflexivity.
Qed.

End Envelope.

(** ** Issuing and verifying *)

(** C5 as stated fails in two ways.  With [expire = math.MaxInt64] the sum
    [Time + Expire] wraps and the token is expired when it is issued; with
    an identity that is not valid UTF-8 the JSON text carries U+FFFD in its
    place and the identifier read back differs. *)
Lemma issue_then_verify_fails :
  0 < 9223372036854775807
  /\ snd (GenUserSig 1700000000 1400000000 "secret" "alice" 9223372036854775807)
     = None
  /\ VerifyUserSig 1400000000 "secret" "alice"
       (fst (GenUserSig 1700000000 1400000000 "secret" "alice"
                        9223372036854775807))
       1700000000
     = Some ErrExpired
  /\ snd (GenUserSig 1700000000 1400000000 "secret" (string_of [xff]) 86400)
     = None
  /\ VerifyUserSig 1400000000 "secret" (string_of [xff])
       (fst (GenUserSig 1700000000 1400000000 "secret" (string_of [xff]) 86400))
       1700000000
     = Some ErrIdentifierNotMatch.
Proof.
  split; [reflexivity|]. split; [vm_compute; reflexivity|].
  split; [vm_compute; reflexivity|]. split; vm_compute; reflexivity.
Qed.

(** C5, amended. For an identity of printable ASCII characters other than
    the double quote, the backslash, [<], [>] and [&], any application id and
    key, a time of issue and a duration [expire > 0] of type [int64] with
    [currTime + expire <= math.MaxInt64]: [GenUserSig] returns a token and no
    error, unpacking the token gives back the signed document, and
    [VerifyUserSig] with the same application id, key and identity at
    [now = currTime] returns nil. *)
Theorem issue_then_verify :
  forall (currTime sdkappid : Z) (key identity : string) (expire : Z),
    json.readsBack (bytes_of identity) = true ->
    int64_range currTime ->
    int64_range expire ->
    0 < expire ->
    currTime + expire <= max_int64 ->
    snd (GenUserSig currTime sdkappid key identity expire) = None
    /\ newUserSig (fst (GenUserSig currTime sdkappid key identity expire))
       = (mkUserSig "2.0" identity (to_uint64 sdkappid) expire currTime None
            (Some (sign (mkUserSig "2.0" identity (to_uint64 sdkappid) expire
                           currTime None None) key)),
          None)
    /\ VerifyUserSig (to_uint64 sdkappid) key identity
         (fst (GenUserSig currTime sdkappid key identity expire)) currTime
       = None.
Proof.
  intros currTime sdkappid key identity expire Hid Ht He Hpos Hsum.
  unfold GenUserSig.
  destruct (newUserSig_genSig currTime sdkappid key identity expire None
              Hid He Ht) as [Herr Hnew].
  cbn [omitEmpty] in Hnew.
  split; [exact Herr|]. split; [exact Hnew|].
  unfold VerifyUserSig. rewrite Hnew.
  apply verify_nil_iff.
  cbn [SdkAppID Identifier Time Expire UserBuf Sig contents non_nil].
  repeat split.
  rewrite wrap64_small; [lia|].
  unfold int64_range, min_int64, max_int64 in *. lia.
Qed.

Lemma issue_then_verify_witness :
  VerifyUserSig (to_uint64 1400000000) "secret" "alice"
    (fst (GenUserSig 1700000000 1400000000 "secret" "alice" 86400)) 1700000000
  = None.
Proof.
  refine (proj2 (proj2 (issue_then_verify 1700000000 1400000000 "secret" "alice"
                          86400 _ _ _ _ _))).
  - vm_compute. reflexivity.
  - unfold int64_range, min_int64, max_int64. lia.
  - unfold int64_range, min_int64, max_int64. lia.
  - lia.
  - unfold max_int64. lia.
Defined.

(** A token issued with an empty buffer that is not nil meets the earlier
    checks first on the inputs that defeat the round trip: with
    [expire = math.MaxInt64] both entry points return [ErrExpired] at the time
    of issue, and with an identity that is not valid UTF-8 both return
    [ErrIdentifierNotMatch]. *)
Lemma empty_buffer_token_other_errors :
  VerifyUserSigWithBuf 1400000000 "secret" "alice"
    (fst (GenUserSigWithBuf 1700000000 1400000000 "secret" "alice"
                            9223372036854775807 (Some [])))
    1700000000 (Some [])
  = Some ErrExpired
  /\ VerifyUserSig 1400000000 "secret" "alice"
       (fst (GenUserSigWithBuf 1700000000 1400000000 "secret" "alice"
                               9223372036854775807 (Some [])))
       1700000000
     = Some ErrExpired
  /\ VerifyUserSigWithBuf 1400000000 "secret" (string_of [xff])
       (fst (GenUserSigWithBuf 1700000000 1400000000 "secret" (string_of [xff])
                               86400 (Some [])))
       1700000000 (Some [])
     = Some ErrIdentifierNotMatch
  /\ VerifyUserSig 1400000000 "secret" (string_of [xff])
       (fst (GenUserSigWithBuf 1700000000 1400000000 "secret" (string_of [xff])
                               86400 (Some [])))
       1700000000
     = Some ErrIdentifierNotMatch.
Proof.
  split; [vm_compute; reflexivity|]. split; [vm_compute; reflexivity|].
  split; vm_compute; reflexivity.
Qed.

(** The token of an empty buffer that is not nil.  Take an identity that is
    read back from its JSON literal, a time of issue and a duration of type
    [int64] whose sum is in range.  The JSON text omits the buffer, so the
    document unpacked has a nil buffer, while its signature was computed with
    the userbuf line.  With the same application id and identity:
    [VerifyUserSigWithBuf] with any expected buffer that is not nil never
    returns nil, and returns [ErrUserBufTypeNotMatch] at every
    [now <= currTime + expire].  What [VerifyUserSig] returns is decided by
    two MACs, that of the message without the userbuf line and that of the
    message with it: nil only if they are equal, [ErrSigNotMatch] at every
    [now <= currTime + expire] if they differ.  Whether the two MACs can be
    equal for some key is a question about HMAC-SHA256 that is left open
    here. *)
Lemma empty_buffer_token :
  forall (currTime sdkappid : Z) (key identity : string) (expire : Z),
    json.readsBack (bytes_of identity) = true ->
    int64_range currTime ->
    int64_range expire ->
    int64_range (currTime + expire) ->
    let token :=
      fst (GenUserSigWithBuf currTime sdkappid key identity expire (Some [])) in
    let withLine :=
      sign (mkUserSig "2.0" identity (to_uint64 sdkappid) expire currTime
                      (Some []) None) key in
    let withoutLine :=
      sign (mkUserSig "2.0" identity (to_uint64 sdkappid) expire currTime
                      None None) key in
    snd (GenUserSigWithBuf currTime sdkappid key identity expire (Some [])) = None
    /\ newUserSig token
       = (mkUserSig "2.0" identity (to_uint64 sdkappid) expire currTime None
                    (Some withLine), None)
    /\ (forall now userbuf, userbuf <> None ->
          VerifyUserSigWithBuf (to_uint64 sdkappid) key identity token now userbuf
          <> None)
    /\ (forall now userbuf, userbuf <> None -> now <= currTime + expire ->
          VerifyUserSigWithBuf (to_uint64 sdkappid) key identity token now userbuf
          = Some ErrUserBufTypeNotMatch)
    /\ (forall now,
          VerifyUserSig (to_uint64 sdkappid) key identity token now = None ->
          withoutLine = withLine)
    /\ (forall now, now <= currTime + expire -> withoutLine <> withLine ->
          VerifyUserSig (to_uint64 sdkappid) key identity token now
          = Some ErrSigNotMatch).
Proof.
  intros currTime sdkappid key identity expire Hid Ht He Hsum token withLine
         withoutLine.
  destruct (newUserSig_genSig currTime sdkappid key identity expire (Some [])
              Hid He Ht) as [Herr Hnew].
  cbn [omitEmpty] in Hnew. fold withLine in Hnew.
  unfold GenUserSigWithBuf in *. fold token in Hnew.
  split; [exact Herr|]. split; [exact Hnew|].
  unfold VerifyUserSigWithBuf, VerifyUserSig. rewrite Hnew.
  set (doc := mkUserSig "2.0" identity (to_uint64 sdkappid) expire currTime None
                (Some withLine)).
  assert (Hsign : sign doc key = withoutLine) by reflexivity.
  assert (Hw : wrap64 (Time doc + Expire doc) = currTime + expire)
    by (apply wrap64_small; exact Hsum).
  split; [|split; [|split]].
  - intros now userbuf Hb Hnil. apply verify_nil_iff in Hnil.
    destruct Hnil as (_ & _ & _ & Hp & _).
    destruct userbuf; [discriminate|contradiction].
  - intros now userbuf Hb Hnow.
    rewrite verify_reaches_userbuf by (try reflexivity; rewrite Hw; exact Hnow).
    destruct userbuf; [reflexivity|contradiction].
  - intros now Hnil. apply verify_nil_iff in Hnil.
    destruct Hnil as (_ & _ & _ & _ & _ & Hs).
    rewrite Hsign in Hs. exact Hs.
  - intros now Hnow Hdiff.
    rewrite verify_reaches_userbuf by (try reflexivity; rewrite Hw; exact Hnow).
    cbn [UserBuf doc Sig contents]. rewrite Hsign.
    destruct (bytes_eqb withoutLine withLine) eqn:E; [|reflexivity].
    apply bytes_eqb_eq in E. contradiction.
Qed.

Lemma empty_buffer_token_witness :
  VerifyUserSigWithBuf (to_uint64 1400000000) "secret" "alice"
    (fst (GenUserSigWithBuf 1700000000 1400000000 "secret" "alice" 86400
                            (Some [])))
    1700000000 (Some [])
  = Some ErrUserBufTypeNotMatch
  /\ VerifyUserSig (to_uint64 1400000000) "secret" "alice"
       (fst (GenUserSigWithBuf 1700000000 1400000000 "secret" "alice" 86400
                               (Some [])))
       1700000000
     = Some ErrSigNotMatch.
Proof.
  assert (H1 : json.readsBack (bytes_of "alice") = true)
    by (vm_compute; reflexivity).
  assert (H2 : int64_range 1700000000)
    by (unfold int64_range, min_int64, max_int64; lia).
  assert (H3 : int64_range 86400)
    by (unfold int64_range, min_int64, max_int64; lia).
  assert (H4 : int64_range (1700000000 + 86400))
    by (unfold int64_range, min_int64, max_int64; lia).
  pose proof (empty_buffer_token 1700000000 1400000000 "secret" "alice" 86400
                H1 H2 H3 H4) as H.
  cbv zeta in H. destruct H as (_ & _ & _ & Hbuf & _ & Hsig).
  split.
  - apply Hbuf; [discriminate|lia].
  - apply Hsig; [lia|]. vm_compute. intros E. discriminate E.
Defined.

(** ** Unpacking input that is not a token *)

(** C1, the failing input. The text below is URL-safe base64 of a zlib
    stream whose content is the single byte [x], which is not JSON.  The
    first two stages succeed, [json.Unmarshal] reports an error, and
    [newUserSig] returns the zero document with a nil error. *)
Theorem newUserSig_drops_json_error :
  snd (base64urlDecode "eAEAAQD-_3gBAAD__wB5AHk=") = None
  /\ snd (zlib_NewReader (fst (base64urlDecode "eAEAAQD-_3gBAAD__wB5AHk="))) = None
  /\ ioutil_ReadAll
       (fst (zlib_NewReader (fst (base64urlDecode "eAEAAQD-_3gBAAD__wB5AHk="))))
     = (bytes_of "x", None)
  /\ snd (json_Unmarshal (bytes_of "x")) = Some ErrJSON
  /\ newUserSig "eAEAAQD-_3gBAAD__wB5AHk=" = (zero, None).
Proof.
  split; [vm_compute; reflexivity|]. split; [vm_compute; reflexivity|].
  split; [vm_compute; reflexivity|]. split; vm_compute; reflexivity.
Qed.

(** Whatever [json.Unmarshal] says, [newUserSig] reports no error once the
    text is decoded and decompressed; the errors of the first two stages are
    returned. *)
Lemma newUserSig_error (usersig : string) :
  snd (newUserSig usersig) =
  match base64urlDecode usersig with
  | (_, Some err) => Some err
  | (b, None) =>
      match zlib_NewReader b with
      | (_, Some err) => Some err
      | (r, None) => snd (ioutil_ReadAll r)
      end
  end.
Proof.
  unfold newUserSig.
  destruct (base64urlDecode usersig) as [b [e|]]; [reflexivity|].
  destruct (zlib_NewReader b) as [r [e|]]; [reflexivity|].
  destruct (ioutil_ReadAll r) as [data [e|]]; [reflexivity|].
  cbn [reader_Close snd].
  destruct (json_Unmarshal data) as [sig [e|]]; reflexivity.
Qed.


(** The caller of [VerifyUserSig] is told of an application id mismatch for
    the input of C1. *)
Example VerifyUserSig_not_json :
  VerifyUserSig 1400000000 "secret" "alice" "eAEAAQD-_3gBAAD__wB5AHk="
                1700000000
  = Some ErrSdkAppIDNotMatch.
Proof. vm_compute. reflexivity. Qed.

(** ** Nil and empty user buffers *)

(** The messages signed for a nil and for an empty buffer differ by the
    line [TLS.userbuf:] with nothing after the colon. *)
Lemma empty_buffer_message (ver identifier : string) (appid expire time : Z)
    (sig : slice) (key : string) :
  exists m : list byte,
    sign (mkUserSig ver identifier appid expire time None sig) key
    = hmac.HMAC_SHA256 (bytes_of key) m
    /\ sign (mkUserSig ver identifier appid expire time (Some []) sig) key
       = hmac.HMAC_SHA256 (bytes_of key) (m ++ bytes_of "TLS.userbuf:" ++ [x0a])
    /\ m <> m ++ bytes_of "TLS.userbuf:" ++ [x0a].
Proof.
  exists (bytes_of "TLS.identifier:" ++ bytes_of identifier ++ [x0a]
          ++ bytes_of "TLS.sdkappid:" ++ bytes_of (strconv.FormatUint appid)
          ++ [x0a]
          ++ bytes_of "TLS.time:" ++ bytes_of (strconv.FormatInt time) ++ [x0a]
          ++ bytes_of "TLS.expire:" ++ bytes_of (strconv.FormatInt expire)
          ++ [x0a]).
  split; [|split].
  - rewrite sign_message. cbn [UserBuf Identifier SdkAppID Time Expire].
    rewrite app_nil_r. reflexivity.
  - rewrite sign_message. cbn [UserBuf Identifier SdkAppID Time Expire].
    change (bytes_of (base64.EncodeToString base64.StdEncoding [])) with (@nil byte).
    rewrite <- !app_assoc. reflexivity.
  - intros E. apply (f_equal (@List.length byte)) in E.
    rewrite (length_app _ (bytes_of "TLS.userbuf:" ++ [x0a])) in E.
    change (List.length (bytes_of "TLS.userbuf:" ++ [x0a])) with 13%nat in E.
    lia.
Qed.

(** A verifier that expects no buffer gets past the buffer check with the
    nil-buffer document and stops at it with the empty-buffer one. *)
Lemma empty_buffer_verify (ver identifier : string) (appid expire time : Z)
    (sig : slice) (key : string) (now : Z) :
  now <= wrap64 (time + expire) ->
  (verify (mkUserSig ver identifier appid expire time None sig)
          appid key identifier now None = None
   \/ verify (mkUserSig ver identifier appid expire time None sig)
             appid key identifier now None = Some ErrSigNotMatch)
  /\ verify (mkUserSig ver identifier appid expire time (Some []) sig)
            appid key identifier now None = Some ErrUserBufTypeNotMatch.
Proof.
  intros Hnow. rewrite !verify_reaches_userbuf by (try reflexivity; exact Hnow).
  cbn [UserBuf]. split; [|reflexivity]. cbv zeta.
  destruct (bytes_eqb _ _); auto.
Qed.

(** For this key and document the two MACs differ. *)
Example empty_buffer_macs_differ :
  sign (mkUserSig "2.0" "alice" 1400000000 86400 1700000000 None None) "secret"
  <> sign (mkUserSig "2.0" "alice" 1400000000 86400 1700000000 (Some []) None)
          "secret".
Proof. vm_compute. intros E. discriminate E. Qed.

(** * Further properties of the entry points *)

(** ** Tokens of signed documents *)

Section SignedDocuments.

Lemma omitEmpty_kept (buf : list byte) :
  buf <> [] -> omitEmpty (Some buf) = Some buf.
Proof. destruct buf; [contradiction|reflexivity]. Qed.

(** What [verify] says of a document that carries its own MAC, once the
    first three checks have passed: only the buffers decide. *)
Lemma verify_signed (ver id : string) (appid expire time : Z) (ub s0 : slice)
    (key : string) (now : Z) (userbuf : slice) :
  now <= wrap64 (time + expire) ->
  verify (mkUserSig ver id appid expire time ub
            (Some (sign (mkUserSig ver id appid expire time ub s0) key)))
         appid key id now userbuf
  = match userbuf, ub with
    | Some _, None | None, Some _ => Some ErrUserBufTypeNotMatch
    | Some a, Some b => if bytes_eqb a b then None else Some ErrUserBufNotMatch
    | None, None => None
    end.
Proof.
  intros Hnow.
  rewrite verify_reaches_userbuf by (try reflexivity; exact Hnow).
  cbn [UserBuf Sig contents].
  rewrite (sign_ignores_Sig ver id appid expire time ub _ s0), bytes_eqb_refl.
  reflexivity.
Qed.

(** The document a token of [genSig] is unpacked to. *)
Lemma genSig_unpacked (currTime sdkappid : Z) (key identifier : string)
    (expire : Z) (userbuf : slice) :
  json.readsBack (bytes_of identifier) = true ->
  int64_range expire ->
  int64_range currTime ->
  newUserSig (fst (genSig currTime sdkappid key identifier expire userbuf))
  = (mkUserSig "2.0" identifier (to_uint64 sdkappid) expire currTime
       (omitEmpty userbuf)
       (Some (sign (mkUserSig "2.0" identifier (to_uint64 sdkappid) expire
                      currTime userbuf None) key)),
     None).
Proof. intros Hid He Ht. apply newUserSig_genSig; assumption. Qed.

End SignedDocuments.

(** X1. A token issued by [GenUserSigWithBuf] with a buffer that is not
    empty is accepted by [VerifyUserSigWithBuf] with the same application
    id, key, identity and buffer at every time up to its expiry; with
    another buffer the answer is [ErrUserBufNotMatch], and [VerifyUserSig],
    which expects no buffer, answers [ErrUserBufTypeNotMatch]. *)
Theorem buffered_token_verifies :
  forall (currTime sdkappid : Z) (key identity : string) (expire : Z)
         (buf : list byte) (now : Z),
    json.readsBack (bytes_of identity) = true ->
    int64_range currTime ->
    int64_range expire ->
    int64_range (currTime + expire) ->
    buf <> [] ->
    now <= currTime + expire ->
    let token :=
      fst (GenUserSigWithBuf currTime sdkappid key identity expire (Some buf)) in
    snd (GenUserSigWithBuf currTime sdkappid key identity expire (Some buf)) = None
    /\ VerifyUserSigWithBuf (to_uint64 sdkappid) key identity token now (Some buf)
       = None
    /\ (forall other : list byte, other <> buf ->
          VerifyUserSigWithBuf (to_uint64 sdkappid) key identity token now
                               (Some other)
          = Some ErrUserBufNotMatch)
    /\ VerifyUserSig (to_uint64 sdkappid) key identity token now
       = Some ErrUserBufTypeNotMatch.
Proof.
  intros currTime sdkappid key identity expire buf now Hid Ht He Hsum Hbuf Hnow
         token.
  assert (Hw : now <= wrap64 (currTime + expire))
    by (rewrite wrap64_small by exact Hsum; exact Hnow).
  pose proof (genSig_unpacked currTime sdkappid key identity expire (Some buf)
                Hid He Ht) as Hnew.
  rewrite omitEmpty_kept in Hnew by exact Hbuf.
  unfold GenUserSigWithBuf in *. fold token in Hnew.
  split; [reflexivity|].
  unfold VerifyUserSigWithBuf, VerifyUserSig. rewrite Hnew.
  split; [|split].
  - rewrite verify_signed by exact Hw. rewrite bytes_eqb_refl. reflexivity.
  - intros other Hother. rewrite verify_signed by exact Hw.
    destruct (bytes_eqb other buf) eqn:E; [|reflexivity].
    apply bytes_eqb_eq in E. contradiction.
  - rewrite verify_signed by exact Hw. reflexivity.
Qed.

Lemma buffered_token_verifies_witness :
  VerifyUserSigWithBuf (to_uint64 1400000000) "secret" "alice"
    (fst (GenUserSigWithBuf 1700000000 1400000000 "secret" "alice" 86400
                            (Some [x01; x02])))
    1700000100 (Some [x01; x02])
  = None.
Proof.
  refine (proj1 (proj2 (buffered_token_verifies 1700000000 1400000000 "secret"
                          "alice" 86400 [x01; x02] 1700000100 _ _ _ _ _ _))).
  - vm_compute. reflexivity.
  - unfold int64_range, min_int64, max_int64. lia.
  - unfold int64_range, min_int64, max_int64. lia.
  - unfold int64_range, min_int64, max_int64. lia.
  - discriminate.
  - lia.
Defined.

(** ** Tokens of the private map key *)




(** ** Who a token is good for, and until when *)



(** ** What acceptance means *)



(** ** Tokens of an empty buffer *)



(** ** The user buffer determines its fields *)

Section UserBufInjective.

Lemma app_same_length (A : Type) (a a' b b' : list A) :
  List.length a = List.length a' -> a ++ b = a' ++ b' -> a = a' /\ b = b'.
Proof.
  revert a'. induction a as [|x a IH]; intros [|x' a'] Hl H;
    try discriminate Hl.
  - split; [reflexivity|exact H].
  - cbn [app] in H. injection H as -> H. injection Hl as Hl.
    destruct (IH a' Hl H) as [-> ->]. split; reflexivity.
Qed.

(** Two fields of the same width at the head of equal lists. *)
Lemma be_bytes_head (n : nat) (v v' : Z) (t t' : list byte) :
  be_bytes n v ++ t = be_bytes n v' ++ t' ->
  v mod 2 ^ (8 * Z.of_nat n) = v' mod 2 ^ (8 * Z.of_nat n) /\ t = t'.
Proof.
  intros H.
  apply app_same_length in H; [|rewrite !be_bytes_length; reflexivity].
  destruct H as [H ->]. split; [|reflexivity].
  rewrite <- !be_value_be_bytes, H. reflexivity.
Qed.

Lemma bytes_of_inj (s s' : string) : bytes_of s = bytes_of s' -> s = s'.
Proof.
  intros H. rewrite <- (string_of_bytes_of s), <- (string_of_bytes_of s'), H.
  reflexivity.
Qed.

(** A string with its length on two bytes in front, at the head of equal
    lists. *)
Lemma prefixed_string_head (s s' : string) (t t' : list byte) :
  len s < 65536 -> len s' < 65536 ->
  be_bytes 2 (len s) ++ bytes_of s ++ t = be_bytes 2 (len s') ++ bytes_of s' ++ t' ->
  s = s' /\ t = t'.
Proof.
  intros Hs Hs' H.
  apply be_bytes_head in H. destruct H as [Hl H].
  change (2 ^ (8 * Z.of_nat 2)) with 65536 in Hl.
  assert (Hlen : len s = len s').
  { unfold len in *. rewrite !Z.mod_small in Hl by lia. exact Hl. }
  apply app_same_length in H.
  - destruct H as [H ->]. split; [apply bytes_of_inj; exact H|reflexivity].
  - rewrite !bytes_of_length. unfold len in Hlen. lia.
Qed.

End UserBufInjective.

(** X6. For identities and room strings shorter than 65536 bytes, the buffer
    of [genUserBuf] determines what it was built from: two calls that return
    the same buffer were given the same identity and the same room string,
    and numbers that agree modulo [2^32] (the application id, the room
    number, the expiry [currTime + dwExpTime], the privilege map and the
    account type). *)
Theorem genUserBuf_injective :
  forall (currTime currTime' : Z) (account account' : string)
         (dwSdkappid dwSdkappid' dwAuthID dwAuthID' dwExpTime dwExpTime' : Z)
         (dwPrivilegeMap dwPrivilegeMap' dwAccountType dwAccountType' : Z)
         (roomStr roomStr' : string),
    len account < 65536 -> len account' < 65536 ->
    len roomStr < 65536 -> len roomStr' < 65536 ->
    genUserBuf currTime account dwSdkappid dwAuthID dwExpTime dwPrivilegeMap
               dwAccountType roomStr
    = genUserBuf currTime' account' dwSdkappid' dwAuthID' dwExpTime'
                 dwPrivilegeMap' dwAccountType' roomStr' ->
    account = account'
    /\ roomStr = roomStr'
    /\ dwSdkappid mod 2 ^ 32 = dwSdkappid' mod 2 ^ 32
    /\ dwAuthID mod 2 ^ 32 = dwAuthID' mod 2 ^ 32
    /\ (currTime + dwExpTime) mod 2 ^ 32 = (currTime' + dwExpTime') mod 2 ^ 32
    /\ dwPrivilegeMap mod 2 ^ 32 = dwPrivilegeMap' mod 2 ^ 32
    /\ dwAccountType mod 2 ^ 32 = dwAccountType' mod 2 ^ 32.
Proof.
  intros currTime currTime' account account' dwSdkappid dwSdkappid' dwAuthID
         dwAuthID' dwExpTime dwExpTime' dwPrivilegeMap dwPrivilegeMap'
         dwAccountType dwAccountType' roomStr roomStr' Ha Ha' Hr Hr' H.
  rewrite !genUserBuf_masked in H.
  apply (f_equal (fun o : option (list byte) =>
                    match o with Some b => b | None => [] end)) in H.
  cbv beta iota in H.
  apply app_same_length in H; [|reflexivity]. destruct H as [Hv H].
  apply prefixed_string_head in H; [|assumption|assumption].
  destruct H as [-> H].
  apply be_bytes_head in H. destruct H as [H1 H].
  apply be_bytes_head in H. destruct H as [H2 H].
  apply be_bytes_head in H. destruct H as [H3 H].
  apply be_bytes_head in H. destruct H as [H4 H].
  apply be_bytes_head in H. destruct H as [H5 H].
  change (2 ^ (8 * Z.of_nat 4)) with (2 ^ 32) in *.
  split; [reflexivity|].
  split; [|repeat split; assumption].
  destruct (Z.gtb_spec (len roomStr) 0) as [Hp|Hp],
           (Z.gtb_spec (len roomStr') 0) as [Hp'|Hp'];
    try discriminate Hv.
  - rewrite <- (app_nil_r (bytes_of roomStr)),
            <- (app_nil_r (bytes_of roomStr')) in H.
    apply prefixed_string_head in H; [|assumption|assumption].
    destruct H as [H _]. exact H.
  - unfold len in Hp, Hp'.
    destruct roomStr; [|simpl String.length in Hp; lia].
    destruct roomStr'; [|simpl String.length in Hp'; lia].
    reflexivity.
Qed.

Lemma genUserBuf_injective_witness :
  "alice"%string = "alice"%string
  /\ "room"%string = "room"%string
  /\ 1400000000 mod 2 ^ 32 = (1400000000 + 2 ^ 32) mod 2 ^ 32
  /\ 42 mod 2 ^ 32 = 42 mod 2 ^ 32
  /\ (1700000000 + 86400) mod 2 ^ 32 = (1700000000 + 86400) mod 2 ^ 32
  /\ 255 mod 2 ^ 32 = 255 mod 2 ^ 32
  /\ 0 mod 2 ^ 32 = 0 mod 2 ^ 32.
Proof.
  apply (genUserBuf_injective 1700000000 1700000000 "alice" "alice"
           1400000000 (1400000000 + 2 ^ 32) 42 42 86400 86400 255 255 0 0
           "room" "room").
  - vm_compute. reflexivity.
  - vm_compute. reflexivity.
  - vm_compute. reflexivity.
  - vm_compute. reflexivity.
  - vm_compute. reflexivity.
Defined.

(** ** The JSON text of a document *)

(** X7. What [json.Unmarshal] reads from the text [json.NewEncoder.Encode]
    writes for a document is the document itself, except that a buffer or a
    signature of length 0 comes back nil: every tag has [omitempty], so an
    empty field is left out and the decoder leaves the zero value.  The
    document is read back unchanged exactly when neither slice is empty
    without being nil. *)
Theorem document_json_round_trip :
  forall u : userSig,
    wellFormedDoc u ->
    json_Unmarshal (json_Marshal u ++ [x0a])
    = (mkUserSig (Version u) (Identifier u) (SdkAppID u) (Expire u) (Time u)
                 (omitEmpty (UserBuf u)) (omitEmpty (Sig u)),
       None)
    /\ (json_Unmarshal (json_Marshal u ++ [x0a]) = (u, None)
        <-> UserBuf u <> Some [] /\ Sig u <> Some []).
Proof.
  intros u Hu. rewrite (Unmarshal_Marshal u Hu). unfold readBack.
  split; [reflexivity|].
  destruct u as [v i a e t b s]. cbn [Version Identifier SdkAppID Expire Time UserBuf Sig].
  split.
  - intros H. injection H as Hb Hs.
    split; intros ->; discriminate.
  - intros [Hb Hs].
    destruct b as [[|? ?]|], s as [[|? ?]|]; try reflexivity;
      exfalso; auto.
Qed.

Lemma document_json_round_trip_witness :
  json_Unmarshal
    (json_Marshal (mkUserSig "2.0" "alice" 1400000000 86400 1700000000
                             (Some []) (Some [x01])) ++ [x0a])
  = (mkUserSig "2.0" "alice" 1400000000 86400 1700000000 None (Some [x01]),
     None).
Proof.
  refine (proj1 (document_json_round_trip
                   (mkUserSig "2.0" "alice" 1400000000 86400 1700000000
                              (Some []) (Some [x01])) _)).
  unfold wellFormedDoc, uint64_range, int64_range, min_int64, max_int64.
  cbn [Version Identifier SdkAppID Expire Time].
  split; [vm_compute; reflexivity|]. split; [vm_compute; reflexivity|]. lia.
Defined.

(** ** Valid UTF-8 is read back *)

Section Utf8.

Lemma land_low (x k : Z) : 0 <= k -> Z.land x (2 ^ k - 1) = x mod 2 ^ k.
Proof.
  intros Hk. replace (2 ^ k - 1) with (Z.ones k)
    by (rewrite Z.ones_equiv; lia).
  apply Z.land_ones. exact Hk.
Qed.

Lemma lor_disjoint (a b k : Z) :
  0 <= a -> 0 <= k -> 0 <= b < 2 ^ k -> Z.lor (a * 2 ^ k) b = a * 2 ^ k + b.
Proof.
  intros Ha Hk Hb.
  assert (Hland : Z.land (a * 2 ^ k) b = 0).
  { apply Z.bits_inj'. intros n Hn. rewrite Z.land_spec, Z.bits_0.
    destruct (Z.ltb_spec n k).
    - rewrite Z.mul_pow2_bits_low by lia. reflexivity.
    - destruct (Z.eq_dec b 0) as [->|Hb0];
        [rewrite Z.bits_0; apply andb_false_r|].
      rewrite (Z.bits_above_log2 b n), andb_false_r; [reflexivity|lia|].
      apply Z.log2_lt_pow2; [lia|].
      apply Z.lt_le_trans with (2 ^ k); [lia|].
      apply Z.pow_le_mono_r; lia. }
  rewrite <- Z.lxor_lor by exact Hland.
  symmetry. apply Z.add_nocarry_lxor. exact Hland.
Qed.

Lemma lor_add (x y k : Z) :
  0 <= k -> 0 <= x -> x mod 2 ^ k = 0 -> 0 <= y < 2 ^ k -> Z.lor x y = x + y.
Proof.
  intros Hk Hx Hm Hy.
  assert (E : x = x / 2 ^ k * 2 ^ k).
  { pose proof (Z.div_mod x (2 ^ k)). lia. }
  rewrite E. apply lor_disjoint; try assumption.
  apply Z.div_pos; lia.
Qed.

Lemma shiftl_lor (a b k : Z) :
  0 <= a -> 0 <= k -> 0 <= b < 2 ^ k ->
  Z.lor (Z.shiftl a k) b = a * 2 ^ k + b.
Proof.
  intros. rewrite Z.shiftl_mul_pow2 by lia. apply lor_disjoint; assumption.
Qed.

Ltac zcompare :=
  repeat match goal with
         | |- context [Z.ltb ?a ?b] => destruct (Z.ltb_spec a b); try lia
         | |- context [Z.eqb ?a ?b] => destruct (Z.eqb_spec a b); try lia
         end;
  cbn [orb andb].

Lemma land_byte (x k : Z) (m : Z) :
  0 <= k -> m = 2 ^ k - 1 -> Z.land x m = x mod 2 ^ k.
Proof. intros Hk ->. apply land_low. exact Hk. Qed.

(** [DecodeRune] either reports an invalid encoding or returns the rune of
    the valid sequence at the head of its argument. *)
Lemma DecodeRune_cases (b0 : byte) (t : list byte) :
  utf8.DecodeRune (b0 :: t) = (utf8.RuneError, 1)
  \/ exists chunk r rest,
       b0 :: t = chunk ++ rest
       /\ utf8.encodes chunk r
       /\ utf8.DecodeRune (b0 :: t) = (r, blen chunk).
Proof.
  pose proof (Z_of_byte_range b0) as Hb0.
  unfold utf8.DecodeRune.
  destruct (Z.ltb_spec (Z_of_byte b0) 128).
  { right. exists [b0], (Z_of_byte b0), t. repeat split. constructor. lia. }
  destruct (Z.ltb_spec (Z_of_byte b0) 194); [left; reflexivity|].
  destruct (Z.ltb_spec 244 (Z_of_byte b0)); [left; reflexivity|].
  cbn [orb].
  destruct t as [|b1 t1]; [left; reflexivity|].
  pose proof (Z_of_byte_range b1) as Hb1.
  match goal with |- context [if ?c then (utf8.RuneError, 1) else _] =>
    destruct c eqn:E1 end; [left; reflexivity|].
  apply orb_false_iff in E1. destruct E1 as [E1a E1b].
  apply Z.ltb_ge in E1a. apply Z.ltb_ge in E1b.
  destruct (Z.ltb_spec (Z_of_byte b0) 224).
  { right. exists [b0; b1], ((Z_of_byte b0 - 0xC0) * 64 + (Z_of_byte b1 - 0x80)), t1.
    revert E1a E1b. zcompare. intros E1a E1b.
    repeat split.
    - constructor; lia.
    - cbn [Z.eqb]. f_equal.
      rewrite (land_byte _ 5) by (lia || reflexivity).
      rewrite (land_byte _ 6) by (lia || reflexivity).
      rewrite shiftl_lor by (try apply Z.mod_pos_bound; lia).
      Z.to_euclidean_division_equations. lia. }
  destruct t1 as [|b2 t2];
    [left; zcompare; reflexivity|].
  pose proof (Z_of_byte_range b2) as Hb2.
  match goal with |- context [if ?c || ?d then (utf8.RuneError, 1) else _] =>
    destruct (c || d) eqn:E2 end;
    [left; zcompare; reflexivity|].
  apply orb_false_iff in E2. destruct E2 as [E2a E2b].
  apply Z.ltb_ge in E2a. apply Z.ltb_ge in E2b.
  destruct (Z.ltb_spec (Z_of_byte b0) 240).
  { right.
    exists [b0; b1; b2],
      ((Z_of_byte b0 - 0xE0) * 4096 + (Z_of_byte b1 - 0x80) * 64
       + (Z_of_byte b2 - 0x80)), t2.
    cbn [Z.eqb Pos.eqb].
    split; [reflexivity|]. split.
    - constructor; try lia; revert E1a E1b; zcompare; intros; lia.
    - f_equal.
      rewrite (land_byte _ 4) by (lia || reflexivity).
      rewrite !(land_byte _ 6) by (lia || reflexivity).
      rewrite !Z.shiftl_mul_pow2 by lia.
      rewrite (lor_add (_ * 2 ^ 12) (_ * 2 ^ 6) 12);
        try (Z.to_euclidean_division_equations; lia).
      rewrite (lor_add _ _ 6);
        try (Z.to_euclidean_division_equations; lia).
      revert E1a E1b. zcompare; intros;
        Z.to_euclidean_division_equations; lia. }
  cbn [Z.eqb Pos.eqb].
  destruct t2 as [|b3 t3]; [left; reflexivity|].
  pose proof (Z_of_byte_range b3) as Hb3.
  match goal with |- context [if ?c || ?d then (utf8.RuneError, 1) else _] =>
    destruct (c || d) eqn:E3 end; [left; reflexivity|].
  apply orb_false_iff in E3. destruct E3 as [E3a E3b].
  apply Z.ltb_ge in E3a. apply Z.ltb_ge in E3b.
  right.
  exists [b0; b1; b2; b3],
    ((Z_of_byte b0 - 0xF0) * 262144 + (Z_of_byte b1 - 0x80) * 4096
     + (Z_of_byte b2 - 0x80) * 64 + (Z_of_byte b3 - 0x80)), t3.
  split; [reflexivity|]. split.
  - constructor; try lia; revert E1a E1b; zcompare; intros; lia.
  - f_equal.
    rewrite (land_byte _ 3) by (lia || reflexivity).
    rewrite !(land_byte _ 6) by (lia || reflexivity).
    rewrite !Z.shiftl_mul_pow2 by lia.
    rewrite (lor_add (_ * 2 ^ 18) (_ * 2 ^ 12) 18);
      try (Z.to_euclidean_division_equations; lia).
    rewrite (lor_add _ (_ * 2 ^ 6) 12);
      try (Z.to_euclidean_division_equations; lia).
    rewrite (lor_add _ _ 6);
      try (Z.to_euclidean_division_equations; lia).
    revert E1a E1b. zcompare; intros;
      Z.to_euclidean_division_equations; lia.
Qed.

Ltac decide_cmp :=
  repeat match goal with
         | |- context [Z.ltb ?a ?b] =>
             first [ replace (Z.ltb a b) with true
                       by (symmetry; apply Z.ltb_lt; lia)
                   | replace (Z.ltb a b) with false
                       by (symmetry; apply Z.ltb_ge; lia) ]
         | |- context [Z.leb ?a ?b] =>
             first [ replace (Z.leb a b) with true
                       by (symmetry; apply Z.leb_le; lia)
                   | replace (Z.leb a b) with false
                       by (symmetry; apply Z.leb_gt; lia) ]
         | |- context [Z.eqb ?a ?b] =>
             first [ replace (Z.eqb a b) with true
                       by (symmetry; apply Z.eqb_eq; lia)
                   | replace (Z.eqb a b) with false
                       by (symmetry; apply Z.eqb_neq; lia) ]
         end.

Ltac rune_cmp :=
  cbv zeta;
  repeat (progress (decide_cmp; cbn [orb andb negb Z.eqb Pos.eqb])).

(** [DecodeRune] returns the rune of a well-formed sequence, whatever
    follows it. *)
Lemma DecodeRune_encodes (chunk : list byte) (r : Z) (rest : list byte) :
  utf8.encodes chunk r -> utf8.DecodeRune (chunk ++ rest) = (r, blen chunk).
Proof.
  intros H.
  destruct H as [b0 H0|b0 b1 H0 H1|b0 b1 b2 H0 H1 Ha Hb H2
                |b0 b1 b2 b3 H0 H1 Ha Hb H2 H3];
    cbn [app]; unfold utf8.DecodeRune.
  - rune_cmp. reflexivity.
  - rune_cmp. f_equal.
    rewrite (land_byte _ 5) by (lia || reflexivity).
    rewrite (land_byte _ 6) by (lia || reflexivity).
    rewrite shiftl_lor by (try apply Z.mod_pos_bound; lia).
    pose proof (Z_of_byte_range b0). pose proof (Z_of_byte_range b1).
    Z.to_euclidean_division_equations. lia.
  - rune_cmp.
    destruct (Z.eqb_spec (Z_of_byte b0) 224), (Z.eqb_spec (Z_of_byte b0) 237);
      try lia; rune_cmp; f_equal;
      rewrite (land_byte _ 4) by (lia || reflexivity);
      rewrite !(land_byte _ 6) by (lia || reflexivity);
      rewrite !Z.shiftl_mul_pow2 by lia;
      (rewrite (lor_add (_ * 2 ^ 12) (_ * 2 ^ 6) 12);
        try (Z.to_euclidean_division_equations; lia));
      (rewrite (lor_add _ _ 6);
        try (Z.to_euclidean_division_equations; lia));
      Z.to_euclidean_division_equations; lia.
  - rune_cmp.
    destruct (Z.eqb_spec (Z_of_byte b0) 240), (Z.eqb_spec (Z_of_byte b0) 244);
      try lia; rune_cmp; f_equal;
      rewrite (land_byte _ 3) by (lia || reflexivity);
      rewrite !(land_byte _ 6) by (lia || reflexivity);
      rewrite !Z.shiftl_mul_pow2 by lia;
      (rewrite (lor_add (_ * 2 ^ 18) (_ * 2 ^ 12) 18);
        try (Z.to_euclidean_division_equations; lia));
      (rewrite (lor_add _ (_ * 2 ^ 6) 12);
        try (Z.to_euclidean_division_equations; lia));
      (rewrite (lor_add _ _ 6);
        try (Z.to_euclidean_division_equations; lia));
      Z.to_euclidean_division_equations; lia.
Qed.

Ltac byte_of k :=
  match goal with
  | |- to_byte (Z.lor ?c ?y) = ?b =>
      transitivity (to_byte (Z_of_byte b)); [f_equal|apply to_byte_of_byte];
      rewrite (lor_add c y k);
      [ | lia | lia | reflexivity | ];
      Z.to_euclidean_division_equations; lia
  end.

Ltac rune_bytes :=
  repeat (apply (f_equal2 (@cons byte))); try reflexivity;
  first [byte_of constr:(7)|byte_of constr:(6)|byte_of constr:(5)|byte_of constr:(4)].

(** [EncodeRune] writes the well-formed sequence of a rune. *)
Lemma EncodeRune_encodes (chunk : list byte) (r : Z) :
  utf8.encodes chunk r -> utf8.EncodeRune r = chunk.
Proof.
  intros H.
  destruct H as [b0 H0|b0 b1 H0 H1|b0 b1 b2 H0 H1 Ha Hb H2
                |b0 b1 b2 b3 H0 H1 Ha Hb H2 H3];
    repeat match goal with
           | b : byte |- _ =>
               lazymatch goal with
               | _ : 0 <= Z_of_byte b < 256 |- _ => fail
               | _ => pose proof (Z_of_byte_range b)
               end
           end;
    unfold utf8.EncodeRune; rune_cmp.
  - rewrite to_byte_of_byte. reflexivity.
  - rewrite !Z.shiftr_div_pow2 by lia.
    rewrite !(land_byte _ 6) by (lia || reflexivity).
    rune_bytes.
  - assert (Hc : Z_of_byte b0 < 237 \/ Z_of_byte b0 = 237 \/ 237 < Z_of_byte b0)
      by lia.
    destruct Hc as [Hc|[Hc|Hc]]; rune_cmp;
      rewrite !Z.shiftr_div_pow2 by lia;
      rewrite !(land_byte _ 6) by (lia || reflexivity);
      rune_bytes.
  - rewrite !Z.shiftr_div_pow2 by lia.
    rewrite !(land_byte _ 6) by (lia || reflexivity).
    rune_bytes.
Qed.

Lemma skipn_blen (X Y : list byte) : skipn (Z.to_nat (blen X)) (X ++ Y) = Y.
Proof.
  unfold blen. rewrite Nat2Z.id.
  induction X as [|x X IH]; [reflexivity|exact IH].
Qed.

Lemma appendBody_keep (t : list byte) :
  json.appendBody 0 false t = json.appendBody 0 true t.
Proof. destruct t; reflexivity. Qed.

(** The continuation bytes of a rune are crossed as a whole. *)
Lemma appendBody_skip (keep : bool) (ct rest : list byte) :
  json.appendBody (List.length ct) keep (ct ++ rest)
  = (if keep then ct else []) ++ json.appendBody 0 true rest.
Proof.
  induction ct as [|c ct IH]; cbn [List.length app json.appendBody].
  - destruct keep; [reflexivity|apply appendBody_keep].
  - rewrite IH. destruct keep; reflexivity.
Qed.

Lemma high_byte_facts (b : byte) :
  0x80 <= Z_of_byte b ->
  Byte.eqb b json.quote = false
  /\ Byte.eqb b json.backslash = false
  /\ (Z_of_byte b <? 0x20) = false
  /\ (Z_of_byte b <? 0x80) = false.
Proof.
  intros H. repeat split.
  - apply byte_eqb_neq. change (Z_of_byte json.quote) with 34. lia.
  - apply byte_eqb_neq. change (Z_of_byte json.backslash) with 92. lia.
  - apply Z.ltb_ge. lia.
  - apply Z.ltb_ge. lia.
Qed.

(** The scanner crosses bytes that are not ASCII. *)
Lemma scanString_high (X Y raw after : list byte) :
  Forall (fun b => 0x80 <= Z_of_byte b) X ->
  json.scanString 0 Y = Some (raw, after) ->
  json.scanString 0 (X ++ Y) = Some (X ++ raw, after).
Proof.
  intros HX HY. induction HX as [|b X Hb HX IH]; [exact HY|].
  destruct (high_byte_facts b Hb) as (H1 & H2 & H3 & _).
  cbn [app json.scanString]. rewrite H1, H2, H3, IH. reflexivity.
Qed.

Lemma encodes_cases (chunk : list byte) (r : Z) :
  utf8.encodes chunk r ->
  (exists b, chunk = [b] /\ r = Z_of_byte b /\ Z_of_byte b < 0x80)
  \/ (0x80 <= r
      /\ exists c0 ct, chunk = c0 :: ct
                       /\ Forall (fun b => 0x80 <= Z_of_byte b) chunk
                       /\ (1 <= List.length ct)%nat).
Proof.
  intros H.
  destruct H as [b0 H0|b0 b1 H0 H1|b0 b1 b2 H0 H1 Ha Hb H2
                |b0 b1 b2 b3 H0 H1 Ha Hb H2 H3].
  - left. exists b0. repeat split. exact H0.
  - right. split; [lia|]. exists b0, [b1].
    split; [reflexivity|]. split; [repeat constructor; lia|simpl; lia].
  - right. split; [lia|]. exists b0, [b1; b2].
    split; [reflexivity|]. split; [repeat constructor; lia|simpl; lia].
  - right. split; [lia|]. exists b0, [b1; b2; b3].
    split; [reflexivity|]. split; [repeat constructor; lia|simpl; lia].
Qed.

Lemma fold_cons_raw (l raw after : list byte) :
  fold_right (fun (c : byte) (r : option (list byte * list byte)) =>
                match r with
                | Some (raw0, after0) => Some (c :: raw0, after0)
                | None => None
                end)
             (Some (raw, after)) l
  = Some (l ++ raw, after).
Proof.
  induction l as [|c l IH]; [reflexivity|].
  cbn [fold_right app]. rewrite IH. reflexivity.
Qed.

(** The scanner on a literal [E] it crosses byte by byte. *)
Ltac via_fold E Y :=
  transitivity
    (fold_right (fun (c : byte) (r : option (list byte * list byte)) =>
                   match r with
                   | Some (raw0, after0) => Some (c :: raw0, after0)
                   | None => None
                   end)
                (json.scanString 0 Y) E).

(** An ASCII character and its literal. *)
Lemma ascii_scan (b : byte) (Y raw after : list byte) :
  Z_of_byte b < 0x80 ->
  json.scanString 0 Y = Some (raw, after) ->
  json.scanString 0
    ((if json.htmlSafe (Z_of_byte b) then [b] else json.escapeASCII b) ++ Y)
  = Some ((if json.htmlSafe (Z_of_byte b) then [b] else json.escapeASCII b)
            ++ raw, after).
Proof.
  intros Hb HY.
  via_fold (if json.htmlSafe (Z_of_byte b) then [b] else json.escapeASCII b) Y.
  - destruct b; try (exfalso; vm_compute in Hb; discriminate Hb); reflexivity.
  - rewrite HY. apply fold_cons_raw.
Qed.

Lemma ascii_unquote (b : byte) (fuel : nat) (Y : list byte) :
  Z_of_byte b < 0x80 ->
  json.unquoteBody (S fuel)
    ((if json.htmlSafe (Z_of_byte b) then [b] else json.escapeASCII b) ++ Y)
  = option_map (cons b) (json.unquoteBody fuel Y).
Proof.
  intros Hb.
  destruct b; try (exfalso; vm_compute in Hb; discriminate Hb); reflexivity.
Qed.

Lemma ascii_literal_length (b : byte) :
  (1 <= List.length (if json.htmlSafe (Z_of_byte b) then [b]
                     else json.escapeASCII b))%nat.
Proof. destruct b; vm_compute; repeat constructor. Qed.

(** A rune that is not ASCII, in the literal, in the scanner and in
    [unquote]. *)
Lemma rune_append (chunk : list byte) (r : Z) (rest : list byte) :
  utf8.encodes chunk r -> 0x80 <= r ->
  json.appendBody 0 true (chunk ++ rest)
  = (if (r =? 0x2028) || (r =? 0x2029)
     then json.backslash :: bytes_of "u202" ++ [json.hex (Z.land r 0xF)]
     else chunk)
    ++ json.appendBody 0 true rest.
Proof.
  intros H Hr.
  pose proof (DecodeRune_encodes chunk r rest H) as HD.
  destruct (encodes_cases chunk r H) as [(b & _ & -> & Hb)|(_ & c0 & ct & -> & HF & Hl)];
    [lia|].
  inversion HF as [|? ? Hc0 _]; subst.
  destruct (high_byte_facts c0 Hc0) as (_ & _ & _ & H4).
  cbn [app] in HD |- *. cbn [json.appendBody]. rewrite H4, HD. cbn [fst snd].
  assert (Hsize : (blen (c0 :: ct) =? 1) = false).
  { apply Z.eqb_neq. unfold blen. cbn [List.length]. lia. }
  rewrite Hsize, andb_false_r.
  replace (Z.to_nat (blen (c0 :: ct) - 1)) with (List.length ct)
    by (unfold blen; cbn [List.length]; lia).
  rewrite (appendBody_skip true), (appendBody_skip false).
  destruct ((r =? 0x2028) || (r =? 0x2029)).
  - cbn [app]. rewrite <- app_assoc. reflexivity.
  - reflexivity.
Qed.

Lemma rune_unquote (chunk : list byte) (r : Z) (fuel : nat) (Y : list byte) :
  utf8.encodes chunk r -> 0x80 <= r ->
  json.unquoteBody (S fuel) (chunk ++ Y)
  = option_map (app chunk) (json.unquoteBody fuel Y).
Proof.
  intros H Hr.
  pose proof (DecodeRune_encodes chunk r Y H) as HD.
  pose proof (EncodeRune_encodes chunk r H) as HE.
  pose proof (skipn_blen chunk Y) as HS.
  destruct (encodes_cases chunk r H) as [(b & _ & -> & Hb)|(_ & c0 & ct & -> & HF & Hl)];
    [lia|].
  inversion HF as [|? ? Hc0 _]; subst.
  destruct (high_byte_facts c0 Hc0) as (H1 & H2 & H3 & H4).
  cbn [app] in HD, HS |- *. cbn [json.unquoteBody].
  rewrite H2, H1, H3, H4. cbn [orb].
  rewrite HD. cbn [fst snd]. rewrite HE, HS. reflexivity.
Qed.

Lemma line_separator_text (r : Z) (chunk : list byte) :
  utf8.EncodeRune r = chunk ->
  r = 0x2028 \/ r = 0x2029 ->
  (forall Y raw after,
      json.scanString 0 Y = Some (raw, after) ->
      json.scanString 0
        ((json.backslash :: bytes_of "u202" ++ [json.hex (Z.land r 0xF)]) ++ Y)
      = Some ((json.backslash :: bytes_of "u202" ++ [json.hex (Z.land r 0xF)])
                ++ raw, after))
  /\ (forall fuel Y,
         json.unquoteBody (S fuel)
           ((json.backslash :: bytes_of "u202" ++ [json.hex (Z.land r 0xF)]) ++ Y)
         = option_map (app chunk) (json.unquoteBody fuel Y)).
Proof.
  intros HE Hr. split.
  - intros Y raw after HY.
    via_fold (json.backslash :: bytes_of "u202" ++ [json.hex (Z.land r 0xF)]) Y.
    + destruct Hr as [-> | ->]; reflexivity.
    + rewrite HY. apply fold_cons_raw.
  - intros fuel Y. subst chunk. destruct Hr as [-> | ->]; reflexivity.
Qed.

(** One rune of the string: its literal is crossed by the scanner and
    [unquote] gives the rune back. *)
Lemma rune_text (chunk : list byte) (r : Z) :
  utf8.encodes chunk r ->
  exists E : list byte,
    (1 <= List.length chunk)%nat
    /\ (List.length chunk <= List.length E)%nat
    /\ (forall rest,
           json.appendBody 0 true (chunk ++ rest)
           = E ++ json.appendBody 0 true rest)
    /\ (forall Y raw after,
           json.scanString 0 Y = Some (raw, after) ->
           json.scanString 0 (E ++ Y) = Some (E ++ raw, after))
    /\ (forall fuel Y,
           json.unquoteBody (S fuel) (E ++ Y)
           = option_map (app chunk) (json.unquoteBody fuel Y)).
Proof.
  intros H.
  destruct (encodes_cases chunk r H)
    as [(b & -> & -> & Hb)|(Hr & c0 & ct & Hc & HF & Hl)].
  - exists (if json.htmlSafe (Z_of_byte b) then [b] else json.escapeASCII b).
    split; [simpl; lia|]. split; [apply ascii_literal_length|].
    split; [|split].
    + intros rest. cbn [app json.appendBody].
      replace (Z_of_byte b <? 128) with true
        by (symmetry; apply Z.ltb_lt; exact Hb).
      reflexivity.
    + intros Y raw after. apply ascii_scan. exact Hb.
    + intros fuel Y. apply ascii_unquote. exact Hb.
  - destruct ((r =? 0x2028) || (r =? 0x2029)) eqn:Er.
    + exists (json.backslash :: bytes_of "u202" ++ [json.hex (Z.land r 0xF)]).
      assert (Hr' : r = 0x2028 \/ r = 0x2029).
      { apply orb_true_iff in Er. destruct Er as [Er|Er];
          apply Z.eqb_eq in Er; auto. }
      pose proof (EncodeRune_encodes chunk r H) as HE.
      destruct (line_separator_text r chunk HE Hr') as [Hs Hu].
      split; [subst chunk; simpl; lia|].
      split.
      { rewrite <- HE. destruct Hr' as [-> | ->]; simpl; lia. }
      split; [|split; assumption].
      intros rest. rewrite (rune_append chunk r rest H Hr), Er. reflexivity.
    + exists chunk.
      split; [subst chunk; simpl; lia|]. split; [lia|].
      split; [|split].
      * intros rest. rewrite (rune_append chunk r rest H Hr), Er. reflexivity.
      * intros Y raw after. apply scanString_high. exact HF.
      * intros fuel Y. apply (rune_unquote chunk r fuel Y H Hr).
Qed.

(** The literal of a string of valid UTF-8: the scanner stops at the
    closing quote and [unquote] returns the string. *)
Lemma valid_text (n : nat) :
  forall s : list byte,
    utf8.validFrom n s = true ->
    json.scanString 0 (json.appendBody 0 true s ++ [json.quote])
    = Some (json.appendBody 0 true s, [])
    /\ (List.length s <= List.length (json.appendBody 0 true s))%nat
    /\ (forall fuel, (List.length s <= fuel)%nat ->
          json.unquoteBody fuel (json.appendBody 0 true s) = Some s).
Proof.
  assert (Hnil :
    json.scanString 0 (json.appendBody 0 true [] ++ [json.quote])
    = Some (json.appendBody 0 true [], [])
    /\ (List.length (@nil byte) <= List.length (json.appendBody 0 true []))%nat
    /\ (forall fuel, (List.length (@nil byte) <= fuel)%nat ->
          json.unquoteBody fuel (json.appendBody 0 true []) = Some [])).
  { split; [reflexivity|]. split; [simpl; lia|].
    intros fuel _. destruct fuel; reflexivity. }
  induction n as [|n IH]; intros s Hv.
  - destruct s; [exact Hnil|discriminate Hv].
  - destruct s as [|b0 t]; [exact Hnil|].
    cbn [utf8.validFrom] in Hv.
    destruct (DecodeRune_cases b0 t) as [HL|(chunk & r & rest & Heq & Henc & HD)].
    + rewrite HL in Hv. discriminate Hv.
    + rewrite Heq in *. clear Heq.
      destruct ((fst (utf8.DecodeRune (chunk ++ rest)) =? utf8.RuneError)
                && (snd (utf8.DecodeRune (chunk ++ rest)) =? 1));
        [discriminate Hv|].
      rewrite HD in Hv. cbn [snd] in Hv. rewrite skipn_blen in Hv.
      destruct (IH rest Hv) as (Hscan & Hlen & Hunq).
      destruct (rune_text chunk r Henc) as (E & Hc1 & HcE & Happ & Hs & Hu).
      rewrite Happ.
      split; [|split].
      * rewrite <- app_assoc. apply Hs. exact Hscan.
      * rewrite !length_app. lia.
      * intros fuel Hf. rewrite length_app in Hf.
        destruct fuel as [|fuel]; [lia|].
        rewrite Hu, Hunq by lia. reflexivity.
Qed.

(** Strings of valid UTF-8 are read back from their literals. *)
Lemma Valid_readsBack (s : list byte) :
  utf8.Valid s = true -> json.readsBack s = true.
Proof.
  intros H. destruct (valid_text _ s H) as (Hscan & Hlen & Hunq).
  unfold json.readsBack, json.unquote.
  rewrite Hscan, Hunq by exact Hlen.
  rewrite !bytes_eqb_refl. reflexivity.
Qed.


End Utf8.

(** X8. The round trip for every identity of valid UTF-8.  Such an identity
    is written to the JSON text and read back unchanged, whatever characters
    it holds (quotes, control characters and the characters the encoder
    escapes included): [GenUserSig] returns a token and a nil error, the
    token unpacks to the signed document, and [VerifyUserSig] with the
    application id, key and identity of issue returns nil at every time up to
    [currTime + expire]. *)
Theorem utf8_identity_round_trip :
  forall (currTime sdkappid : Z) (key identity : string) (expire now : Z),
    utf8.ValidString identity = true ->
    int64_range currTime ->
    int64_range expire ->
    int64_range (currTime + expire) ->
    now <= currTime + expire ->
    snd (GenUserSig currTime sdkappid key identity expire) = None
    /\ newUserSig (fst (GenUserSig currTime sdkappid key identity expire))
       = (mkUserSig "2.0" identity (to_uint64 sdkappid) expire currTime None
            (Some (sign (mkUserSig "2.0" identity (to_uint64 sdkappid) expire
                           currTime None None) key)),
          None)
    /\ VerifyUserSig (to_uint64 sdkappid) key identity
         (fst (GenUserSig currTime sdkappid key identity expire)) now
       = None.
Proof.
  intros currTime sdkappid key identity expire now Hid Ht He Hsum Hnow.
  apply Valid_readsBack in Hid.
  pose proof (genSig_unpacked currTime sdkappid key identity expire None
                Hid He Ht) as Hnew.
  cbn [omitEmpty] in Hnew. unfold GenUserSig.
  split; [reflexivity|]. split; [exact Hnew|].
  unfold VerifyUserSig. rewrite Hnew.
  rewrite verify_signed
    by (rewrite wrap64_small by exact Hsum; exact Hnow).
  reflexivity.
Qed.

Lemma utf8_identity_round_trip_witness :
  VerifyUserSig (to_uint64 1400000000) "secret"
    (string_of [x22; xc3; xa9; x3c; xe2; x80; xa8; x0a; xf0; x9f; x98; x80])
    (fst (GenUserSig 1700000000 1400000000 "secret"
            (string_of [x22; xc3; xa9; x3c; xe2; x80; xa8; x0a; xf0; x9f; x98; x80])
            86400))
    1700000100
  = None.
Proof.
  refine (proj2 (proj2 (utf8_identity_round_trip 1700000000 1400000000 "secret"
            (string_of [x22; xc3; xa9; x3c; xe2; x80; xa8; x0a; xf0; x9f; x98; x80])
            86400 1700000100 _ _ _ _ _))).
  - vm_compute. reflexivity.
  - unfold int64_range, min_int64, max_int64. lia.
  - unfold int64_range, min_int64, max_int64. lia.
  - unfold int64_range, min_int64, max_int64. lia.
  - lia.
Defined.

(** ** The signed message *)

Section SignedMessage.

(** The line feed ends a line and occurs in none of the numbers and in no
    base64 text. *)
Lemma first_line (a a' r r' : list byte) :
  forallb (fun c => negb (Byte.eqb c x0a)) a = true ->
  forallb (fun c => negb (Byte.eqb c x0a)) a' = true ->
  a ++ x0a :: r = a' ++ x0a :: r' ->
  a = a' /\ r = r'.
Proof.
  revert a'. induction a as [|c a IH]; intros [|c' a'] Ha Ha' H;
    cbn [app forallb] in *.
  - injection H as ->. split; reflexivity.
  - injection H as <- _. discriminate Ha'.
  - injection H as -> _. discriminate Ha.
  - injection H as -> H.
    apply andb_true_iff in Ha. apply andb_true_iff in Ha'.
    destruct (IH a' (proj2 Ha) (proj2 Ha') H) as [-> ->].
    split; reflexivity.
Qed.

Lemma digit_not_newline (ds : list byte) :
  forallb strconv.isDigit ds = true ->
  forallb (fun c => negb (Byte.eqb c x0a)) ds = true.
Proof.
  intros H. rewrite forallb_forall in *. intros c Hc.
  specialize (H c Hc).
  destruct (Byte.eqb c x0a) eqn:E; [|reflexivity].
  apply byte_eqb_eq in E. subst c. discriminate H.
Qed.

Lemma dec_not_newline (p : positive) :
  forallb (fun c => negb (Byte.eqb c x0a)) (strconv.dec p) = true.
Proof.
  apply digit_not_newline.
  destruct (dec_shape p) as (c & ds & -> & Hc & _ & Hds).
  cbn [forallb]. rewrite Hc, Hds. reflexivity.
Qed.

Lemma dec_inj (p q : positive) : strconv.dec p = strconv.dec q -> p = q.
Proof.
  intros H. pose proof (dec_value p) as Hp. rewrite H, dec_value in Hp.
  injection Hp as Hp. symmetry. exact Hp.
Qed.

Lemma dec_not_zero (p : positive) : strconv.dec p <> bytes_of "0".
Proof.
  destruct (dec_shape p) as (c & ds & -> & _ & Hc & _).
  intros H. injection H as -> _. discriminate Hc.
Qed.

Lemma dec_not_minus (p : positive) (t : list byte) :
  strconv.dec p <> "-"%byte :: t.
Proof.
  destruct (dec_shape p) as (c & ds & -> & Hc & _).
  intros H. injection H as -> _. discriminate Hc.
Qed.

Lemma FormatInt_not_newline (z : Z) :
  forallb (fun c => negb (Byte.eqb c x0a)) (bytes_of (strconv.FormatInt z)) = true.
Proof.
  destruct z as [|p|p].
  - reflexivity.
  - rewrite FormatInt_pos. apply dec_not_newline.
  - rewrite FormatInt_neg. cbn [forallb]. rewrite dec_not_newline. reflexivity.
Qed.

Lemma FormatInt_inj (z z' : Z) :
  bytes_of (strconv.FormatInt z) = bytes_of (strconv.FormatInt z') -> z = z'.
Proof.
  destruct z as [|p|p], z' as [|q|q];
    rewrite ?FormatInt_pos, ?FormatInt_neg; intros H;
    try reflexivity;
    try (exfalso; exact (dec_not_zero _ H));
    try (exfalso; exact (dec_not_zero _ (eq_sym H)));
    try (exfalso; exact (dec_not_minus _ _ H));
    try (exfalso; exact (dec_not_minus _ _ (eq_sym H)));
    try discriminate H.
  - f_equal. apply dec_inj. exact H.
  - injection H as H. f_equal. apply dec_inj. exact H.
Qed.

Lemma FormatUint_not_newline (n : Z) :
  forallb (fun c => negb (Byte.eqb c x0a)) (bytes_of (strconv.FormatUint n)) = true.
Proof.
  destruct n as [|p|p].
  - reflexivity.
  - rewrite FormatUint_pos. apply dec_not_newline.
  - reflexivity.
Qed.

Lemma FormatUint_inj (n n' : Z) :
  0 <= n -> 0 <= n' ->
  bytes_of (strconv.FormatUint n) = bytes_of (strconv.FormatUint n') -> n = n'.
Proof.
  intros Hn Hn'.
  destruct n as [|p|p], n' as [|q|q]; try lia;
    rewrite ?FormatUint_pos; intros H;
    try reflexivity;
    try (exfalso; exact (dec_not_zero _ H));
    try (exfalso; exact (dec_not_zero _ (eq_sym H))).
  f_equal. apply dec_inj. exact H.
Qed.

Lemma base64_not_newline (b : list byte) :
  forallb (fun c => negb (Byte.eqb c x0a))
          (bytes_of (base64.EncodeToString base64.StdEncoding b)) = true.
Proof.
  unfold base64.EncodeToString. rewrite bytes_of_string_of.
  pose proof (base64_text_plain b) as H. unfold json.plain in H.
  rewrite forallb_forall in *. intros c Hc. specialize (H c Hc).
  destruct (Byte.eqb c x0a) eqn:E; [|reflexivity].
  apply byte_eqb_eq in E. subst c. discriminate H.
Qed.

Lemma base64_text_inj (b b' : list byte) :
  bytes_of (base64.EncodeToString base64.StdEncoding b)
  = bytes_of (base64.EncodeToString base64.StdEncoding b') -> b = b'.
Proof.
  unfold base64.EncodeToString. rewrite !bytes_of_string_of. intros H.
  pose proof (base64_DecodeString_encode base64.StdEncoding
                StdEncoding_wellFormed b) as Hb.
  rewrite H, base64_DecodeString_encode in Hb by apply StdEncoding_wellFormed.
  injection Hb as Hb. symmetry. exact Hb.
Qed.

Lemma cons_tail (x : byte) (a b : list byte) : x :: a = x :: b -> a = b.
Proof. intros H. injection H as H. exact H. Qed.

(** A line with its label, read from the end of the message. *)
Lemma rev_line (label text text' r r' : list byte) :
  forallb (fun c => negb (Byte.eqb c x0a)) label = true ->
  forallb (fun c => negb (Byte.eqb c x0a)) text = true ->
  forallb (fun c => negb (Byte.eqb c x0a)) text' = true ->
  rev (label ++ text) ++ x0a :: r = rev (label ++ text') ++ x0a :: r' ->
  text = text' /\ r = r'.
Proof.
  intros Hl Ht Ht' H.
  assert (Hn : forall t, forallb (fun c => negb (Byte.eqb c x0a)) t = true ->
                 forallb (fun c => negb (Byte.eqb c x0a)) (rev (label ++ t)) = true).
  { intros t Hx. rewrite forallb_forall in *. intros c Hc.
    apply in_rev, in_app_or in Hc. destruct Hc; auto. }
  apply first_line in H; [|apply Hn; assumption|apply Hn; assumption].
  destruct H as [H ->]. split; [|reflexivity].
  apply (f_equal (@rev byte)) in H. rewrite !rev_involutive in H.
  apply app_inv_head in H. exact H.
Qed.

(** The message, last line first. *)
Lemma rev_message (u : userSig) :
  rev (message u)
  = (match UserBuf u with
     | Some b =>
         x0a :: rev (sigUserBuf
                       ++ bytes_of (base64.EncodeToString base64.StdEncoding b))
     | None => []
     end)
    ++ x0a :: rev (sigExpire ++ bytes_of (strconv.FormatInt (Expire u)))
    ++ x0a :: rev (sigTime ++ bytes_of (strconv.FormatInt (Time u)))
    ++ x0a :: rev (sigSdkAppID ++ bytes_of (strconv.FormatUint (SdkAppID u)))
    ++ x0a :: rev (sigIdentifier ++ bytes_of (Identifier u)).
Proof.
  unfold message, sigEnter.
  generalize sigIdentifier sigSdkAppID sigTime sigExpire sigUserBuf.
  intros t1 t2 t3 t4 t5.
  destruct (UserBuf u) as [b|]; cbn [non_nil contents];
    repeat (rewrite ?rev_app_distr; cbn [rev app]);
    rewrite <- ?app_assoc; cbn [app]; rewrite ?app_nil_r;
    repeat (rewrite <- ?app_assoc; cbn [app]); reflexivity.
Qed.

Lemma message_fields (u u' : userSig) :
  0 <= SdkAppID u -> 0 <= SdkAppID u' ->
  message u = message u' ->
  Identifier u = Identifier u'
  /\ SdkAppID u = SdkAppID u'
  /\ Time u = Time u'
  /\ Expire u = Expire u'
  /\ UserBuf u = UserBuf u'.
Proof.
  intros Hn Hn' H.
  apply (f_equal (@rev byte)) in H. rewrite !rev_message in H.
  assert (Hrest :
    x0a :: rev (sigExpire ++ bytes_of (strconv.FormatInt (Expire u)))
      ++ x0a :: rev (sigTime ++ bytes_of (strconv.FormatInt (Time u)))
      ++ x0a :: rev (sigSdkAppID ++ bytes_of (strconv.FormatUint (SdkAppID u)))
      ++ x0a :: rev (sigIdentifier ++ bytes_of (Identifier u))
    = x0a :: rev (sigExpire ++ bytes_of (strconv.FormatInt (Expire u')))
        ++ x0a :: rev (sigTime ++ bytes_of (strconv.FormatInt (Time u')))
        ++ x0a :: rev (sigSdkAppID ++ bytes_of (strconv.FormatUint (SdkAppID u')))
        ++ x0a :: rev (sigIdentifier ++ bytes_of (Identifier u'))
    /\ UserBuf u = UserBuf u').
  { destruct (UserBuf u) as [b|], (UserBuf u') as [b'|]; cbn [app] in H.
    - apply cons_tail in H.
      apply rev_line in H;
        [|reflexivity|apply base64_not_newline|apply base64_not_newline].
      destruct H as [Hb H]. apply base64_text_inj in Hb. subst b'.
      split; [rewrite H; reflexivity|reflexivity].
    - exfalso. apply cons_tail in H.
      apply first_line in H.
      + destruct H as [H _].
        apply (f_equal (@rev byte)) in H. rewrite !rev_involutive in H.
        apply (f_equal (firstn 5)) in H. discriminate H.
      + rewrite forallb_forall. intros c Hc. apply in_rev, in_app_or in Hc.
        destruct Hc as [Hc|Hc]; revert c Hc; apply forallb_forall;
          [reflexivity|apply base64_not_newline].
      + rewrite forallb_forall. intros c Hc. apply in_rev, in_app_or in Hc.
        destruct Hc as [Hc|Hc]; revert c Hc; apply forallb_forall;
          [reflexivity|apply FormatInt_not_newline].
    - exfalso. apply cons_tail in H.
      apply first_line in H.
      + destruct H as [H _].
        apply (f_equal (@rev byte)) in H. rewrite !rev_involutive in H.
        apply (f_equal (firstn 5)) in H. discriminate H.
      + rewrite forallb_forall. intros c Hc. apply in_rev, in_app_or in Hc.
        destruct Hc as [Hc|Hc]; revert c Hc; apply forallb_forall;
          [reflexivity|apply FormatInt_not_newline].
      + rewrite forallb_forall. intros c Hc. apply in_rev, in_app_or in Hc.
        destruct Hc as [Hc|Hc]; revert c Hc; apply forallb_forall;
          [reflexivity|apply base64_not_newline].
    - split; [exact H|reflexivity]. }
  destruct Hrest as [H' Hbuf]. clear H.
  apply cons_tail in H'. rename H' into H.
  apply rev_line in H;
    [|reflexivity|apply FormatInt_not_newline|apply FormatInt_not_newline].
  destruct H as [He H]. apply FormatInt_inj in He.
  apply rev_line in H;
    [|reflexivity|apply FormatInt_not_newline|apply FormatInt_not_newline].
  destruct H as [Ht H]. apply FormatInt_inj in Ht.
  apply rev_line in H;
    [|reflexivity|apply FormatUint_not_newline|apply FormatUint_not_newline].
  destruct H as [Ha H]. apply FormatUint_inj in Ha; [|assumption|assumption].
  apply (f_equal (@rev byte)) in H. rewrite !rev_involutive in H.
  apply app_inv_head in H.
  rewrite <- (string_of_bytes_of (Identifier u)),
          <- (string_of_bytes_of (Identifier u')), H.
  repeat split; try assumption; reflexivity.
Qed.

End SignedMessage.

(** X9. The MAC of [sign] is HMAC-SHA256 of the bytes it writes, and these
    bytes determine the signed fields: two documents for which [sign] writes
    the same message have the same identifier, application id, time, expire
    and user buffer, the difference between a nil and an empty buffer
    included.  No choice of an identifier, line feeds in it included, makes
    the message of one document read as that of another. *)
Theorem signed_message_determines_fields :
  forall (u u' : userSig) (key : string),
    uint64_range (SdkAppID u) ->
    uint64_range (SdkAppID u') ->
    sign u key = hmac.HMAC_SHA256 (bytes_of key) (message u)
    /\ sign u' key = hmac.HMAC_SHA256 (bytes_of key) (message u')
    /\ (message u = message u' ->
        Identifier u = Identifier u'
        /\ SdkAppID u = SdkAppID u'
        /\ Time u = Time u'
        /\ Expire u = Expire u'
        /\ UserBuf u = UserBuf u').
Proof.
  intros u u' key Hu Hu'.
  assert (Hm : forall v : userSig,
            sign v key = hmac.HMAC_SHA256 (bytes_of key) (message v)).
  { intros v. rewrite sign_message. unfold message.
    destruct (UserBuf v); reflexivity. }
  split; [apply Hm|]. split; [apply Hm|].
  apply message_fields; [apply Hu|apply Hu'].
Qed.

Lemma signed_message_determines_fields_witness :
  Identifier (mkUserSig "2.0" "alice" 1400000000 86400 1700000000 (Some []) None)
  = Identifier (mkUserSig "1.0" "alice" 1400000000 86400 1700000000 (Some [])
                          (Some [x01])).
Proof.
  refine (proj1 (proj2 (proj2 (signed_message_determines_fields
            (mkUserSig "2.0" "alice" 1400000000 86400 1700000000 (Some []) None)
            (mkUserSig "1.0" "alice" 1400000000 86400 1700000000 (Some [])
                       (Some [x01]))
            "secret" _ _)) _)).
  - unfold uint64_range. cbn [SdkAppID]. lia.
  - unfold uint64_range. cbn [SdkAppID]. lia.
  - reflexivity.
Defined.

(** ** Lifetimes that leave the range of int64 *)

Lemma wrap64_overflow (z : Z) :
  max_int64 < z <= 2 * max_int64 -> wrap64 z = z - 2 ^ 64.
Proof.
  unfold wrap64, max_int64. intros H.
  replace (z + 2 ^ 63) with (z - 2 ^ 63 + 1 * 2 ^ 64) by lia.
  rewrite Z.mod_add by lia. rewrite Z.mod_small by lia. lia.
Qed.

(** X10. When the sum of the time of issue and the duration exceeds
    [math.MaxInt64], the sum [Time + Expire] that [verify] compares with the
    clock has wrapped by [2^64]: the token of [GenUserSig] is refused with
    [ErrExpired] at every time after [currTime + expire - 2^64], so at the
    time of issue and at every later time, with the right application id,
    key and identity. *)
Theorem overflowing_lifetime_is_expired :
  forall (currTime sdkappid : Z) (key identity : string) (expire now : Z),
    utf8.ValidString identity = true ->
    int64_range currTime ->
    int64_range expire ->
    max_int64 < currTime + expire ->
    currTime + expire - 2 ^ 64 < now ->
    currTime + expire - 2 ^ 64 < currTime
    /\ snd (GenUserSig currTime sdkappid key identity expire) = None
    /\ VerifyUserSig (to_uint64 sdkappid) key identity
         (fst (GenUserSig currTime sdkappid key identity expire)) now
       = Some ErrExpired.
Proof.
  intros currTime sdkappid key identity expire now Hid Ht He Hsum Hnow.
  apply Valid_readsBack in Hid.
  pose proof (genSig_unpacked currTime sdkappid key identity expire None
                Hid He Ht) as Hnew.
  cbn [omitEmpty] in Hnew. unfold GenUserSig.
  split; [unfold int64_range, min_int64, max_int64 in *; lia|].
  split; [reflexivity|].
  unfold VerifyUserSig. rewrite Hnew.
  apply verify_expired; try reflexivity.
  cbn [Time Expire]. rewrite wrap64_overflow; [exact Hnow|].
  unfold int64_range, min_int64, max_int64 in *. lia.
Qed.

Lemma overflowing_lifetime_is_expired_witness :
  VerifyUserSig (to_uint64 1400000000) "secret" "alice"
    (fst (GenUserSig 1700000000 1400000000 "secret" "alice"
                     9223372036854775807))
    1700000000
  = Some ErrExpired.
Proof.
  refine (proj2 (proj2 (overflowing_lifetime_is_expired 1700000000 1400000000
                          "secret" "alice" 9223372036854775807 1700000000
                          _ _ _ _ _))).
  - vm_compute. reflexivity.
  - unfold int64_range, min_int64, max_int64. lia.
  - unfold int64_range, min_int64, max_int64. lia.
  - unfold max_int64. lia.
  - lia.
Defined.
